(** * simple-html-editor: the backtracking markup scanner, the position
      converter and the highlight diff of [main.py], embedded in Rocq.

    Python strings are lists of characters; a character is an [ascii]
    (code points below 256).  Integers that index the text are [nat]
    (the cursor never goes below 0); the position converter, which starts
    from [last_pos = -1], works in [Z].  A method that mutates
    [self._pos] and [self._result] or raises [ParserError] is a function
    from the state to an [outcome]; a raised [ParserError] carries the
    state as it was when the exception left the method, since Python does
    not undo the mutations made before a raise.  [while] loops take their
    iteration bound from a [fuel] parameter. *)

From Stdlib Require Import Ascii String List Lia ZArith DecimalString Bool.
From stdpp Require Import gmap strings list fin_maps.

Local Open Scope nat_scope.

(** ** Characters and strings *)

(** A string literal of the source, as a list of characters. *)
Definition str (s : string) : list ascii := list_ascii_of_string s.

(** [c in s] for a one-character [c] and a string [s]. *)
Definition char_in (c : ascii) (s : list ascii) : bool :=
  bool_decide (c ∈ s).

(** [str.lower()] on code points below 256: A-Z and the Latin-1 capitals
    (U+00C0 to U+00DE without the multiplication sign U+00D7) move up by
    32; everything else is unchanged. *)
Definition lower_char (c : ascii) : ascii :=
  let n := nat_of_ascii c in
  if ((65 <=? n) && (n <=? 90))
     || ((192 <=? n) && (n <=? 222) && negb (n =? 215))
  then ascii_of_nat (n + 32) else c.

Definition lower (s : list ascii) : list ascii := map lower_char s.

(** [t[i:j]] for [0 <= i]: Python clips both ends to the length. *)
Definition slice (t : list ascii) (i j : nat) : list ascii :=
  firstn (j - i) (skipn i t).

(** ** Parser elements and parser state *)

(** [ParserElement(l, r, type)]. *)
Record ParserElement := mkElement {
  l : nat;
  r : nat;
  type : string
}.

Global Instance ParserElement_eq_dec : EqDecision ParserElement.
Proof. solve_decision. Defined.

(** The mutable attributes of a parser object. *)
Record state := mkState {
  _pos : nat;
  _result : list ParserElement
}.

(** What a method call does: return a value, raise [ParserError], or
    exhaust the iteration bound of a loop. *)
Inductive outcome (A : Type) : Type :=
| Ok (a : A) (s : state)
| Raise (s : state)
| OutOfFuel.
Arguments Ok {A} a s.
Arguments Raise {A} s.
Arguments OutOfFuel {A}.

Definition M (A : Type) : Type := state -> outcome A.

Definition ret {A} (a : A) : M A := fun s => Ok a s.

Definition bind {A B} (m : M A) (k : A -> M B) : M B :=
  fun s =>
    match m s with
    | Ok a s' => k a s'
    | Raise s' => Raise s'
    | OutOfFuel => OutOfFuel
    end.

(** [raise ParserError()]. *)
Definition raise {A} : M A := fun s => Raise s.

(** [self._pos = p]. *)
Definition set_pos (p : nat) : M unit :=
  fun s => Ok tt (mkState p (_result s)).

(** [self._result.append(e)]. *)
Definition append_result (e : ParserElement) : M unit :=
  fun s => Ok tt (mkState (_pos s) (_result s ++ [e])).

Declare Scope parser_scope.
Delimit Scope parser_scope with parser.
Notation "x <- m ;; k" := (bind m (fun x => k))
  (at level 100, m at next level, k at level 200, right associativity)
  : parser_scope.
Notation "m ;; k" := (bind m (fun _ => k))
  (at level 100, k at level 200, right associativity) : parser_scope.
Local Open Scope parser_scope.

(** How one turn of a loop body ends: fall through to the next test of
    the condition, or [break].  [L] holds the local variables the loop
    updates. *)
Inductive flow (L : Type) : Type :=
| Continue (l : L)
| Break (l : L).
Arguments Continue {L} l.
Arguments Break {L} l.

(** [while cond: body], at most [n] tests of the condition. *)
Fixpoint while_ {L} (n : nat) (cond : L -> state -> bool)
    (body : L -> M (flow L)) (l : L) : M L :=
  fun s =>
    match n with
    | 0 => OutOfFuel
    | S n' =>
        if cond l s then
          match body l s with
          | Ok (Continue l') s' => while_ n' cond body l' s'
          | Ok (Break l') s' => Ok l' s'
          | Raise s' => Raise s'
          | OutOfFuel => OutOfFuel
          end
        else Ok l s
    end.

(** ** class ParserBase *)

Module ParserBase.
Section ParserBase.
Variable _text : list ascii.
Variable _whitespaces : list ascii.
Variable fuel : nat.

Definition _is_end (s : state) : bool := length _text <=? _pos s.

Definition _match_single (prefix : list ascii)
    (is_impotant_register : bool) (s : state) : bool :=
  let A := slice _text (_pos s) (_pos s + length prefix) in
  let B := prefix in
  if is_impotant_register then bool_decide (A = B)
  else bool_decide (lower A = lower B).

(** A single string argument is the one-element list. *)
Definition _match (prefixes : list (list ascii))
    (is_impotant_register : bool) (s : state) : bool :=
  existsb (fun prefix => _match_single prefix is_impotant_register s)
          prefixes.

Definition _skip_len (cnt : nat) : M unit :=
  fun s =>
    if length _text <? _pos s + cnt then Raise s
    else Ok tt (mkState (_pos s + cnt) (_result s)).

Definition _skip_match (prefix : list ascii)
    (is_impotant_register : bool) : M unit :=
  fun s =>
    if _match [prefix] is_impotant_register s
    then _skip_len (length prefix) s
    else Raise s.

Definition _char (s : state) : option ascii := nth_error _text (_pos s).

Definition _next : M ascii :=
  fun s =>
    match _char s with
    | Some cur => Ok cur (mkState (_pos s + 1) (_result s))
    | None => Raise s
    end.

(** [self._char() in self._whitespaces] is only evaluated when the
    cursor is inside the text. *)
Definition _can_skip_whitespace (s : state) : bool :=
  negb (_is_end s)
  && match _char s with
     | Some c => char_in c _whitespaces
     | None => false
     end.

Definition _try_skip_whitespaces : M unit :=
  while_ fuel (fun _ => _can_skip_whitespace)
    (fun _ => _next ;; ret (Continue tt)) tt.

Definition _skip_whitespaces : M unit :=
  fun s =>
    if negb (_can_skip_whitespace s) then Raise s
    else _try_skip_whitespaces s.

Definition _end_filter (end_ : list ascii) : ascii -> bool :=
  fun character => negb (char_in character end_).

(** [text_filter(self._char())], evaluated only inside the text. *)
Definition filter_char (text_filter : ascii -> bool) (s : state) : bool :=
  match _char s with
  | Some c => text_filter c
  | None => false
  end.

Definition _parse_text (text_filter : ascii -> bool) (min_one : bool)
    : M (list ascii) :=
  result <-
    (if min_one then
       fun s =>
         if _is_end s || negb (filter_char text_filter s) then Raise s
         else (c <- _next ;; ret [c]) s
     else ret []) ;;
  while_ fuel
    (fun _ s => negb (_is_end s) && filter_char text_filter s)
    (fun result => c <- _next ;; ret (Continue (result ++ [c])))
    result.

End ParserBase.
End ParserBase.

(** ** The three decorators *)

Definition parser_result_updater {A} (element_type : string) (func : M A)
    : M A :=
  fun s =>
    let pos := _pos s in
    match func s with
    | Ok result s' =>
        if pos <? _pos s'
        then Ok result
               (mkState (_pos s')
                  (_result s' ++ [mkElement pos (_pos s') element_type]))
        else Ok result s'
    | Raise s' => Raise s'
    | OutOfFuel => OutOfFuel
    end.

(** The wrapper returns [None] when it has caught the error. *)
Definition parser_error_handler {A} (func : M A) : M (option A) :=
  fun s =>
    let pos := _pos s in
    match func s with
    | Ok a s' => Ok (Some a) s'
    | Raise s' =>
        Ok None
          (mkState (_pos s')
             (_result s' ++ [mkElement pos (_pos s') "error"]))
    | OutOfFuel => OutOfFuel
    end.

Definition parser_restorer {A} (func : M A) : M bool :=
  fun s =>
    let old_pos := _pos s in
    let old_result := _result s in
    match func s with
    | Ok _ s' => Ok true s'
    | Raise s' => Ok false (mkState old_pos old_result)
    | OutOfFuel => OutOfFuel
    end.

(** ** class HTMLParser *)

Module HTMLParser.

Definition dquote : ascii := "034"%char.
Definition newline : ascii := "010"%char.
Definition tab : ascii := "009"%char.

(** [WHITESPACES]: space, newline, tab. *)
Definition WHITESPACES : list ascii := [" "%char; newline; tab].

(** The characters that end a name: [!/<>], the double quote, [=] and
    the whitespace. *)
Definition name_end : list ascii :=
  str "!/<>" ++ [dquote] ++ str "=" ++ WHITESPACES.

Section HTMLParser.
Variable _text : list ascii.
Variable fuel : nat.

Local Abbreviation _is_end := (ParserBase._is_end _text).
Local Abbreviation _match := (ParserBase._match _text).
Local Abbreviation _skip_match := (ParserBase._skip_match _text).
Local Abbreviation _next := (ParserBase._next _text).
Local Abbreviation _char := (ParserBase._char _text).
Local Abbreviation _skip_whitespaces :=
  (ParserBase._skip_whitespaces _text WHITESPACES fuel).
Local Abbreviation _try_skip_whitespaces :=
  (ParserBase._try_skip_whitespaces _text WHITESPACES fuel).
Local Abbreviation _end_filter := ParserBase._end_filter.
Local Abbreviation _parse_text := (ParserBase._parse_text _text fuel).

Definition __skip_name : M (list ascii) :=
  _parse_text (_end_filter name_end) true.

Definition __skip_value : M (list ascii) :=
  fun s =>
    if _match [[dquote]] false s then
      (_skip_match [dquote] false ;;
       result <- _parse_text (_end_filter [dquote]) false ;;
       _skip_match [dquote] false ;;
       ret ([dquote] ++ result ++ [dquote])) s
    else _parse_text (_end_filter name_end) true s.

Definition __try_parse_doctype : M bool :=
  parser_restorer (parser_result_updater "doctype"
    (_skip_match (str "<!doctype") false ;;
     _skip_whitespaces ;;
     _parse_text (_end_filter (str ">")) true ;;
     _skip_match (str ">") false)).

Definition __parse_tag_name : M (list ascii) :=
  parser_result_updater "tag_name" __skip_name.

Definition __parse_tag_param_name : M (list ascii) :=
  parser_result_updater "tag_param_name" __skip_name.

Definition __parse_tag_param_value : M (list ascii) :=
  parser_result_updater "tag_param_value" __skip_value.

Definition __parse_close_tag (open_tag_name : option (list ascii))
    : M unit :=
  _skip_match (str "</") false ;;
  _try_skip_whitespaces ;;
  close_tag_name <- __parse_tag_name ;;
  (match open_tag_name with
   | Some name =>
       (* a non-empty string is true *)
       if negb (bool_decide (name = []))
          && negb (bool_decide (name = close_tag_name))
       then raise else ret tt
   | None => ret tt
   end) ;;
  _try_skip_whitespaces ;;
  _skip_match (str ">") false.

Definition __try_parse_close_tag2 (open_tag_name : option (list ascii))
    : M bool :=
  parser_restorer (__parse_close_tag open_tag_name).

Definition __try_parse_close_tag (open_tag_name : option (list ascii))
    : M (option unit) :=
  parser_error_handler (__parse_close_tag open_tag_name).

(** The loop shared by [__parse_script] and [__parse_style], which
    differ in the element name only; [raw_content_turn] is one turn
    of it. *)
Definition raw_content_turn (name : string) : M (flow unit) :=
  _parse_text (_end_filter (str "<")) false ;;
  lpos <- (fun s => Ok (_pos s) s) ;;
  found <- __try_parse_close_tag2 (Some (str name)) ;;
  if found : bool then
    set_pos lpos ;; ret (Break tt)
  else
    while_ fuel
      (fun _ s => negb (_is_end s)
                  && bool_decide (_char s = Some "<"%char))
      (fun _ => _next ;; ret (Continue tt)) tt ;;
    ret (Continue tt).

Definition raw_content (name : string) : M unit :=
  while_ fuel (fun _ s => negb (_is_end s))
    (fun _ => raw_content_turn name) tt.

Definition __parse_script : M unit :=
  parser_result_updater "script" (raw_content "script").

Definition __parse_style : M unit :=
  parser_result_updater "style" (raw_content "style").

Definition __try_parse_comment : M bool :=
  parser_restorer (parser_result_updater "comment"
    (_skip_match (str "<!--") false ;;
     _try_skip_whitespaces ;;
     while_ fuel (fun _ s => negb (_match [str "-->"] false s))
       (fun _ => _next ;; ret (Continue tt)) tt ;;
     _try_skip_whitespaces ;;
     _skip_match (str "-->") false)).

Definition __try_parse_user_text : M unit :=
  parser_result_updater "text"
    (_parse_text (_end_filter (str "<")) false ;; ret tt).

Definition __try_parse_tag_param : M unit :=
  __parse_tag_param_name ;;
  _try_skip_whitespaces ;;
  fun s =>
    if _match [str "="] false s then
      (_skip_match (str "=") false ;;
       _try_skip_whitespaces ;;
       __parse_tag_param_value ;;
       _try_skip_whitespaces) s
    else Ok tt s.

Definition __try_parse_tag_params : M (option unit) :=
  parser_error_handler
    (_try_skip_whitespaces ;;
     while_ fuel
       (fun _ s => negb (_is_end s)
                   && negb (_match [str "/>"; str ">"] false s))
       (fun _ =>
          __try_parse_tag_param ;;
          _try_skip_whitespaces ;;
          ret (Continue tt))
       tt).

Definition __try_parse_open_and_close_tag : M bool :=
  parser_restorer
    (_skip_match (str "<") false ;;
     _try_skip_whitespaces ;;
     name <- __parse_tag_name ;;
     _try_skip_whitespaces ;;
     __try_parse_tag_params ;;
     _skip_match (str "/>") false).

Definition __try_parse_open_tag : M (option (list ascii)) :=
  parser_error_handler
    (_skip_match (str "<") false ;;
     _try_skip_whitespaces ;;
     name <- __parse_tag_name ;;
     _try_skip_whitespaces ;;
     __try_parse_tag_params ;;
     _skip_match (str ">") false ;;
     ret name).

Definition __parse_tag_block : M (option unit) :=
  parser_error_handler
    (fun s =>
       if _match [str "</"] false s then
         (__try_parse_close_tag None ;; ret tt) s
       else
         (closed <- __try_parse_open_and_close_tag ;;
          if closed : bool then ret tt
          else
            tag_name <- __try_parse_open_tag ;;
            if bool_decide (tag_name ∈ [Some (str "script");
                                        Some (str "style")])
            then
              (if bool_decide (tag_name = Some (str "script"))
               then __parse_script
               else __parse_style) ;;
              __try_parse_close_tag tag_name ;;
              ret tt
            else ret tt) s).

(** One turn of the loop of [__try_parse_tag_blocks]. *)
Definition tag_blocks_turn : M (flow unit) :=
  __try_parse_comment ;;
  __parse_tag_block ;;
  _try_skip_whitespaces ;;
  __try_parse_user_text ;;
  ret (Continue tt).

Definition __try_parse_tag_blocks : M unit :=
  while_ fuel
    (fun _ s => negb (_is_end s)
                && bool_decide (_char s = Some "<"%char))
    (fun _ => tag_blocks_turn)
    tt.

Definition _parse : M unit :=
  fun s =>
    (_try_skip_whitespaces ;;
     __try_parse_doctype ;;
     _try_skip_whitespaces ;;
     __try_parse_user_text ;;
     __try_parse_tag_blocks) (mkState (_pos s) []).

End HTMLParser.

(** [HTMLParser(html_text)]: [ParserBase.__init__] sets the cursor to 0
    and calls [_parse], which starts from an empty result list.  The
    loops get one turn per character of the text, plus one for the
    last test of the condition. *)
Definition new (html_text : list ascii) : outcome unit :=
  _parse html_text (S (length html_text)) (mkState 0 []).

(** The [result] property of a constructed parser. *)
Definition result (html_text : list ascii) : option (list ParserElement) :=
  match new html_text with
  | Ok _ s => Some (_result s)
  | _ => None
  end.

End HTMLParser.


(** ** class HTMLEditor.PositionConverter *)

Module PositionConverter.

(** Index of the first [c] in [t], if any. *)
Fixpoint find_char (c : ascii) (t : list ascii) : option nat :=
  match t with
  | [] => None
  | x :: t' =>
      if bool_decide (x = c) then Some 0
      else option_map S (find_char c t')
  end.

(** [text.index(c, start)] for [0 <= start]: the lowest index from
    [start] on that holds [c]; [None] is the [ValueError]. *)
Definition index (text : list ascii) (c : ascii) (start : nat)
    : option nat :=
  option_map (fun i => start + i) (find_char c (skipn start text)).

(** The [while True] loop of [__init__]; it ends through the
    exception of [index].  [None] when the bound [n] is exhausted. *)
Fixpoint init_loop (n : nat) (text : list ascii) (n_sizes : list Z)
    (last_pos : Z) : option (list Z) :=
  match n with
  | 0 => None
  | S n' =>
      match index text HTMLParser.newline (Z.to_nat (last_pos + 1)) with
      | Some new_pos =>
          init_loop n' text
            (n_sizes ++ [(Z.of_nat new_pos - last_pos)%Z])
            (Z.of_nat new_pos)
      | None => Some n_sizes
      end
  end.

(** [PositionConverter(text)]: the list [__n_sizes]. *)
Definition new (text : list ascii) : option (list Z) :=
  init_loop (S (length text)) text [] (-1)%Z.

(** The [for] loop of [convert], with its [break]. *)
Fixpoint convert_loop (n_sizes : list Z) (line index : Z) : Z * Z :=
  match n_sizes with
  | [] => (line, index)
  | i :: rest =>
      if (i <=? index)%Z then convert_loop rest (line + 1)%Z (index - i)%Z
      else (line, index)
  end.

(** An integer as an f-string prints it. *)
Definition format_int (z : Z) : string :=
  NilZero.string_of_int (Z.to_int z).

(** [convert(index)] returns the string [f'{line}.{index}']. *)
Definition convert (n_sizes : list Z) (index : Z) : string :=
  let '(line, index) := convert_loop n_sizes 1%Z index in
  (format_int line ++ "." ++ format_int index)%string.

End PositionConverter.

(** ** HTMLEditor._update_colors: the diff of the applied and the new
       highlight ranges *)

Module HTMLEditor.

(** A range as the text widget reports it: two position strings. *)
Definition range : Type := string * string.

(** One call on the text widget. *)
Inductive tag_op : Type :=
| tag_remove (k : string) (a b : string)
| tag_add (k : string) (a b : string).

(** One turn of [for key in keys]; [tags_new[key]] for a key that is
    in neither dictionary would be a [KeyError], which cannot happen
    for a key taken from [keys]. *)
Definition diff_key (tags tags_new : gmap string (gset range))
    (key : string)
    (acc : gmap string (gset range) * gmap string (gset range))
    : gmap string (gset range) * gmap string (gset range) :=
  let '(tags_to_remove, tags_to_add) := acc in
  match tags !! key, tags_new !! key with
  | None, Some new => (tags_to_remove, <[key := new]> tags_to_add)
  | Some old, None => (<[key := old]> tags_to_remove, tags_to_add)
  | Some old, Some new =>
      (<[key := old ∖ new]> tags_to_remove,
       <[key := new ∖ old]> tags_to_add)
  | None, None => acc
  end.

(** [(tags_to_remove, tags_to_add)] after the loop over
    [keys = set([*tags.keys(), *tags_new.keys()])]. *)
Definition diff (tags tags_new : gmap string (gset range))
    : gmap string (gset range) * gmap string (gset range) :=
  set_fold (diff_key tags tags_new) (∅, ∅) (dom tags ∪ dom tags_new).

(** [for k, v in m.items(): for r in v: f(k, r[0], r[1])]. *)
Definition calls (f : string -> string -> string -> tag_op)
    (m : gmap string (gset range)) : list tag_op :=
  concat (map (fun kv : string * gset range =>
                 map (fun r : range => f kv.1 r.1 r.2) (elements kv.2))
              (map_to_list m)).

(** The widget calls [_update_colors] makes, in order, for the ranges
    [tags] read from the editor and the ranges [tags_new] read from
    the freshly tagged temporary widget. *)
Definition _update_colors (tags tags_new : gmap string (gset range))
    : list tag_op :=
  let '(tags_to_remove, tags_to_add) := diff tags tags_new in
  calls tag_remove tags_to_remove ++ calls tag_add tags_to_add.

End HTMLEditor.

(** ** Specification vocabulary *)

(** The closed set of span categories. *)
Definition categories : list string :=
  ["doctype"; "tag_name"; "tag_param_name"; "tag_param_value"; "comment";
   "text"; "script"; "style"; "error"]%string.

(** A span lies inside the text and carries a known category. *)
Definition span_ok (text : list ascii) (e : ParserElement) : Prop :=
  0 <= l e /\ l e <= r e /\ r e <= length text /\ In (type e) categories.

(** The lengths of the lines of [t] that end in a newline, each counted
    with its newline, as the position translator is described: [cur] is
    the number of characters of the current line read so far. *)
Fixpoint line_lengths_from (cur : Z) (t : list ascii) : list Z :=
  match t with
  | [] => []
  | c :: t' =>
      if bool_decide (c = HTMLParser.newline)
      then (cur + 1)%Z :: line_lengths_from 0%Z t'
      else line_lengths_from (cur + 1)%Z t'
  end.

Definition line_lengths (t : list ascii) : list Z := line_lengths_from 0%Z t.

(** Sum of a list of line lengths. *)
Definition total_length (sizes : list Z) : Z := fold_right Z.add 0%Z sizes.

(** Length of the longest prefix of [t] whose characters all pass [f]. *)
Fixpoint run (f : ascii -> bool) (t : list ascii) : nat :=
  match t with
  | c :: t' => if f c then S (run f t') else 0
  | [] => 0
  end.

(** The state after the cursor moved [k] characters forward. *)
Definition advance (k : nat) (s : state) : state :=
  mkState (_pos s + k) (_result s).

(** Hoare triple with an exceptional postcondition; running out of
    loop turns is never allowed. *)
Definition triple {A} (P : state -> Prop) (m : M A)
    (Q : A -> state -> Prop) (E : state -> Prop) : Prop :=
  forall s, P s ->
    match m s with
    | Ok a s' => Q a s'
    | Raise s' => E s'
    | OutOfFuel => False
    end.

(** ** Rules of the triple *)

Lemma triple_ret {A} (a : A) (P : state -> Prop) E :
  triple P (ret a) (fun a' s => a' = a /\ P s) E.
Proof. intros s HP. simpl. auto. Qed.

Lemma triple_raise {A} (P : state -> Prop) (Q : A -> state -> Prop) :
  triple P raise Q P.
Proof. intros s HP. exact HP. Qed.

Lemma triple_bind {A B} (P : state -> Prop) (m : M A) (k : A -> M B)
    (Q : A -> state -> Prop) (R : B -> state -> Prop) E :
  triple P m Q E ->
  (forall a, triple (Q a) (k a) R E) ->
  triple P (bind m k) R E.
Proof.
  intros Hm Hk s HP. unfold bind.
  specialize (Hm s HP). destruct (m s) as [a s'| s' |]; auto.
  apply (Hk a s' Hm).
Qed.

Lemma bind_ok {A B} (m : M A) (k : A -> M B) s a s' :
  m s = Ok a s' -> bind m k s = k a s'.
Proof. intros H. unfold bind. now rewrite H. Qed.

Lemma bind_raise {A B} (m : M A) (k : A -> M B) s s' :
  m s = Raise s' -> bind m k s = Raise s'.
Proof. intros H. unfold bind. now rewrite H. Qed.

Lemma triple_conseq {A} (P P' : state -> Prop) (m : M A)
    (Q Q' : A -> state -> Prop) (E E' : state -> Prop) :
  triple P m Q E ->
  (forall s, P' s -> P s) ->
  (forall a s, Q a s -> Q' a s) ->
  (forall s, E s -> E' s) ->
  triple P' m Q' E'.
Proof.
  intros Hm HP HQ HE s Hs. specialize (Hm s (HP s Hs)).
  destruct (m s); auto.
Qed.

Lemma triple_if {A} (c : state -> bool) (P : state -> Prop)
    (m1 m2 : M A) Q E :
  triple (fun s => P s /\ c s = true) m1 Q E ->
  triple (fun s => P s /\ c s = false) m2 Q E ->
  triple P (fun s => if c s then m1 s else m2 s) Q E.
Proof.
  intros H1 H2 s HP. destruct (c s) eqn:Hc.
  - apply (H1 s). auto.
  - apply (H2 s). auto.
Qed.

(** The loop rule: [I] holds at every test of the condition, the cursor
    moves strictly forward in every turn that falls through, and the
    cursor stays within a text of length [len]. *)
Lemma triple_while {L} (len : nat) (I : L -> state -> Prop)
    (Q : L -> state -> Prop) (E : state -> Prop)
    (cond : L -> state -> bool) (body : L -> M (flow L)) :
  (forall l s, I l s -> _pos s <= len) ->
  (forall l s, I l s -> cond l s = false -> Q l s) ->
  (forall l s, I l s -> cond l s = true ->
     match body l s with
     | Ok (Continue l') s' => I l' s' /\ _pos s < _pos s'
     | Ok (Break l') s' => Q l' s'
     | Raise s' => E s'
     | OutOfFuel => False
     end) ->
  forall n l s, I l s -> len - _pos s < n ->
    match while_ n cond body l s with
    | Ok l' s' => Q l' s'
    | Raise s' => E s'
    | OutOfFuel => False
    end.
Proof.
  intros Hlen Hexit Hbody n.
  induction n as [|n IH]; intros l0 s HI Hn; [lia|].
  simpl. destruct (cond l0 s) eqn:Hc; [|auto].
  specialize (Hbody l0 s HI Hc).
  destruct (body l0 s) as [[l'|l'] s'| s' |]; auto.
  destruct Hbody as [HI' Hlt].
  apply IH; [assumption|].
  specialize (Hlen _ _ HI'). lia.
Qed.

(** Two loops whose conditions agree everywhere are the same loop. *)
Lemma while_ext_cond {L} (cond cond' : L -> state -> bool)
    (body : L -> M (flow L)) :
  (forall l s, cond l s = cond' l s) ->
  forall n l s, while_ n cond body l s = while_ n cond' body l s.
Proof.
  intros Hc n. induction n as [|n IH]; intros l0 s; [reflexivity|].
  simpl. rewrite Hc. destruct (cond' l0 s); [|reflexivity].
  destruct (body l0 s) as [[l'|l'] s'| s' |]; auto.
Qed.

(** ** The primitives of ParserBase, in terms of the unread text *)

Section BaseFacts.
Variable text : list ascii.

Local Abbreviation rest s := (drop (_pos s) text).

Lemma rest_advance k s : rest (advance k s) = drop k (rest s).
Proof. simpl. now rewrite drop_drop. Qed.

Lemma is_end_rest s :
  ParserBase._is_end text s
  = match rest s with [] => true | _ => false end.
Proof.
  unfold ParserBase._is_end.
  destruct (rest s) as [|c t] eqn:Hr.
  - apply drop_nil_inv in Hr. now apply Nat.leb_le.
  - apply Nat.leb_gt. apply (f_equal (@length ascii)) in Hr.
    rewrite length_drop in Hr. simpl in Hr. lia.
Qed.

Lemma char_rest s : ParserBase._char text s = head (rest s).
Proof. unfold ParserBase._char. now rewrite hd_error_skipn. Qed.

Lemma match_single_rest p b s :
  ParserBase._match_single text p b s
  = if b then bool_decide (take (length p) (rest s) = p)
    else bool_decide (lower (take (length p) (rest s)) = lower p).
Proof.
  unfold ParserBase._match_single, slice.
  now replace (_pos s + length p - _pos s) with (length p) by lia.
Qed.

Lemma skip_len_rest cnt s :
  _pos s <= length text ->
  ParserBase._skip_len text cnt s
  = if cnt <=? length (rest s) then Ok tt (advance cnt s) else Raise s.
Proof.
  intros Hs. unfold ParserBase._skip_len. rewrite length_drop.
  destruct (Nat.ltb_spec (length text) (_pos s + cnt));
    destruct (Nat.leb_spec cnt (length text - _pos s));
    try reflexivity; lia.
Qed.

Lemma next_rest s :
  ParserBase._next text s
  = match rest s with
    | c :: _ => Ok c (advance 1 s)
    | [] => Raise s
    end.
Proof.
  unfold ParserBase._next. rewrite char_rest.
  now destruct (rest s).
Qed.

Lemma run_le f (t : list ascii) : run f t <= length t.
Proof. induction t as [|c t IH]; simpl; [lia|]. destruct (f c); simpl; lia. Qed.

(** A loop that reads characters while they pass [f], folding them
    into its local variable with [g]. *)
Lemma scan_loop {L} (f : ascii -> bool) (g : L -> ascii -> L) n :
  forall (acc : L) s,
    run f (rest s) < n ->
    while_ n
      (fun _ s => negb (ParserBase._is_end text s)
                  && ParserBase.filter_char text f s)
      (fun acc => c <- ParserBase._next text ;; ret (Continue (g acc c)))
      acc s
    = Ok (fold_left g (take (run f (rest s)) (rest s)) acc)
         (advance (run f (rest s)) s).
Proof.
  induction n as [|n IH]; intros acc s Hn; [lia|].
  simpl. unfold ParserBase.filter_char, bind.
  rewrite is_end_rest, char_rest, next_rest.
  destruct (rest s) as [|c t] eqn:Hr; simpl.
  - unfold advance. rewrite Nat.add_0_r. now destruct s.
  - simpl in Hn. destruct (f c) eqn:Hf; simpl.
    + assert (Ht : rest (advance 1 s) = t).
      { rewrite rest_advance, Hr. reflexivity. }
      unfold ret. rewrite IH by (rewrite Ht; lia).
      rewrite Ht. f_equal. unfold advance. simpl. f_equal. lia.
    + unfold advance. rewrite Nat.add_0_r. now destruct s.
Qed.

Lemma fold_left_snoc (t acc : list ascii) :
  fold_left (fun result c => result ++ [c]) t acc = acc ++ t.
Proof.
  revert acc. induction t as [|c t IH]; intros acc; simpl.
  - now rewrite app_nil_r.
  - rewrite IH. now rewrite <- app_assoc.
Qed.

Lemma match_single_length p b s :
  ParserBase._match_single text p b s = true ->
  length p <= length (rest s).
Proof.
  rewrite match_single_rest. intros H.
  assert (Hl : length (take (length p) (rest s)) = length p).
  { destruct b; apply bool_decide_eq_true in H.
    - now rewrite H.
    - apply (f_equal (@length ascii)) in H. unfold lower in H.
      now rewrite !length_map in H. }
  rewrite length_take in Hl. lia.
Qed.

Lemma match_one p b s :
  ParserBase._match text [p] b s = ParserBase._match_single text p b s.
Proof. unfold ParserBase._match. simpl. apply orb_false_r. Qed.

Lemma skip_match_exact p b s :
  _pos s <= length text ->
  ParserBase._skip_match text p b s
  = if ParserBase._match_single text p b s
    then Ok tt (advance (length p) s) else Raise s.
Proof.
  intros Hs. unfold ParserBase._skip_match. rewrite match_one.
  destruct (ParserBase._match_single text p b s) eqn:Hm; [|reflexivity].
  rewrite skip_len_rest by assumption.
  apply match_single_length in Hm.
  now destruct (Nat.leb_spec (length p) (length (rest s))); [|lia].
Qed.

(** The loops, with one turn per character and one to spare. *)
Section Loops.
Variable ws : list ascii.
Variable fuel : nat.
Hypothesis Hfuel : length text < fuel.

Lemma run_rest_lt f s : run f (rest s) < fuel.
Proof.
  pose proof (run_le f (rest s)) as H. rewrite length_drop in H. lia.
Qed.

Lemma try_skip_whitespaces_exact s :
  ParserBase._try_skip_whitespaces text ws fuel s
  = Ok tt (advance (run (fun c => char_in c ws) (rest s)) s).
Proof.
  unfold ParserBase._try_skip_whitespaces.
  pose proof (scan_loop (fun c => char_in c ws) (fun _ _ => tt) fuel tt s
                (run_rest_lt _ s)) as H.
  unfold ParserBase._can_skip_whitespace.
  unfold ParserBase.filter_char in H.
  rewrite H. f_equal.
  now destruct (fold_left _ _ _).
Qed.

Lemma skip_whitespaces_exact s :
  ParserBase._skip_whitespaces text ws fuel s
  = let k := run (fun c => char_in c ws) (rest s) in
    if k =? 0 then Raise s else Ok tt (advance k s).
Proof.
  unfold ParserBase._skip_whitespaces.
  rewrite try_skip_whitespaces_exact.
  unfold ParserBase._can_skip_whitespace.
  rewrite is_end_rest, char_rest.
  destruct (rest s) as [|c t]; simpl; [reflexivity|].
  destruct (char_in c ws); reflexivity.
Qed.

Lemma parse_text_exact f min_one s :
  ParserBase._parse_text text fuel f min_one s
  = let k := run f (rest s) in
    if min_one && (k =? 0) then Raise s
    else Ok (take k (rest s)) (advance k s).
Proof.
  unfold ParserBase._parse_text, bind.
  destruct min_one.
  - rewrite is_end_rest. unfold ParserBase.filter_char at 1.
    rewrite char_rest, next_rest.
    destruct (rest s) as [|c t] eqn:Hr; [reflexivity|].
    cbn [head orb negb run andb].
    destruct (f c) eqn:Hf; [|reflexivity].
    assert (Ht : rest (advance 1 s) = t).
    { rewrite rest_advance, Hr. reflexivity. }
    pose proof (scan_loop f (fun result c => result ++ [c]) fuel [c]
                  (advance 1 s) (run_rest_lt _ _)) as H.
    unfold bind in H. cbn [negb ret]. rewrite H, Ht, fold_left_snoc.
    cbn. f_equal. unfold advance. simpl. f_equal. lia.
  - pose proof (scan_loop f (fun result c => result ++ [c]) fuel []
                  s (run_rest_lt _ _)) as H.
    unfold bind in H. cbn [ret andb]. rewrite H, fold_left_snoc.
    reflexivity.
Qed.

(** The loop of the raw-content rules that reads a run of [<]. *)
Lemma lt_run_exact s :
  while_ fuel
    (fun _ s => negb (ParserBase._is_end text s)
                && bool_decide (ParserBase._char text s = Some "<"%char))
    (fun _ => ParserBase._next text ;; ret (Continue tt)) tt s
  = Ok tt (advance
             (run (fun c => bool_decide (c = "<"%char)) (rest s)) s).
Proof.
  rewrite (while_ext_cond _
    (fun _ s => negb (ParserBase._is_end text s)
                && ParserBase.filter_char text
                     (fun c => bool_decide (c = "<"%char)) s)).
  - rewrite (scan_loop _ (fun _ _ => tt)) by apply run_rest_lt.
    f_equal. now destruct (fold_left _ _ _).
  - intros _ s0. f_equal. unfold ParserBase.filter_char.
    destruct (ParserBase._char text s0) as [c|]; [|reflexivity].
    apply bool_decide_ext. split; congruence.
Qed.

End Loops.

End BaseFacts.

(** ** Cursor and span invariants of the grammar rules *)

Section Safety.
Variable text : list ascii.
Variable fuel : nat.
Hypothesis Hfuel : length text < fuel.

Local Abbreviation rest s := (drop (_pos s) text).

(** The cursor is inside the text (or at its end) and every recorded
    span is well formed. *)
Definition inv (s : state) : Prop :=
  _pos s <= length text /\ Forall (span_ok text) (_result s).

(** [inv], and the cursor is at [p] or later. *)
Definition ge (p : nat) (s : state) : Prop := inv s /\ p <= _pos s.

(** A rule that never moves the cursor back, whether it returns or
    raises. *)
Definition mono {A} (m : M A) : Prop :=
  forall p, triple (ge p) m (fun _ => ge p) (ge p).

(** A [mono] rule that never raises. *)
Definition total {A} (m : M A) : Prop :=
  forall p, triple (ge p) m (fun _ => ge p) (fun _ => False).

(** A [mono] rule that has consumed something when it returns. *)
Definition strict {A} (m : M A) : Prop :=
  forall p, triple (ge p) m (fun _ => ge (S p)) (ge p).

Lemma ge_weaken p q s : ge p s -> q <= p -> ge q s.
Proof. intros [Hi Hp] Hq. split; [assumption|lia]. Qed.

Lemma ge_self s : inv s -> ge (_pos s) s.
Proof. intros Hi. split; [assumption|lia]. Qed.

Lemma ge_advance p k s :
  ge p s -> k <= length (rest s) -> ge (p + k) (advance k s).
Proof.
  intros [[Hl Hr] Hp] Hk. rewrite length_drop in Hk.
  repeat split; simpl; try assumption; lia.
Qed.

Lemma total_mono {A} (m : M A) : total m -> mono m.
Proof.
  intros H p. eapply triple_conseq; [apply (H p)|auto|auto|intros ? []].
Qed.

Lemma strict_mono {A} (m : M A) : strict m -> mono m.
Proof.
  intros H p. eapply triple_conseq; [apply (H p)|auto| |auto].
  intros a s Hs. apply (ge_weaken _ _ _ Hs). lia.
Qed.

Lemma total_ret {A} (a : A) : total (ret a).
Proof. intros p s Hs. exact Hs. Qed.

Lemma mono_raise {A} : mono (@raise A).
Proof. intros p s Hs. exact Hs. Qed.

Lemma mono_bind {A B} (m : M A) (k : A -> M B) :
  mono m -> (forall a, mono (k a)) -> mono (bind m k).
Proof. intros Hm Hk p. eapply triple_bind; [apply Hm|intros a; apply Hk]. Qed.

Lemma total_bind {A B} (m : M A) (k : A -> M B) :
  total m -> (forall a, total (k a)) -> total (bind m k).
Proof. intros Hm Hk p. eapply triple_bind; [apply Hm|intros a; apply Hk]. Qed.

Lemma strict_bind_l {A B} (m : M A) (k : A -> M B) :
  strict m -> (forall a, mono (k a)) -> strict (bind m k).
Proof.
  intros Hm Hk p. eapply triple_bind; [apply Hm|].
  intros a. eapply triple_conseq; [apply (Hk a (S p))|auto|auto|].
  intros s Hs. apply (ge_weaken _ _ _ Hs). lia.
Qed.

Lemma strict_bind_r {A B} (m : M A) (k : A -> M B) :
  mono m -> (forall a, strict (k a)) -> strict (bind m k).
Proof. intros Hm Hk p. eapply triple_bind; [apply Hm|intros a; apply Hk]. Qed.

Lemma mono_if {A} (c : state -> bool) (m1 m2 : M A) :
  mono m1 -> mono m2 -> mono (fun s => if c s then m1 s else m2 s).
Proof.
  intros H1 H2 p s Hs. destruct (c s); [apply H1|apply H2]; assumption.
Qed.

Lemma strict_if {A} (c : state -> bool) (m1 m2 : M A) :
  strict m1 -> strict m2 -> strict (fun s => if c s then m1 s else m2 s).
Proof.
  intros H1 H2 p s Hs. destruct (c s); [apply H1|apply H2]; assumption.
Qed.

(** *** The decorators *)

Lemma span_ok_between s s' t :
  In t categories -> ge (_pos s) s' ->
  span_ok text (mkElement (_pos s) (_pos s') t).
Proof.
  intros Ht [[Hl _] Hp]. unfold span_ok; simpl.
  repeat split; try assumption; lia.
Qed.

Lemma ge_record p s s' t :
  In t categories -> ge p s -> ge (_pos s) s' ->
  ge (_pos s)
     (mkState (_pos s') (_result s' ++ [mkElement (_pos s) (_pos s') t])).
Proof.
  intros Ht Hs Hs'. pose proof (span_ok_between _ _ _ Ht Hs') as Hok.
  destruct Hs' as [[Hl Hr] Hp].
  repeat split; simpl; try assumption.
  apply Forall_app. split; [assumption|]. now constructor.
Qed.

Lemma mono_updater {A} t (f : M A) :
  In t categories -> mono f -> mono (parser_result_updater t f).
Proof.
  intros Ht Hf p s Hs. unfold parser_result_updater.
  pose proof (Hf (_pos s) s (ge_self s (proj1 Hs))) as H.
  destruct Hs as [Hi Hp].
  destruct (f s) as [a s'| s' |]; [|eapply ge_weaken; eauto|auto].
  destruct (_pos s <? _pos s'); [|eapply ge_weaken; eauto].
  eapply ge_weaken; [apply (ge_record p); eauto; now split|assumption].
Qed.

Lemma total_updater {A} t (f : M A) :
  In t categories -> total f -> total (parser_result_updater t f).
Proof.
  intros Ht Hf p s Hs.
  pose proof (mono_updater t f Ht (total_mono _ Hf) p s Hs) as H.
  unfold parser_result_updater in *.
  pose proof (Hf p s Hs) as H'.
  destruct (f s) as [a s'| s' |]; auto.
  destruct (_pos s <? _pos s'); auto.
Qed.

Lemma strict_updater {A} t (f : M A) :
  In t categories -> strict f -> strict (parser_result_updater t f).
Proof.
  intros Ht Hf p s Hs.
  pose proof (mono_updater t f Ht (strict_mono _ Hf) p s Hs) as H.
  unfold parser_result_updater in *.
  pose proof (Hf p s Hs) as H'.
  destruct (f s) as [a s'| s' |]; auto.
  destruct H' as [_ H']. destruct (_pos s <? _pos s');
    (split; [apply H|simpl; lia]).
Qed.

Lemma total_handler {A} (f : M A) :
  mono f -> total (parser_error_handler f).
Proof.
  intros Hf p s Hs. unfold parser_error_handler.
  pose proof (Hf (_pos s) s (ge_self s (proj1 Hs))) as H.
  destruct Hs as [Hi Hp].
  destruct (f s) as [a s'| s' |]; [eapply ge_weaken; eauto| |auto].
  eapply ge_weaken; [apply (ge_record p)|assumption];
    [simpl; tauto|now split|assumption].
Qed.

(** A speculative rule returns; when it reports failure the state is
    the one it started from. *)
Lemma restorer_spec {A} (f : M A) (Q : state -> Prop) p s :
  triple (ge p) f (fun _ => Q) (ge p) -> ge p s ->
  match parser_restorer f s with
  | Ok true s' => Q s'
  | Ok false s' => s' = s
  | _ => False
  end.
Proof.
  intros Hf Hs. unfold parser_restorer. specialize (Hf s Hs).
  destruct (f s) as [a s'| s' |]; auto. now destruct s.
Qed.

Lemma total_restorer {A} (f : M A) : mono f -> total (parser_restorer f).
Proof.
  intros Hf p s Hs.
  pose proof (restorer_spec f (ge p) p s (Hf p) Hs) as H.
  destruct (parser_restorer f s) as [[|] s'| s' |]; auto.
  now subst.
Qed.

(** *** Loops *)

Lemma mono_while {L} (cond : L -> state -> bool) (body : L -> M (flow L))
    (E : state -> Prop) p l0 :
  (forall l q, p <= q ->
     triple (fun s => ge q s /\ _pos s = q /\ cond l s = true) (body l)
       (fun fl s' => match fl with
                     | Continue _ => ge (S q) s'
                     | Break _ => ge p s'
                     end)
       E) ->
  triple (ge p) (while_ fuel cond body l0) (fun _ => ge p) E.
Proof.
  intros Hbody s Hs.
  apply (triple_while (length text) (fun _ => ge p) (fun _ => ge p) E
           cond body); try assumption.
  - intros _ s0 H0. apply H0.
  - auto.
  - intros l1 s1 H1 Hc.
    assert (Hq : p <= _pos s1) by apply H1.
    specialize (Hbody l1 (_pos s1) Hq s1).
    destruct (body l1 s1) as [[l'|l'] s'| s' |]; try (apply Hbody; auto).
    + split.
      * eapply ge_weaken; [apply Hbody; repeat split; auto; apply H1|lia].
      * apply Hbody; repeat split; auto; apply H1.
    + repeat split; auto; apply H1.
    + repeat split; auto; apply H1.
    + repeat split; auto; apply H1.
  - lia.
Qed.

(** *** The primitives *)

Lemma mono_skip_match p b : mono (ParserBase._skip_match text p b).
Proof.
  intros q s Hs. rewrite skip_match_exact by apply Hs.
  destruct (ParserBase._match_single text p b s) eqn:Hm; [|assumption].
  eapply ge_weaken; [apply ge_advance; [eassumption|]|lia].
  eapply match_single_length; eassumption.
Qed.

Lemma strict_skip_match p b :
  p <> [] -> strict (ParserBase._skip_match text p b).
Proof.
  intros Hp q s Hs. rewrite skip_match_exact by apply Hs.
  destruct (ParserBase._match_single text p b s) eqn:Hm; [|assumption].
  eapply ge_weaken; [apply ge_advance; [eassumption|]|].
  - eapply match_single_length; eassumption.
  - destruct p; [congruence|simpl; lia].
Qed.

Lemma strict_next : strict (ParserBase._next text).
Proof.
  intros q s Hs. rewrite next_rest.
  destruct (rest s) as [|c t] eqn:Hr; [assumption|].
  eapply ge_weaken; [apply ge_advance; [eassumption|]|lia].
  rewrite Hr. simpl. lia.
Qed.

Lemma total_try_skip_whitespaces ws :
  total (ParserBase._try_skip_whitespaces text ws fuel).
Proof.
  intros q s Hs. rewrite try_skip_whitespaces_exact by assumption.
  eapply ge_weaken; [apply ge_advance; [eassumption|apply run_le]|lia].
Qed.

Lemma mono_skip_whitespaces ws :
  mono (ParserBase._skip_whitespaces text ws fuel).
Proof.
  intros q s Hs. rewrite skip_whitespaces_exact by assumption.
  cbv zeta. destruct (_ =? 0); [assumption|].
  eapply ge_weaken; [apply ge_advance; [eassumption|apply run_le]|lia].
Qed.

Lemma total_parse_text f : total (ParserBase._parse_text text fuel f false).
Proof.
  intros q s Hs. rewrite parse_text_exact by assumption. simpl.
  eapply ge_weaken; [apply ge_advance; [eassumption|apply run_le]|lia].
Qed.

Lemma strict_parse_text f :
  strict (ParserBase._parse_text text fuel f true).
Proof.
  intros q s Hs. rewrite parse_text_exact by assumption. simpl.
  destruct (Nat.eqb_spec (run f (rest s)) 0) as [H0|H0]; [assumption|].
  eapply ge_weaken; [apply ge_advance; [eassumption|apply run_le]|lia].
Qed.

Create HintDb safety.
Local Hint Resolve total_mono strict_mono total_ret mono_raise
  mono_skip_match strict_next total_try_skip_whitespaces
  mono_skip_whitespaces total_parse_text strict_parse_text
  mono_bind total_bind mono_updater total_updater strict_updater
  total_handler total_restorer : safety.
Local Hint Extern 1 (In _ categories) => (simpl; tauto) : safety.
Local Hint Extern 1 (_ <> []) => discriminate : safety.

(** Split a sequence into its steps, closing each step that is a
    known rule. *)
Local Ltac steps lem :=
  repeat first [ solve [auto with safety] | apply lem; [|intros ?] ].

(** *** The grammar rules *)

Lemma strict_skip_name : strict (HTMLParser.__skip_name text fuel).
Proof. apply strict_parse_text. Qed.

Lemma mono_skip_value : mono (HTMLParser.__skip_value text fuel).
Proof.
  unfold HTMLParser.__skip_value. apply mono_if.
  - steps @mono_bind.
  - auto with safety.
Qed.

Lemma total_try_parse_doctype :
  total (HTMLParser.__try_parse_doctype text fuel).
Proof.
  unfold HTMLParser.__try_parse_doctype.
  apply total_restorer, mono_updater; [auto with safety|].
  steps @mono_bind.
Qed.

Lemma strict_parse_tag_name : strict (HTMLParser.__parse_tag_name text fuel).
Proof. apply strict_updater; [auto with safety|apply strict_skip_name]. Qed.

Lemma strict_parse_tag_param_name :
  strict (HTMLParser.__parse_tag_param_name text fuel).
Proof. apply strict_updater; [auto with safety|apply strict_skip_name]. Qed.

Lemma mono_parse_tag_param_value :
  mono (HTMLParser.__parse_tag_param_value text fuel).
Proof. apply mono_updater; [auto with safety|apply mono_skip_value]. Qed.

Local Hint Resolve strict_skip_name mono_skip_value
  total_try_parse_doctype strict_parse_tag_name
  strict_parse_tag_param_name mono_parse_tag_param_value : safety.

(** After the literal has been read nothing moves the cursor back, so
    a close tag is [strict] whenever its first step succeeds. *)
Lemma mono_close_tag_tail o :
  mono (ParserBase._try_skip_whitespaces text HTMLParser.WHITESPACES fuel ;;
        close_tag_name <- HTMLParser.__parse_tag_name text fuel ;;
        (match o with
         | Some name =>
             if negb (bool_decide (name = []))
                && negb (bool_decide (name = close_tag_name))
             then raise else ret tt
         | None => ret tt
         end) ;;
        ParserBase._try_skip_whitespaces text HTMLParser.WHITESPACES fuel ;;
        ParserBase._skip_match text (str ">") false).
Proof.
  steps @mono_bind.
  destruct o as [name|]; [|auto with safety].
  destruct (_ && _); auto with safety.
Qed.

Lemma mono_parse_close_tag o :
  mono (HTMLParser.__parse_close_tag text fuel o).
Proof.
  unfold HTMLParser.__parse_close_tag.
  apply mono_bind; [auto with safety|intros _; apply mono_close_tag_tail].
Qed.

Lemma total_try_parse_close_tag2 o :
  total (HTMLParser.__try_parse_close_tag2 text fuel o).
Proof. apply total_restorer, mono_parse_close_tag. Qed.

Lemma total_try_parse_close_tag o :
  total (HTMLParser.__try_parse_close_tag text fuel o).
Proof. apply total_handler, mono_parse_close_tag. Qed.

Lemma total_try_parse_user_text :
  total (HTMLParser.__try_parse_user_text text fuel).
Proof.
  apply total_updater; [auto with safety|].
  apply total_bind; auto with safety.
Qed.

Lemma strict_try_parse_tag_param :
  strict (HTMLParser.__try_parse_tag_param text fuel).
Proof.
  unfold HTMLParser.__try_parse_tag_param.
  apply strict_bind_l; [auto with safety|intros _].
  apply mono_bind; [auto with safety|intros _].
  apply mono_if; [|auto with safety].
  steps @mono_bind.
Qed.

Local Hint Resolve mono_parse_close_tag total_try_parse_close_tag2
  total_try_parse_close_tag total_try_parse_user_text : safety.

(** *** Loops of the grammar *)

Lemma mono_while_strict {L} (cond : L -> state -> bool)
    (body : L -> M (flow L)) l0 :
  (forall l, strict (body l)) -> mono (while_ fuel cond body l0).
Proof.
  intros Hb p. apply mono_while. intros l1 q Hq s [Hs _].
  specialize (Hb l1 q s Hs).
  destruct (body l1 s) as [[l'|l'] s'| s' |]; auto;
    (eapply ge_weaken; [eassumption|lia]).
Qed.

Lemma strict_continue {A L} (m : M A) (l : L) :
  strict m -> strict (m ;; ret (Continue l)).
Proof. intros Hm. apply strict_bind_l; auto with safety. Qed.

Lemma total_try_parse_tag_params :
  total (HTMLParser.__try_parse_tag_params text fuel).
Proof.
  apply total_handler, mono_bind; [auto with safety|intros _].
  apply mono_while_strict. intros _.
  apply strict_bind_l; [apply strict_try_parse_tag_param|intros _].
  auto with safety.
Qed.

Local Hint Resolve total_try_parse_tag_params : safety.

(** The rule inside the comment wrappers. *)
Lemma strict_comment_body :
  strict
    (ParserBase._skip_match text (str "<!--") false ;;
     ParserBase._try_skip_whitespaces text HTMLParser.WHITESPACES fuel ;;
     while_ fuel
       (fun _ s => negb (ParserBase._match text [str "-->"] false s))
       (fun _ => ParserBase._next text ;; ret (Continue tt)) tt ;;
     ParserBase._try_skip_whitespaces text HTMLParser.WHITESPACES fuel ;;
     ParserBase._skip_match text (str "-->") false).
Proof.
  apply strict_bind_l; [apply strict_skip_match; discriminate|intros _].
  apply mono_bind; [auto with safety|intros _].
  apply mono_bind; [|intros _; steps @mono_bind].
  apply mono_while_strict. intros _. apply strict_continue, strict_next.
Qed.

Lemma total_try_parse_comment :
  total (HTMLParser.__try_parse_comment text fuel).
Proof.
  apply total_restorer, mono_updater; [auto with safety|].
  apply strict_mono, strict_comment_body.
Qed.

(** The rule inside the wrapper of the self-closing tag. *)
Lemma strict_open_and_close_body :
  strict
    (ParserBase._skip_match text (str "<") false ;;
     ParserBase._try_skip_whitespaces text HTMLParser.WHITESPACES fuel ;;
     name <- HTMLParser.__parse_tag_name text fuel ;;
     ParserBase._try_skip_whitespaces text HTMLParser.WHITESPACES fuel ;;
     HTMLParser.__try_parse_tag_params text fuel ;;
     ParserBase._skip_match text (str "/>") false).
Proof.
  apply strict_bind_l; [apply strict_skip_match; discriminate|intros _].
  steps @mono_bind.
Qed.

Lemma total_try_parse_open_and_close_tag :
  total (HTMLParser.__try_parse_open_and_close_tag text fuel).
Proof. apply total_restorer, strict_mono, strict_open_and_close_body. Qed.

(** What follows the [<] of an open tag. *)
Lemma mono_open_tag_tail :
  mono
    (ParserBase._try_skip_whitespaces text HTMLParser.WHITESPACES fuel ;;
     name <- HTMLParser.__parse_tag_name text fuel ;;
     ParserBase._try_skip_whitespaces text HTMLParser.WHITESPACES fuel ;;
     HTMLParser.__try_parse_tag_params text fuel ;;
     ParserBase._skip_match text (str ">") false ;;
     ret name).
Proof. steps @mono_bind. Qed.

Lemma total_try_parse_open_tag :
  total (HTMLParser.__try_parse_open_tag text fuel).
Proof.
  apply total_handler, mono_bind; [auto with safety|intros _].
  apply mono_open_tag_tail.
Qed.

Local Hint Resolve total_try_parse_comment
  total_try_parse_open_and_close_tag total_try_parse_open_tag : safety.

(** *** Raw content *)

Lemma run_then_run (f g : ascii -> bool) (t : list ascii) :
  t <> [] -> (forall c, f c = false -> g c = true) ->
  1 <= run f t + run g (drop (run f t) t).
Proof.
  destruct t as [|c t]; [congruence|]. intros _ H. simpl.
  destruct (f c) eqn:Hf; [lia|]. simpl. rewrite (H c Hf). lia.
Qed.

Lemma end_filter_lt c :
  ParserBase._end_filter (str "<") c = false ->
  bool_decide (c = "<"%char) = true.
Proof.
  unfold ParserBase._end_filter, char_in. intros H.
  apply negb_false_iff, bool_decide_eq_true in H.
  apply bool_decide_eq_true. now apply list_elem_of_singleton in H.
Qed.

(** One turn of the raw-content loop ends the loop, or has read at
    least one character. *)
Lemma raw_content_turn_progress name q :
  triple (fun s => ge q s /\ _pos s = q
                   /\ negb (ParserBase._is_end text s) = true)
    (HTMLParser.raw_content_turn text fuel name)
    (fun fl s' => match fl with
                  | Continue _ => ge (S q) s'
                  | Break _ => ge q s'
                  end)
    (fun _ => False).
Proof.
  intros s (Hs & Hpos & Hc). unfold HTMLParser.raw_content_turn.
  unfold bind at 1. rewrite parse_text_exact by assumption.
  cbv zeta. cbn [andb].
  set (k := run (ParserBase._end_filter (str "<")) (rest s)).
  assert (H1 : ge (q + k) (advance k s)).
  { apply ge_advance; [assumption|apply run_le]. }
  unfold bind at 1. unfold bind at 1.
  pose proof (restorer_spec
                (HTMLParser.__parse_close_tag text fuel (Some (str name)))
                (ge (_pos (advance k s))) _ _
                (mono_parse_close_tag _ _) (ge_self _ (proj1 H1))) as Hr.
  unfold HTMLParser.__try_parse_close_tag2.
  destruct (parser_restorer _ (advance k s)) as [[|] s2| s2 |];
    try contradiction.
  - (* the lookahead found the close tag: the cursor goes back *)
    cbn. destruct Hr as [[Hl Hf] Hp], H1 as [[Hl1 _] Hq1].
    repeat split; simpl in *; try assumption; lia.
  - (* no close tag here: the run of [<] is content *)
    subst s2. erewrite bind_ok by (now apply lt_run_exact).
    cbn [ret].
    set (k2 := run _ (rest (advance k s))).
    eapply ge_weaken;
      [apply (ge_advance (q + k) k2 _ H1); apply run_le|].
    assert (Hne : rest s <> []).
    { rewrite is_end_rest in Hc. now destruct (rest s). }
    pose proof (run_then_run _ _ _ Hne end_filter_lt) as Hrun.
    fold k in Hrun. subst k2. rewrite rest_advance.
    simpl. lia.
Qed.

Lemma total_raw_content name :
  total (HTMLParser.raw_content text fuel name).
Proof.
  intros p. apply mono_while. intros [] q Hq.
  eapply triple_conseq; [apply (raw_content_turn_progress name q)| | |];
    auto.
  intros [[]|[]] s; auto. intros H. eapply ge_weaken; eauto.
Qed.

Lemma total_parse_script : total (HTMLParser.__parse_script text fuel).
Proof. apply total_updater; [auto with safety|apply total_raw_content]. Qed.

Lemma total_parse_style : total (HTMLParser.__parse_style text fuel).
Proof. apply total_updater; [auto with safety|apply total_raw_content]. Qed.

Local Hint Resolve total_parse_script total_parse_style : safety.

(** *** Tag blocks *)

(** A tolerant rule ends at [q] or later as soon as the wrapped rule
    does, whether that one returns or raises. *)
Lemma handler_ge {A} (f : M A) q s :
  inv s -> _pos s <= q ->
  match f s with
  | Ok _ s' | Raise s' => ge q s'
  | OutOfFuel => False
  end ->
  match parser_error_handler f s with
  | Ok _ s' => ge q s'
  | _ => False
  end.
Proof.
  intros Hi Hq H. unfold parser_error_handler.
  destruct (f s) as [a s'| s' |]; auto.
  destruct H as [[Hl Hf] Hp]. repeat split; simpl; try assumption.
  apply Forall_app. split; [assumption|]. constructor; [|constructor].
  unfold span_ok; simpl. repeat split; try lia. tauto.
Qed.

Lemma match_lt s :
  ParserBase._char text s = Some "<"%char ->
  ParserBase._match_single text (str "<") false s = true.
Proof.
  rewrite match_single_rest, char_rest.
  destruct (rest s) as [|c t]; [discriminate|].
  simpl. intros [= ->]. reflexivity.
Qed.

(** What follows the test of the tag name in [__parse_tag_block]. *)
Lemma total_raw_element (tag_name : option (list ascii)) :
  total
    (if bool_decide (tag_name ∈ [Some (str "script"); Some (str "style")])
     then
       (if bool_decide (tag_name = Some (str "script"))
        then HTMLParser.__parse_script text fuel
        else HTMLParser.__parse_style text fuel) ;;
       HTMLParser.__try_parse_close_tag text fuel tag_name ;;
       ret tt
     else ret tt).
Proof.
  destruct (bool_decide (tag_name ∈ _)); [|auto with safety].
  apply total_bind; [destruct (bool_decide _); auto with safety|intros _].
  apply total_bind; auto with safety.
Qed.

Lemma total_parse_tag_block :
  total (HTMLParser.__parse_tag_block text fuel).
Proof.
  apply total_handler, mono_if.
  - apply mono_bind; auto with safety.
  - apply mono_bind; [auto with safety|intros [|]]; [auto with safety|].
    apply mono_bind; [auto with safety|intros tag_name].
    apply total_mono, total_raw_element.
Qed.

(** A tolerant close tag at [</] consumes the [</] at least. *)
Lemma close_tag_progress o s :
  inv s ->
  ParserBase._match_single text (str "</") false s = true ->
  match HTMLParser.__try_parse_close_tag text fuel o s with
  | Ok _ s' => ge (S (_pos s)) s'
  | _ => False
  end.
Proof.
  intros Hi Hm. apply handler_ge; [assumption|lia|].
  unfold HTMLParser.__parse_close_tag. unfold bind at 1.
  rewrite skip_match_exact, Hm by apply Hi.
  apply (mono_close_tag_tail o (S (_pos s))).
  eapply ge_weaken; [apply (ge_advance _ 2 _ (ge_self s Hi))|lia].
  now apply match_single_length in Hm.
Qed.

(** A tolerant open tag at [<] consumes the [<] at least. *)
Lemma open_tag_progress s :
  inv s ->
  ParserBase._char text s = Some "<"%char ->
  match HTMLParser.__try_parse_open_tag text fuel s with
  | Ok _ s' => ge (S (_pos s)) s'
  | _ => False
  end.
Proof.
  intros Hi Hc. apply handler_ge; [assumption|lia|].
  pose proof (match_lt s Hc) as Hm.
  unfold bind at 1. rewrite skip_match_exact, Hm by apply Hi.
  apply (mono_open_tag_tail (S (_pos s))).
  eapply ge_weaken; [apply (ge_advance _ 1 _ (ge_self s Hi))|lia].
  now apply match_single_length in Hm.
Qed.

(** A tag block at [<] moves the cursor. *)
Lemma tag_block_progress s :
  inv s ->
  ParserBase._char text s = Some "<"%char ->
  match HTMLParser.__parse_tag_block text fuel s with
  | Ok _ s' => ge (S (_pos s)) s'
  | _ => False
  end.
Proof.
  intros Hi Hc. apply handler_ge; [assumption|lia|].
  destruct (ParserBase._match text [str "</"] false s) eqn:Hm.
  - rewrite match_one in Hm. unfold bind.
    pose proof (close_tag_progress None s Hi Hm) as H.
    destruct (HTMLParser.__try_parse_close_tag text fuel None s);
      try contradiction.
    exact H.
  - unfold bind at 1.
    pose proof (restorer_spec _ (ge (S (_pos s))) _ s
                  (strict_open_and_close_body (_pos s)) (ge_self s Hi))
      as Hr.
    unfold HTMLParser.__try_parse_open_and_close_tag.
    destruct (parser_restorer _ s) as [[|] s1| s1 |]; try contradiction.
    + exact Hr.
    + subst s1. unfold bind at 1.
      pose proof (open_tag_progress s Hi Hc) as Ho.
      destruct (HTMLParser.__try_parse_open_tag text fuel s)
        as [tag_name s2| s2 |]; try contradiction.
      pose proof (total_raw_element tag_name _ s2 Ho) as Ht.
      destruct (bool_decide (tag_name ∈ _)); [|exact Ho].
      match goal with
      | |- match ?m with _ => _ end => destruct m; try contradiction
      end.
      exact Ht.
Qed.

(** *** The document *)

(** One turn of the tag-block loop has read at least the [<] it
    started at. *)
Lemma tag_blocks_turn_progress q :
  triple (fun s => ge q s /\ _pos s = q
                   /\ negb (ParserBase._is_end text s)
                      && bool_decide
                           (ParserBase._char text s = Some "<"%char)
                      = true)
    (HTMLParser.tag_blocks_turn text fuel)
    (fun _ s' => ge (S q) s')
    (fun _ => False).
Proof.
  intros s (Hs & Hpos & Hc). unfold HTMLParser.tag_blocks_turn.
  apply andb_true_iff in Hc. destruct Hc as [_ Hc].
  apply bool_decide_eq_true in Hc.
  assert (Hi : inv s) by apply Hs.
  unfold bind at 1.
  pose proof (restorer_spec _ (ge (S (_pos s))) _ s
                (strict_updater "comment" _ ltac:(simpl; tauto)
                   strict_comment_body (_pos s))
                (ge_self s Hi)) as Hr.
  unfold HTMLParser.__try_parse_comment.
  destruct (parser_restorer _ s) as [[|] s1| s1 |]; try contradiction.
  - (* a comment was read *)
    assert (Hrest : total
              (HTMLParser.__parse_tag_block text fuel ;;
               ParserBase._try_skip_whitespaces text
                 HTMLParser.WHITESPACES fuel ;;
               HTMLParser.__try_parse_user_text text fuel ;;
               ret (Continue tt))).
    { steps @total_bind. apply total_parse_tag_block. }
    specialize (Hrest _ s1 Hr).
    match goal with
    | |- match ?m with _ => _ end => destruct m as [fl s2| |]
    end; try contradiction; subst q; auto.
  - (* no comment: the tag block is read at the [<] *)
    subst s1. unfold bind at 1.
    pose proof (tag_block_progress s Hi Hc) as Hb.
    destruct (HTMLParser.__parse_tag_block text fuel s) as [o s2| |];
      try contradiction.
    assert (Hrest : total
              (ParserBase._try_skip_whitespaces text
                 HTMLParser.WHITESPACES fuel ;;
               HTMLParser.__try_parse_user_text text fuel ;;
               ret (Continue tt))).
    { steps @total_bind. }
    specialize (Hrest _ s2 Hb).
    match goal with
    | |- match ?m with _ => _ end => destruct m as [fl s3| |]
    end; try contradiction; subst q; auto.
Qed.

Lemma total_try_parse_tag_blocks :
  total (HTMLParser.__try_parse_tag_blocks text fuel).
Proof.
  intros p. apply mono_while. intros [] q Hq.
  eapply triple_conseq; [apply (tag_blocks_turn_progress q)| | |]; auto.
  intros [[]|[]] s H; auto. eapply ge_weaken; [eassumption|lia].
Qed.

Lemma total_new s :
  _pos s <= length text ->
  match HTMLParser._parse text fuel s with
  | Ok _ s' => inv s'
  | _ => False
  end.
Proof.
  intros Hs. unfold HTMLParser._parse.
  assert (H0 : ge (_pos s) (mkState (_pos s) [])).
  { repeat split; simpl; [assumption|constructor|lia]. }
  assert (Ht : total
            (ParserBase._try_skip_whitespaces text
               HTMLParser.WHITESPACES fuel ;;
             HTMLParser.__try_parse_doctype text fuel ;;
             ParserBase._try_skip_whitespaces text
               HTMLParser.WHITESPACES fuel ;;
             HTMLParser.__try_parse_user_text text fuel ;;
             HTMLParser.__try_parse_tag_blocks text fuel)).
  { steps @total_bind. apply total_try_parse_tag_blocks. }
  specialize (Ht _ _ H0).
  match goal with
  | |- match ?m with _ => _ end => destruct m
  end; try contradiction.
  apply Ht.
Qed.

End Safety.

(** ** More loop turns never change a result *)

(** A rule whose result, once it has one, is the same for every larger
    bound on the loop turns. *)
Definition fuel_mono {A} (m : nat -> M A) : Prop :=
  forall n n' s, n <= n' -> m n s <> OutOfFuel -> m n' s = m n s.

Lemma fuel_mono_const {A} (m : M A) : fuel_mono (fun _ => m).
Proof. intros n n' s _ _. reflexivity. Qed.

Lemma fuel_mono_bind {A B} (m : nat -> M A) (k : A -> nat -> M B) :
  fuel_mono m -> (forall a, fuel_mono (k a)) ->
  fuel_mono (fun n => bind (m n) (fun a => k a n)).
Proof.
  intros Hm Hk n n' s Hn H. unfold bind in *.
  destruct (m n s) as [a s'| s' |] eqn:E; [| |congruence].
  - rewrite (Hm n n' s Hn) by congruence. rewrite E. now apply Hk.
  - rewrite (Hm n n' s Hn) by congruence. now rewrite E.
Qed.

Lemma fuel_mono_if {A} (c : state -> bool) (m1 m2 : nat -> M A) :
  fuel_mono m1 -> fuel_mono m2 ->
  fuel_mono (fun n s => if c s then m1 n s else m2 n s).
Proof.
  intros H1 H2 n n' s Hn H. destruct (c s); [now apply H1|now apply H2].
Qed.

Lemma fuel_mono_updater {A} t (f : nat -> M A) :
  fuel_mono f -> fuel_mono (fun n => parser_result_updater t (f n)).
Proof.
  intros Hf n n' s Hn H. unfold parser_result_updater in *.
  destruct (f n s) eqn:E; [| |congruence];
    rewrite (Hf n n' s Hn) by congruence; now rewrite E.
Qed.

Lemma fuel_mono_handler {A} (f : nat -> M A) :
  fuel_mono f -> fuel_mono (fun n => parser_error_handler (f n)).
Proof.
  intros Hf n n' s Hn H. unfold parser_error_handler in *.
  destruct (f n s) eqn:E; [| |congruence];
    rewrite (Hf n n' s Hn) by congruence; now rewrite E.
Qed.

Lemma fuel_mono_restorer {A} (f : nat -> M A) :
  fuel_mono f -> fuel_mono (fun n => parser_restorer (f n)).
Proof.
  intros Hf n n' s Hn H. unfold parser_restorer in *.
  destruct (f n s) eqn:E; [| |congruence];
    rewrite (Hf n n' s Hn) by congruence; now rewrite E.
Qed.

Lemma while_more_fuel {L} (cond : L -> state -> bool)
    (body : L -> nat -> M (flow L)) :
  (forall l, fuel_mono (body l)) ->
  forall k k' n n' l s, k <= k' -> n <= n' ->
    while_ k cond (fun l => body l n) l s <> OutOfFuel ->
    while_ k' cond (fun l => body l n') l s
    = while_ k cond (fun l => body l n) l s.
Proof.
  intros Hb k. induction k as [|k IH]; intros k' n n' l0 s Hk Hn H.
  - now contradiction H.
  - destruct k' as [|k']; [lia|]. simpl in *.
    destruct (cond l0 s); [|reflexivity].
    destruct (body l0 n s) as [[l'|l'] s'| s' |] eqn:E; [| | |congruence];
      rewrite (Hb l0 n n' s Hn) by congruence; rewrite E;
      [|reflexivity|reflexivity].
    apply IH; [lia|assumption|assumption].
Qed.

Lemma fuel_mono_while {L} (cond : L -> state -> bool)
    (body : L -> nat -> M (flow L)) l :
  (forall l, fuel_mono (body l)) ->
  fuel_mono (fun n => while_ n cond (fun l => body l n) l).
Proof.
  intros Hb n n' s Hn H. now apply while_more_fuel.
Qed.

Section FuelMono.
Variable text : list ascii.

Create HintDb fuel.
Local Hint Resolve fuel_mono_const fuel_mono_updater fuel_mono_handler
  fuel_mono_restorer : fuel.

Local Ltac fm :=
  repeat first
    [ solve [auto with fuel]
    | apply @fuel_mono_const
    | apply @fuel_mono_while; intros ?
    | apply @fuel_mono_bind; [|intros ?]
    | apply @fuel_mono_if ].

Lemma fuel_mono_try_skip_whitespaces ws :
  fuel_mono (ParserBase._try_skip_whitespaces text ws).
Proof.
  unfold ParserBase._try_skip_whitespaces.
  apply (fuel_mono_while _ (fun _ _ => _)). intros ?.
  apply fuel_mono_const.
Qed.

Lemma fuel_mono_skip_whitespaces ws :
  fuel_mono (ParserBase._skip_whitespaces text ws).
Proof.
  unfold ParserBase._skip_whitespaces.
  apply (fuel_mono_if _ (fun _ => _)
           (ParserBase._try_skip_whitespaces text ws)).
  - apply fuel_mono_const.
  - apply fuel_mono_try_skip_whitespaces.
Qed.

Lemma fuel_mono_parse_text f min_one :
  fuel_mono (fun n => ParserBase._parse_text text n f min_one).
Proof.
  unfold ParserBase._parse_text.
  apply (fuel_mono_bind (fun _ => _) (fun result n => while_ n _ _ result)).
  - apply fuel_mono_const.
  - intros result. apply (fuel_mono_while _ (fun _ _ => _)). intros ?.
    apply fuel_mono_const.
Qed.

Local Hint Resolve fuel_mono_try_skip_whitespaces
  fuel_mono_skip_whitespaces fuel_mono_parse_text : fuel.

Lemma fuel_mono_skip_name : fuel_mono (HTMLParser.__skip_name text).
Proof. apply fuel_mono_parse_text. Qed.

Lemma fuel_mono_skip_value : fuel_mono (HTMLParser.__skip_value text).
Proof. unfold HTMLParser.__skip_value. fm. Qed.

Lemma fuel_mono_try_parse_doctype :
  fuel_mono (HTMLParser.__try_parse_doctype text).
Proof.
  unfold HTMLParser.__try_parse_doctype.
  apply @fuel_mono_restorer, @fuel_mono_updater. fm.
Qed.

Lemma fuel_mono_parse_tag_name :
  fuel_mono (HTMLParser.__parse_tag_name text).
Proof. apply @fuel_mono_updater, fuel_mono_skip_name. Qed.

Lemma fuel_mono_parse_tag_param_name :
  fuel_mono (HTMLParser.__parse_tag_param_name text).
Proof. apply @fuel_mono_updater, fuel_mono_skip_name. Qed.

Lemma fuel_mono_parse_tag_param_value :
  fuel_mono (HTMLParser.__parse_tag_param_value text).
Proof. apply @fuel_mono_updater, fuel_mono_skip_value. Qed.

Local Hint Resolve fuel_mono_skip_name fuel_mono_skip_value
  fuel_mono_try_parse_doctype fuel_mono_parse_tag_name
  fuel_mono_parse_tag_param_name fuel_mono_parse_tag_param_value : fuel.

Lemma fuel_mono_parse_close_tag o :
  fuel_mono (fun n => HTMLParser.__parse_close_tag text n o).
Proof. unfold HTMLParser.__parse_close_tag. fm. Qed.

Lemma fuel_mono_try_parse_close_tag2 o :
  fuel_mono (fun n => HTMLParser.__try_parse_close_tag2 text n o).
Proof. apply @fuel_mono_restorer, fuel_mono_parse_close_tag. Qed.

Lemma fuel_mono_try_parse_close_tag o :
  fuel_mono (fun n => HTMLParser.__try_parse_close_tag text n o).
Proof. apply @fuel_mono_handler, fuel_mono_parse_close_tag. Qed.

Local Hint Resolve fuel_mono_parse_close_tag
  fuel_mono_try_parse_close_tag2 fuel_mono_try_parse_close_tag : fuel.

Lemma fuel_mono_raw_content name :
  fuel_mono (fun n => HTMLParser.raw_content text n name).
Proof.
  unfold HTMLParser.raw_content.
  apply (fuel_mono_while _ (fun _ n => _)). intros ?.
  unfold HTMLParser.raw_content_turn.
  apply @fuel_mono_bind; [fm|intros ?].
  apply @fuel_mono_bind; [fm|intros lpos].
  apply @fuel_mono_bind; [fm|intros [|]]; fm.
Qed.

Lemma fuel_mono_parse_script : fuel_mono (HTMLParser.__parse_script text).
Proof. apply @fuel_mono_updater, fuel_mono_raw_content. Qed.

Lemma fuel_mono_parse_style : fuel_mono (HTMLParser.__parse_style text).
Proof. apply @fuel_mono_updater, fuel_mono_raw_content. Qed.

Lemma fuel_mono_try_parse_comment :
  fuel_mono (HTMLParser.__try_parse_comment text).
Proof.
  unfold HTMLParser.__try_parse_comment.
  apply @fuel_mono_restorer, @fuel_mono_updater. fm.
Qed.

Lemma fuel_mono_try_parse_user_text :
  fuel_mono (HTMLParser.__try_parse_user_text text).
Proof.
  unfold HTMLParser.__try_parse_user_text.
  apply @fuel_mono_updater. fm.
Qed.

Lemma fuel_mono_try_parse_tag_param :
  fuel_mono (HTMLParser.__try_parse_tag_param text).
Proof. unfold HTMLParser.__try_parse_tag_param. fm. Qed.

Local Hint Resolve fuel_mono_parse_script fuel_mono_parse_style
  fuel_mono_try_parse_comment fuel_mono_try_parse_user_text
  fuel_mono_try_parse_tag_param : fuel.

Lemma fuel_mono_try_parse_tag_params :
  fuel_mono (HTMLParser.__try_parse_tag_params text).
Proof.
  unfold HTMLParser.__try_parse_tag_params.
  apply @fuel_mono_handler. fm.
Qed.

Local Hint Resolve fuel_mono_try_parse_tag_params : fuel.

Lemma fuel_mono_try_parse_open_and_close_tag :
  fuel_mono (HTMLParser.__try_parse_open_and_close_tag text).
Proof.
  unfold HTMLParser.__try_parse_open_and_close_tag.
  apply @fuel_mono_restorer. fm.
Qed.

Lemma fuel_mono_try_parse_open_tag :
  fuel_mono (HTMLParser.__try_parse_open_tag text).
Proof.
  unfold HTMLParser.__try_parse_open_tag.
  apply @fuel_mono_handler. fm.
Qed.

Local Hint Resolve fuel_mono_try_parse_open_and_close_tag
  fuel_mono_try_parse_open_tag : fuel.

Lemma fuel_mono_parse_tag_block :
  fuel_mono (HTMLParser.__parse_tag_block text).
Proof.
  unfold HTMLParser.__parse_tag_block.
  apply @fuel_mono_handler. apply @fuel_mono_if; [fm|].
  apply @fuel_mono_bind; [fm|intros [|]]; [fm|].
  apply @fuel_mono_bind; [fm|intros tag_name].
  destruct (bool_decide (tag_name ∈ _)); [|fm].
  apply @fuel_mono_bind; [destruct (bool_decide _); fm|intros ?]. fm.
Qed.

Local Hint Resolve fuel_mono_parse_tag_block : fuel.

Lemma fuel_mono_try_parse_tag_blocks :
  fuel_mono (HTMLParser.__try_parse_tag_blocks text).
Proof.
  unfold HTMLParser.__try_parse_tag_blocks.
  apply (fuel_mono_while _ (fun _ n => _)). intros ?.
  unfold HTMLParser.tag_blocks_turn. fm.
Qed.

Local Hint Resolve fuel_mono_try_parse_tag_blocks : fuel.

Lemma fuel_mono_parse : fuel_mono (HTMLParser._parse text).
Proof.
  intros n n' s Hn H. unfold HTMLParser._parse in *.
  revert H. generalize (mkState (_pos s) []). intros s0 H.
  revert n n' s0 Hn H.
  change (fuel_mono (fun n =>
    ParserBase._try_skip_whitespaces text HTMLParser.WHITESPACES n ;;
    HTMLParser.__try_parse_doctype text n ;;
    ParserBase._try_skip_whitespaces text HTMLParser.WHITESPACES n ;;
    HTMLParser.__try_parse_user_text text n ;;
    HTMLParser.__try_parse_tag_blocks text n)).
  fm.
Qed.

End FuelMono.

(** ** The parser as a whole *)

Lemma new_ok (html_text : list ascii) :
  exists s, HTMLParser.new html_text = Ok tt s /\ inv html_text s.
Proof.
  unfold HTMLParser.new.
  pose proof (total_new html_text (S (length html_text)) (Nat.lt_succ_diag_r _)
                (mkState 0 []) (Nat.le_0_l _)) as H.
  destruct (HTMLParser._parse _ _ _) as [[] s| |]; try contradiction.
  now exists s.
Qed.

(** C3: for every input string, constructing the parser runs the document
    rule over the whole buffer and returns normally with the accumulated
    span list; no [ParserError] leaves the top level. *)
Theorem full_parse_completes (html_text : list ascii) :
  exists s,
    HTMLParser.new html_text = Ok tt s
    /\ HTMLParser.result html_text = Some (_result s).
Proof.
  destruct (new_ok html_text) as (s & Hs & _).
  exists s. split; [assumption|].
  unfold HTMLParser.result. now rewrite Hs.
Qed.

(** C4: a full-buffer parse of any finite input terminates.  Every turn
    of the tag-block loop moves the cursor strictly forward; every turn
    of the script/style raw-content loop either leaves the loop or moves
    the cursor strictly forward; the character loops advance by [_next],
    which moves the cursor by one or raises; so every loop bound above
    the length of the text lets the parse end, with one and the same
    result. *)
Theorem full_parse_terminates (html_text : list ascii) (fuel : nat) :
  length html_text < fuel ->
  (forall s,
     inv html_text s ->
     negb (ParserBase._is_end html_text s)
     && bool_decide (ParserBase._char html_text s = Some "<"%char) = true ->
     exists fl s',
       HTMLParser.tag_blocks_turn html_text fuel s = Ok fl s'
       /\ _pos s < _pos s' <= length html_text)
  /\ (forall name s,
        inv html_text s ->
        negb (ParserBase._is_end html_text s) = true ->
        exists fl s',
          HTMLParser.raw_content_turn html_text fuel name s = Ok fl s'
          /\ (fl = Break tt \/ _pos s < _pos s')
          /\ _pos s' <= length html_text)
  /\ (forall s,
        match ParserBase._next html_text s with
        | Ok _ s' => _pos s' = S (_pos s)
        | Raise s' => s' = s
        | OutOfFuel => False
        end)
  /\ exists s,
       HTMLParser._parse html_text fuel (mkState 0 []) = Ok tt s
       /\ HTMLParser.new html_text = Ok tt s.
Proof.
  intros Hfuel. repeat split.
  - intros s Hi Hc.
    pose proof (tag_blocks_turn_progress html_text fuel Hfuel (_pos s) s
                  ltac:(destruct Hi; repeat split; auto)) as H.
    destruct (HTMLParser.tag_blocks_turn html_text fuel s) as [fl s'| |];
      try contradiction.
    exists fl, s'. split; [reflexivity|].
    destruct H as [[Hl _] Hp]. lia.
  - intros name s Hi Hc.
    pose proof (raw_content_turn_progress html_text fuel Hfuel name (_pos s) s
                  ltac:(destruct Hi; repeat split; auto)) as H.
    destruct (HTMLParser.raw_content_turn html_text fuel name s)
      as [fl s'| |]; try contradiction.
    exists fl, s'. split; [reflexivity|].
    destruct fl as [[]|[]]; destruct H as [[Hl _] Hp]; split; auto; lia.
  - intros s. rewrite next_rest. destruct (drop (_pos s) html_text); simpl;
      [reflexivity|lia].
  - destruct (new_ok html_text) as (s & Hs & _). exists s.
    split; [|assumption].
    unfold HTMLParser.new in Hs.
    rewrite (fuel_mono_parse html_text (S (length html_text)) fuel
               (mkState 0 [])); [assumption|lia|congruence].
Qed.

Lemma full_parse_terminates_witness :
  length (str "<div><span>oops") < 99
  /\ exists s,
       HTMLParser._parse (str "<div><span>oops") 99 (mkState 0 []) = Ok tt s
       /\ HTMLParser.new (str "<div><span>oops") = Ok tt s.
Proof.
  split; [vm_compute; lia|].
  apply (full_parse_terminates (str "<div><span>oops") 99).
  vm_compute; lia.
Defined.

(** C6: every span in the result list of a full parse of any text has
    [0 <= start <= end <= length(text)] and a category from the closed
    set of nine; the cursor reset inside the script/style rules does not
    break this. *)
Theorem result_spans_well_formed (html_text : list ascii) :
  exists spans,
    HTMLParser.result html_text = Some spans
    /\ Forall (span_ok html_text) spans.
Proof.
  destruct (new_ok html_text) as (s & Hs & _ & Hf).
  exists (_result s). split; [|assumption].
  unfold HTMLParser.result. now rewrite Hs.
Qed.

(** ** The doctype rule at its call site *)

Section Doctype.
Variable text : list ascii.
Variable fuel : nat.
Hypothesis Hfuel : length text < fuel.

(** A rule that, when it returns, has only moved the cursor, by [lo]
    characters at least, and has left the span list alone. *)
Definition moves {A} (lo : nat) (m : M A) : Prop :=
  forall s, _pos s <= length text ->
    match m s with
    | Ok _ s' =>
        exists k, lo <= k /\ s' = advance k s /\ _pos s + k <= length text
    | Raise _ => True
    | OutOfFuel => False
    end.

Lemma moves_bind {A B} lo1 lo2 (m : M A) (k : A -> M B) :
  moves lo1 m -> (forall a, moves lo2 (k a)) ->
  moves (lo1 + lo2) (bind m k).
Proof.
  intros Hm Hk s Hs. unfold bind. specialize (Hm s Hs).
  destruct (m s) as [a s1| s1 |]; auto.
  destruct Hm as (k1 & Hk1 & -> & Hb1).
  specialize (Hk a (advance k1 s) Hb1).
  destruct (k a (advance k1 s)) as [b s2| s2 |]; auto.
  destruct Hk as (k2 & Hk2 & -> & Hb2). exists (k1 + k2).
  repeat split; [lia| |simpl in *; lia].
  unfold advance; simpl. f_equal. lia.
Qed.

Lemma moves_skip_match p b :
  moves (length p) (ParserBase._skip_match text p b).
Proof.
  intros s Hs. rewrite skip_match_exact by assumption.
  destruct (ParserBase._match_single text p b s) eqn:Hm; [|exact I].
  exists (length p). repeat split; [lia|].
  apply match_single_length in Hm. rewrite length_drop in Hm. lia.
Qed.

Lemma moves_skip_whitespaces ws :
  moves 1 (ParserBase._skip_whitespaces text ws fuel).
Proof.
  intros s Hs. rewrite skip_whitespaces_exact by assumption. cbv zeta.
  destruct (Nat.eqb_spec (run (fun c => char_in c ws) (drop (_pos s) text)) 0)
    as [H0|H0]; [exact I|].
  eexists. repeat split; [lia|].
  pose proof (run_le (fun c => char_in c ws) (drop (_pos s) text)) as H.
  rewrite length_drop in H. lia.
Qed.

Lemma moves_parse_text f :
  moves 1 (ParserBase._parse_text text fuel f true).
Proof.
  intros s Hs. rewrite parse_text_exact by assumption. cbv zeta.
  cbn [andb].
  destruct (Nat.eqb_spec (run f (drop (_pos s) text)) 0)
    as [H0|H0]; [exact I|].
  eexists. repeat split; [lia|].
  pose proof (run_le f (drop (_pos s) text)) as H.
  rewrite length_drop in H. lia.
Qed.

(** The speculative doctype either records exactly one doctype span
    for what it has read, or leaves cursor and span list as they
    were. *)
Lemma try_parse_doctype_cases s :
  _pos s <= length text ->
  (exists s',
     HTMLParser.__try_parse_doctype text fuel s = Ok true s'
     /\ _pos s < _pos s' <= length text
     /\ _result s'
        = _result s ++ [mkElement (_pos s) (_pos s') "doctype"])
  \/ HTMLParser.__try_parse_doctype text fuel s = Ok false s.
Proof.
  intros Hs. unfold HTMLParser.__try_parse_doctype.
  unfold parser_restorer, parser_result_updater.
  match goal with
  | |- context [match ?body s with _ => _ end] =>
      assert (Hm : moves (length (str "<!doctype") + (1 + (1 + 1))) body)
  end.
  { apply moves_bind; [apply moves_skip_match|intros _].
    apply moves_bind; [apply moves_skip_whitespaces|intros _].
    apply moves_bind; [apply moves_parse_text|intros _].
    apply (moves_skip_match (str ">")). }
  specialize (Hm s Hs). simpl length in Hm.
  match goal with
  | |- context [match ?body s with _ => _ end] =>
      destruct (body s) as [[] s1| s1 |]
  end; try contradiction.
  - destruct Hm as (k & Hk & -> & Hb). left. simpl.
    destruct (Nat.ltb_spec (_pos s) (_pos s + k)); [|lia].
    eexists. split; [reflexivity|]. simpl. split; [lia|reflexivity].
  - right. now destruct s.
Qed.

End Doctype.

(** ** Worked inputs and the wrappers *)

(** C1 as stated fails: the unterminated input gives no error span. *)
Lemma unterminated_tags_record_no_error_span :
  ~ (exists spans,
       HTMLParser.result (str "<div><span>oops") = Some spans
       /\ In (mkElement 1 4 "tag_name") spans
       /\ In (mkElement 6 10 "tag_name") spans
       /\ exists e, In e spans /\ type e = "error"%string).
Proof.
  intros (spans & H & _ & _ & e & Hin & Ht).
  vm_compute in H. injection H as <-.
  simpl in Hin. destruct Hin as [<-|[<-|[<-|[]]]]; discriminate.
Qed.

(** C1, amended: for the unterminated input [<div><span>oops] a full
    parse yields a [tag_name] span for [div], a [tag_name] span for
    [span] and a [text] span for [oops], and no error span; it ends at
    the end of the buffer without raising. *)
Theorem unterminated_tags_parse :
  let text := str "<div><span>oops" in
  HTMLParser.new text
  = Ok tt (mkState (length text)
             [mkElement 1 4 "tag_name"; mkElement 6 10 "tag_name";
              mkElement 11 15 "text"])
  /\ slice text 1 4 = str "div"
  /\ slice text 6 10 = str "span"
  /\ slice text 11 15 = str "oops".
Proof. vm_compute. repeat split; reflexivity. Qed.

(** C2 as stated fails: the failed doctype attempt of [<!doctype html]
    leaves the span list empty, and no error span of the full parse
    covers the attempted range 0..14. *)
Lemma malformed_doctype_records_no_error_span :
  HTMLParser.__try_parse_doctype (str "<!doctype html") 15 (mkState 0 [])
  = Ok false (mkState 0 [])
  /\ ~ (exists spans e,
          HTMLParser.result (str "<!doctype html") = Some spans
          /\ In e spans /\ type e = "error"%string
          /\ l e <= 0 /\ 14 <= r e).
Proof.
  split; [vm_compute; reflexivity|].
  intros (spans & e & H & Hin & Ht & Hl & Hr).
  vm_compute in H. injection H as <-.
  simpl in Hin. destruct Hin as [<-|[<-|[]]]; simpl in *;
    [lia|discriminate].
Qed.

(** C2, amended: the doctype rule is speculative only.  At every cursor
    position of every text it either succeeds, recording exactly one
    [doctype] span over what it read, or, when the doctype is malformed,
    returns [False] with cursor and span list exactly as they were: no
    error span is recorded for the attempt. *)
Theorem doctype_is_speculative_only (text : list ascii) (fuel : nat)
    (s : state) :
  length text < fuel ->
  _pos s <= length text ->
  (exists s',
     HTMLParser.__try_parse_doctype text fuel s = Ok true s'
     /\ _pos s < _pos s' <= length text
     /\ _result s' = _result s ++ [mkElement (_pos s) (_pos s') "doctype"])
  \/ HTMLParser.__try_parse_doctype text fuel s = Ok false s.
Proof. intros Hfuel Hs. now apply try_parse_doctype_cases. Qed.

Lemma doctype_is_speculative_only_witness :
  length (str "<!doctype html") < 15
  /\ _pos (mkState 0 []) <= length (str "<!doctype html")
  /\ ((exists s',
         HTMLParser.__try_parse_doctype (str "<!doctype html") 15
           (mkState 0 []) = Ok true s'
         /\ _pos (mkState 0 []) < _pos s' <= length (str "<!doctype html")
         /\ _result s'
            = _result (mkState 0 [])
              ++ [mkElement (_pos (mkState 0 [])) (_pos s') "doctype"])
      \/ HTMLParser.__try_parse_doctype (str "<!doctype html") 15
           (mkState 0 []) = Ok false (mkState 0 [])).
Proof.
  split; [vm_compute; lia|]. split; [vm_compute; lia|].
  apply (doctype_is_speculative_only (str "<!doctype html") 15 (mkState 0 []));
    vm_compute; lia.
Defined.

(** C5: for every wrapped rule and every parser state, when the rule
    raises, the speculative wrapper returns [False] and the state is the
    one before the call, cursor and span list alike; when the rule
    returns, the wrapper returns [True] and keeps the state the rule
    left, with its spans and its cursor. *)
Theorem speculative_wrapper_restores {A} (func : M A) (s : state) :
  (forall s', func s = Raise s' ->
     exists s'',
       parser_restorer func s = Ok false s''
       /\ _pos s'' = _pos s /\ _result s'' = _result s /\ s'' = s)
  /\ (forall a s', func s = Ok a s' -> parser_restorer func s = Ok true s').
Proof.
  split.
  - intros s' H. exists (mkState (_pos s) (_result s)).
    unfold parser_restorer. rewrite H. repeat split. now destruct s.
  - intros a s' H. unfold parser_restorer. now rewrite H.
Qed.

Lemma speculative_wrapper_restores_witness :
  let text := str "<a>" in
  let s := mkState 0 [mkElement 0 0 "error"] in
  parser_restorer
    (ParserBase._skip_match text (str "<") false ;;
     HTMLParser.__parse_tag_name text 8 ;;
     HTMLParser.__try_parse_tag_params text 8 ;;
     ParserBase._skip_match text (str "/>") false) s
  = Ok false s
  /\ parser_restorer (HTMLParser.__parse_tag_name text 8) (mkState 1 [])
     = Ok true (mkState 2 [mkElement 1 2 "tag_name"]).
Proof.
  intros text s. split.
  - destruct (proj1 (speculative_wrapper_restores
                       (ParserBase._skip_match text (str "<") false ;;
                        HTMLParser.__parse_tag_name text 8 ;;
                        HTMLParser.__try_parse_tag_params text 8 ;;
                        ParserBase._skip_match text (str "/>") false) s)
                    (mkState 2 [mkElement 0 0 "error"; mkElement 1 2 "tag_name"])
                    ltac:(vm_compute; reflexivity))
      as (s'' & H & _ & _ & ->).
    exact H.
  - apply (proj2 (speculative_wrapper_restores
                    (HTMLParser.__parse_tag_name text 8) (mkState 1 []))
             (str "a")).
    vm_compute. reflexivity.
Defined.

(** C8: in [<script>if (a < b) {}</script>] the [<] inside the script
    body (offset 14) starts no tag: no [tag_name] span begins in the
    body; the body [if (a < b) {}] is covered by exactly one [script]
    span; and the trailing [</script>] is read as the matching close tag,
    up to the end of the text and without an error span. *)
Theorem script_body_is_one_span :
  let text := str "<script>if (a < b) {}</script>" in
  exists spans,
    HTMLParser.new text = Ok tt (mkState (length text) spans)
    /\ slice text 8 21 = str "if (a < b) {}"
    /\ nth_error text 14 = Some "<"%char
    /\ (forall e, In e spans -> type e = "tag_name"%string ->
          ~ (8 <= l e < 21))
    /\ filter (fun e => bool_decide (type e = "script"%string)) spans
       = [mkElement 8 21 "script"]
    /\ slice text 21 30 = str "</script>"
    /\ slice text 23 29 = str "script"
    /\ In (mkElement 23 29 "tag_name") spans
    /\ (forall e, In e spans -> type e <> "error"%string).
Proof.
  eexists. split; [vm_compute; reflexivity|].
  repeat split; try (vm_compute; reflexivity).
  - intros e Hin Ht.
    simpl in Hin. destruct Hin as [<-|[<-|[<-|[<-|[]]]]]; simpl in *;
      first [lia|discriminate].
  - simpl. tauto.
  - intros e Hin.
    simpl in Hin. destruct Hin as [<-|[<-|[<-|[<-|[]]]]]; discriminate.
Qed.


(** ** The position converter *)

Lemma find_char_lt c (t : list ascii) i :
  PositionConverter.find_char c t = Some i -> i < length t.
Proof.
  revert i. induction t as [|x t IH]; intros i; simpl; [discriminate|].
  destruct (bool_decide (x = c)).
  - intros [= <-]. lia.
  - destruct (PositionConverter.find_char c t) as [j|]; simpl;
      [|discriminate].
    intros [= <-]. specialize (IH j eq_refl). lia.
Qed.

Lemma line_lengths_from_find cur (t : list ascii) :
  line_lengths_from cur t
  = match PositionConverter.find_char HTMLParser.newline t with
    | Some i => (cur + Z.of_nat i + 1)%Z :: line_lengths (drop (S i) t)
    | None => []
    end.
Proof.
  revert cur. induction t as [|c t IH]; intros cur; simpl; [reflexivity|].
  destruct (bool_decide (c = HTMLParser.newline)).
  - simpl. f_equal. lia.
  - rewrite IH.
    destruct (PositionConverter.find_char HTMLParser.newline t) as [i|];
      simpl; [|reflexivity].
    f_equal. lia.
Qed.

Lemma init_loop_spec (text : list ascii) n :
  forall start acc,
    start <= length text -> length text - start < n ->
    PositionConverter.init_loop n text acc (Z.of_nat start - 1)%Z
    = Some (acc ++ line_lengths (drop start text)).
Proof.
  induction n as [|n IH]; intros start acc Hs Hn; [lia|].
  simpl. replace (Z.to_nat (Z.of_nat start - 1 + 1)) with start by lia.
  unfold PositionConverter.index, line_lengths.
  rewrite line_lengths_from_find.
  destruct (PositionConverter.find_char HTMLParser.newline (drop start text))
    as [i|] eqn:Hf; simpl.
  - apply find_char_lt in Hf. rewrite length_drop in Hf.
    replace (Z.of_nat (start + i)) with (Z.of_nat (S (start + i)) - 1)%Z
      at 2 by lia.
    rewrite IH by lia.
    rewrite drop_drop, <- app_assoc. simpl.
    replace (start + S i) with (S (start + i)) by lia.
    do 3 f_equal. lia.
  - now rewrite app_nil_r.
Qed.

Lemma convert_loop_spec (sizes : list Z) :
  forall line index,
  exists k,
    k <= length sizes
    /\ PositionConverter.convert_loop sizes line index
       = ((line + Z.of_nat k)%Z, (index - total_length (take k sizes))%Z)
    /\ (forall j x, j < k -> nth_error sizes j = Some x ->
          (x <= index - total_length (take j sizes))%Z)
    /\ (forall x, nth_error sizes k = Some x ->
          (index - total_length (take k sizes) < x)%Z).
Proof.
  induction sizes as [|i rest IH]; intros line index.
  - exists 0. simpl. split; [lia|]. split; [f_equal; lia|].
    split; [intros; lia|discriminate].
  - simpl. destruct (Z.leb_spec i index) as [Hle|Hgt].
    + destruct (IH (line + 1)%Z (index - i)%Z) as (k & Hk & Heq & Hlo & Hhi).
      exists (S k). split; [simpl; lia|].
      split; [rewrite Heq; simpl; f_equal; lia|]. split.
      * intros j x Hj Hx. destruct j as [|j]; simpl in *.
        -- injection Hx as <-. lia.
        -- specialize (Hlo j x ltac:(lia) Hx). lia.
      * intros x Hx. simpl in *. specialize (Hhi x Hx). lia.
    + exists 0. simpl. split; [lia|]. split; [f_equal; lia|].
      split; [intros; lia|]. intros x [= <-]. lia.
Qed.

(** C7: the position translator holds the lengths of the lines of its
    text, each with its trailing newline; [convert] starts at line 1 and
    takes line lengths off the offset, one more line each time, as long
    as the next length is at most what remains of the offset, and prints
    the line and the rest as [line.rest].  For the text of [ab], a
    newline and [cd], offset 0 is line 1 column 0 and offset 3 is line 2
    column 0. *)
Theorem position_converter_spec :
  (forall text, PositionConverter.new text = Some (line_lengths text))
  /\ (forall n_sizes index,
        exists k,
          k <= length n_sizes
          /\ PositionConverter.convert_loop n_sizes 1 index
             = ((1 + Z.of_nat k)%Z,
                (index - total_length (take k n_sizes))%Z)
          /\ PositionConverter.convert n_sizes index
             = (PositionConverter.format_int (1 + Z.of_nat k) ++ "."
                ++ PositionConverter.format_int
                     (index - total_length (take k n_sizes)))%string
          /\ (forall j x, j < k -> nth_error n_sizes j = Some x ->
                (x <= index - total_length (take j n_sizes))%Z)
          /\ (forall x, nth_error n_sizes k = Some x ->
                (index - total_length (take k n_sizes) < x)%Z))
  /\ (let text := str "ab" ++ [HTMLParser.newline] ++ str "cd" in
      PositionConverter.new text = Some [3%Z]
      /\ PositionConverter.convert_loop [3%Z] 1 0 = (1%Z, 0%Z)
      /\ PositionConverter.convert [3%Z] 0 = "1.0"%string
      /\ PositionConverter.convert_loop [3%Z] 1 3 = (2%Z, 0%Z)
      /\ PositionConverter.convert [3%Z] 3 = "2.0"%string
      /\ slice text 3 5 = str "cd").
Proof.
  split; [|split].
  - intros text. unfold PositionConverter.new.
    change (-1)%Z with (Z.of_nat 0 - 1)%Z.
    rewrite init_loop_spec by lia. reflexivity.
  - intros n_sizes index.
    destruct (convert_loop_spec n_sizes 1%Z index)
      as (k & Hk & Heq & Hlo & Hhi).
    exists k. repeat split; try assumption.
    unfold PositionConverter.convert. now rewrite Heq.
  - vm_compute. repeat split; reflexivity.
Qed.

(** ** The highlight diff *)

Section Diff.
Variables tags tags_new : gmap string (gset HTMLEditor.range).

(** What the loop over the keys leaves under [k] in [tags_to_remove]. *)
Definition to_remove_at (k : string) : option (gset HTMLEditor.range) :=
  match tags !! k, tags_new !! k with
  | Some old, Some new => Some (old ∖ new)
  | Some old, None => Some old
  | None, _ => None
  end.

(** What the loop over the keys leaves under [k] in [tags_to_add]. *)
Definition to_add_at (k : string) : option (gset HTMLEditor.range) :=
  match tags !! k, tags_new !! k with
  | Some old, Some new => Some (new ∖ old)
  | None, Some new => Some new
  | _, None => None
  end.

Lemma diff_fold_lookup (X : gset string) :
  forall k,
    (set_fold (HTMLEditor.diff_key tags tags_new) (∅, ∅) X).1 !! k
    = (if decide (k ∈ X) then to_remove_at k else None)
    /\ (set_fold (HTMLEditor.diff_key tags tags_new) (∅, ∅) X).2 !! k
       = (if decide (k ∈ X) then to_add_at k else None).
Proof.
  pose (P := fun (acc : gmap string (gset HTMLEditor.range)
                        * gmap string (gset HTMLEditor.range))
                 (Y : gset string) =>
               forall k : string,
                 acc.1 !! k
                 = (if decide (k ∈ Y) then to_remove_at k else None)
                 /\ acc.2 !! k
                    = (if decide (k ∈ Y) then to_add_at k else None)).
  change (P (set_fold (HTMLEditor.diff_key tags tags_new) (∅, ∅) X) X).
  apply (set_fold_ind_L P); unfold P; clear P.
  - intros k. simpl. rewrite !lookup_empty.
    destruct (decide (k ∈ (∅ : gset string))) as [Hin|_]; [|done].
    set_solver.
  - intros x Y [rem add] Hx IH k. specialize (IH k). simpl in IH.
    destruct IH as [IHr IHa].
    unfold HTMLEditor.diff_key.
    destruct (decide (k = x)) as [->|Hne].
    + destruct (decide (x ∈ {[x]} ∪ Y)) as [_|Hn]; [|set_solver].
      unfold to_remove_at, to_add_at.
      destruct (decide (x ∈ Y)) as [Hin|_]; [done|].
      destruct (tags !! x) as [old|], (tags_new !! x) as [new|]; simpl;
        rewrite ?lookup_insert_eq; auto.
    + assert (Hiff : k ∈ {[x]} ∪ Y <-> k ∈ Y).
      { rewrite elem_of_union, elem_of_singleton. tauto. }
      destruct (tags !! x) as [old|], (tags_new !! x) as [new|]; simpl;
        rewrite ?lookup_insert_ne by done;
        destruct (decide (k ∈ {[x]} ∪ Y)), (decide (k ∈ Y)); tauto.
Qed.

Lemma diff_lookup k :
  (HTMLEditor.diff tags tags_new).1 !! k = to_remove_at k
  /\ (HTMLEditor.diff tags tags_new).2 !! k = to_add_at k.
Proof.
  unfold HTMLEditor.diff.
  destruct (diff_fold_lookup (dom tags ∪ dom tags_new) k) as [Hr Ha].
  rewrite Hr, Ha.
  destruct (decide (k ∈ dom tags ∪ dom tags_new)) as [_|Hn]; [done|].
  unfold to_remove_at, to_add_at.
  rewrite not_elem_of_union, !not_elem_of_dom in Hn.
  destruct Hn as [-> ->]. done.
Qed.

End Diff.

Lemma in_calls (f : string -> string -> string -> HTMLEditor.tag_op)
    (m : gmap string (gset HTMLEditor.range)) (op : HTMLEditor.tag_op) :
  In op (HTMLEditor.calls f m)
  <-> exists k v a b, m !! k = Some v /\ (a, b) ∈ v /\ op = f k a b.
Proof.
  unfold HTMLEditor.calls. rewrite in_concat. split.
  - intros (ops & Hops & Hin). apply in_map_iff in Hops.
    destruct Hops as ([k v] & <- & Hkv). apply in_map_iff in Hin.
    destruct Hin as ([a b] & <- & Hr). simpl in *.
    exists k, v, a, b. split; [|split; [|reflexivity]].
    + apply elem_of_map_to_list. now apply list_elem_of_In.
    + apply elem_of_elements. now apply list_elem_of_In.
  - intros (k & v & a & b & Hk & Hr & ->).
    exists (map (fun r : HTMLEditor.range => f k r.1 r.2) (elements v)).
    split.
    + apply in_map_iff. exists (k, v). split; [reflexivity|].
      apply list_elem_of_In. now apply elem_of_map_to_list.
    + apply in_map_iff. exists (a, b). split; [reflexivity|].
      apply list_elem_of_In. now apply elem_of_elements.
Qed.

Lemma calls_nil (f : string -> string -> string -> HTMLEditor.tag_op)
    (m : gmap string (gset HTMLEditor.range)) :
  (forall k v, m !! k = Some v -> v = ∅) -> HTMLEditor.calls f m = [].
Proof.
  intros H. destruct (HTMLEditor.calls f m) as [|op ops] eqn:E; [reflexivity|].
  assert (Hin : In op (HTMLEditor.calls f m)) by (rewrite E; now left).
  apply in_calls in Hin. destruct Hin as (k & v & a & b & Hk & Hr & _).
  rewrite (H k v Hk) in Hr. set_solver.
Qed.

(** C9: for every pair of old and new highlight mappings, the diff adds,
    per category, the ranges of new that are not in old and removes the
    ranges of old that are not in new (a category that is in one mapping
    only is added or removed whole); the widget calls are all the
    removals followed by all the additions; and when the new mapping
    equals the old one there is no call at all. *)
Theorem highlight_diff_spec
    (tags tags_new : gmap string (gset HTMLEditor.range)) :
  let tags_to_remove := (HTMLEditor.diff tags tags_new).1 in
  let tags_to_add := (HTMLEditor.diff tags tags_new).2 in
  (forall k r,
     r ∈ default ∅ (tags_to_add !! k)
     <-> r ∈ default ∅ (tags_new !! k) ∖ default ∅ (tags !! k))
  /\ (forall k r,
        r ∈ default ∅ (tags_to_remove !! k)
        <-> r ∈ default ∅ (tags !! k) ∖ default ∅ (tags_new !! k))
  /\ (forall k old,
        tags !! k = Some old -> tags_new !! k = None ->
        tags_to_remove !! k = Some old /\ tags_to_add !! k = None)
  /\ (forall k new,
        tags !! k = None -> tags_new !! k = Some new ->
        tags_to_add !! k = Some new /\ tags_to_remove !! k = None)
  /\ (exists removals additions,
        HTMLEditor._update_colors tags tags_new = removals ++ additions
        /\ (forall op, In op removals <->
              exists k a b,
                op = HTMLEditor.tag_remove k a b
                /\ (a, b) ∈ default ∅ (tags !! k)
                            ∖ default ∅ (tags_new !! k))
        /\ (forall op, In op additions <->
              exists k a b,
                op = HTMLEditor.tag_add k a b
                /\ (a, b) ∈ default ∅ (tags_new !! k)
                            ∖ default ∅ (tags !! k)))
  /\ (tags_new = tags -> HTMLEditor._update_colors tags tags_new = []).
Proof.
  intros tags_to_remove tags_to_add.
  assert (Hadd : forall k r,
            r ∈ default ∅ (tags_to_add !! k)
            <-> r ∈ default ∅ (tags_new !! k) ∖ default ∅ (tags !! k)).
  { intros k r. subst tags_to_add. clear tags_to_remove.
    rewrite (proj2 (diff_lookup tags tags_new k)). unfold to_add_at.
    rewrite elem_of_difference.
    destruct (tags !! k) as [old|], (tags_new !! k) as [new|]; simpl;
      rewrite ?elem_of_difference, ?elem_of_empty; tauto. }
  assert (Hrem : forall k r,
            r ∈ default ∅ (tags_to_remove !! k)
            <-> r ∈ default ∅ (tags !! k) ∖ default ∅ (tags_new !! k)).
  { intros k r. subst tags_to_remove. clear Hadd tags_to_add.
    rewrite (proj1 (diff_lookup tags tags_new k)). unfold to_remove_at.
    rewrite elem_of_difference.
    destruct (tags !! k) as [old|], (tags_new !! k) as [new|]; simpl;
      rewrite ?elem_of_difference, ?elem_of_empty; tauto. }
  assert (Hcalls : HTMLEditor._update_colors tags tags_new
                   = HTMLEditor.calls HTMLEditor.tag_remove tags_to_remove
                     ++ HTMLEditor.calls HTMLEditor.tag_add tags_to_add).
  { unfold HTMLEditor._update_colors. subst tags_to_remove tags_to_add.
    now destruct (HTMLEditor.diff tags tags_new). }
  split; [exact Hadd|]. split; [exact Hrem|]. split; [|split; [|split]].
  - intros k old Ho Hn. subst tags_to_remove tags_to_add.
    destruct (diff_lookup tags tags_new k) as [-> ->].
    unfold to_remove_at, to_add_at. now rewrite Ho, Hn.
  - intros k new Ho Hn. subst tags_to_remove tags_to_add.
    destruct (diff_lookup tags tags_new k) as [-> ->].
    unfold to_remove_at, to_add_at. now rewrite Ho, Hn.
  - exists (HTMLEditor.calls HTMLEditor.tag_remove tags_to_remove),
           (HTMLEditor.calls HTMLEditor.tag_add tags_to_add).
    split; [exact Hcalls|]. split; intros op; rewrite in_calls; split.
    + intros (k & v & a & b & Hk & Hr & ->). exists k, a, b.
      split; [reflexivity|]. apply Hrem. now rewrite Hk.
    + intros (k & a & b & -> & Hr). apply Hrem in Hr.
      destruct (tags_to_remove !! k) as [v|] eqn:Hk.
      * now exists k, v, a, b.
      * simpl in Hr. now apply not_elem_of_empty in Hr.
    + intros (k & v & a & b & Hk & Hr & ->). exists k, a, b.
      split; [reflexivity|]. apply Hadd. now rewrite Hk.
    + intros (k & a & b & -> & Hr). apply Hadd in Hr.
      destruct (tags_to_add !! k) as [v|] eqn:Hk.
      * now exists k, v, a, b.
      * simpl in Hr. now apply not_elem_of_empty in Hr.
  - intros ->. rewrite Hcalls.
    rewrite !calls_nil; [reflexivity| |].
    + intros k v Hk. apply set_eq. intros r.
      specialize (Hadd k r). rewrite Hk, elem_of_difference in Hadd.
      simpl in Hadd. rewrite elem_of_empty. tauto.
    + intros k v Hk. apply set_eq. intros r.
      specialize (Hrem k r). rewrite Hk, elem_of_difference in Hrem.
      simpl in Hrem. rewrite elem_of_empty. tauto.
Qed.

Lemma highlight_diff_spec_witness :
  let m : gmap string (gset HTMLEditor.range) :=
    {[ "text"%string := {[ ("1.0"%string, "1.4"%string) ]} ]} in
  m = m /\ HTMLEditor._update_colors m m = [].
Proof.
  intros m. split; [reflexivity|].
  apply (highlight_diff_spec m m). reflexivity.
Defined.

(** ** The close-tag lookahead of the raw-content rules *)

Section Lookahead.
Variable text : list ascii.
Variable fuel : nat.
Hypothesis Hfuel : length text < fuel.

Local Abbreviation rest s := (drop (_pos s) text).
Local Abbreviation is_ws := (fun c => char_in c HTMLParser.WHITESPACES).
Local Abbreviation is_name := (ParserBase._end_filter HTMLParser.name_end).

(** [open_tag_name and open_tag_name != close_tag_name]. *)
Definition name_mismatch (o : option (list ascii)) (close : list ascii)
    : bool :=
  match o with
  | Some name =>
      negb (bool_decide (name = [])) && negb (bool_decide (name = close))
  | None => false
  end.

(** [__parse_close_tag] written out: what it returns or raises, from
    the cursor and the unread text alone. *)
Definition close_tag_model (o : option (list ascii)) (s : state)
    : outcome unit :=
  if ParserBase._match_single text (str "</") false s then
    let s1 := advance (run is_ws (rest (advance 2 s))) (advance 2 s) in
    let k := run is_name (rest s1) in
    if k =? 0 then Raise s1
    else
      let s2 := mkState (_pos s1 + k)
                  (_result s1 ++ [mkElement (_pos s1) (_pos s1 + k) "tag_name"])
      in
      if name_mismatch o (take k (rest s1)) then Raise s2
      else
        let s3 := advance (run is_ws (rest s2)) s2 in
        if ParserBase._match_single text (str ">") false s3
        then Ok tt (advance 1 s3)
        else Raise s3
  else Raise s.

Lemma advance_bound k s :
  _pos s <= length text -> k <= length (rest s) ->
  _pos (advance k s) <= length text.
Proof. rewrite length_drop. simpl. lia. Qed.

Lemma parse_tag_name_exact s :
  HTMLParser.__parse_tag_name text fuel s
  = let k := run is_name (rest s) in
    if k =? 0 then Raise s
    else Ok (take k (rest s))
           (mkState (_pos s + k)
              (_result s ++ [mkElement (_pos s) (_pos s + k) "tag_name"])).
Proof.
  unfold HTMLParser.__parse_tag_name, parser_result_updater,
    HTMLParser.__skip_name.
  rewrite parse_text_exact by assumption. cbv zeta. cbn [andb].
  destruct (Nat.eqb_spec (run is_name (rest s)) 0) as [H0|H0];
    [reflexivity|].
  cbn [_pos _result advance].
  now destruct (Nat.ltb_spec (_pos s) (_pos s + run is_name (rest s)));
    [|lia].
Qed.

Lemma parse_close_tag_exact o s :
  _pos s <= length text ->
  HTMLParser.__parse_close_tag text fuel o s = close_tag_model o s.
Proof.
  intros Hs. unfold HTMLParser.__parse_close_tag, close_tag_model.
  unfold bind at 1. rewrite skip_match_exact by assumption.
  destruct (ParserBase._match_single text (str "</") false s) eqn:Hm;
    [|reflexivity].
  apply match_single_length in Hm.
  change (length (str "</")) with 2 in *.
  assert (H1 : _pos (advance 2 s) <= length text)
    by now apply advance_bound.
  unfold bind at 1. rewrite try_skip_whitespaces_exact by assumption.
  set (s1 := advance (run is_ws (rest (advance 2 s))) (advance 2 s)).
  assert (H2 : _pos s1 <= length text)
    by (apply advance_bound; [assumption|apply run_le]).
  unfold bind at 1. rewrite parse_tag_name_exact. cbv zeta.
  destruct (Nat.eqb_spec (run is_name (rest s1)) 0) as [H0|H0];
    [reflexivity|].
  set (k := run is_name (rest s1)) in *.
  set (s2 := mkState (_pos s1 + k) _).
  assert (H3 : _pos s2 <= length text).
  { pose proof (run_le is_name (rest s1)) as Hk. fold k in Hk.
    rewrite length_drop in Hk. change (_pos s1 + k <= length text). lia. }
  unfold bind at 1.
  assert (Hchk :
    (match o with
     | Some name =>
         if negb (bool_decide (name = []))
            && negb (bool_decide (name = take k (rest s1)))
         then raise else ret tt
     | None => ret tt
     end) s2
    = if name_mismatch o (take k (rest s1)) then Raise s2 else Ok tt s2).
  { destruct o as [name|]; [|reflexivity]. simpl.
    now destruct (_ && _). }
  rewrite Hchk. destruct (name_mismatch o (take k (rest s1)));
    [reflexivity|].
  unfold bind at 1. rewrite try_skip_whitespaces_exact by assumption.
  rewrite skip_match_exact; [reflexivity|].
  apply advance_bound; [assumption|apply run_le].
Qed.

Local Abbreviation not_lt := (ParserBase._end_filter (str "<")).
Local Abbreviation is_lt := (fun c => bool_decide (c = "<"%char)).

(** One turn of the raw-content loop, written out. *)
Lemma raw_content_turn_exact name s :
  _pos s <= length text ->
  HTMLParser.raw_content_turn text fuel name s
  = let s1 := advance (run not_lt (rest s)) s in
    match close_tag_model (Some (str name)) s1 with
    | Ok _ s2 => Ok (Break tt) (mkState (_pos s1) (_result s2))
    | Raise _ => Ok (Continue tt) (advance (run is_lt (rest s1)) s1)
    | OutOfFuel => OutOfFuel
    end.
Proof.
  intros Hs. unfold HTMLParser.raw_content_turn.
  unfold bind at 1. rewrite parse_text_exact by assumption.
  cbv zeta. cbn [andb].
  set (s1 := advance (run not_lt (rest s)) s).
  assert (H1 : _pos s1 <= length text)
    by (apply advance_bound; [assumption|apply run_le]).
  unfold bind at 1. unfold bind at 1.
  unfold HTMLParser.__try_parse_close_tag2, parser_restorer.
  rewrite parse_close_tag_exact by assumption.
  destruct (close_tag_model (Some (str name)) s1) as [[] s2| s2 |];
    [reflexivity| |reflexivity].
  unfold bind at 1.
  change (mkState (_pos s1) (_result s1)) with s1.
  now rewrite lt_run_exact by assumption.
Qed.

End Lookahead.

(** * Further properties of the parser *)

(** ** The document rule reads the whole buffer *)

Lemma run_stop (f : ascii -> bool) (t : list ascii) :
  match drop (run f t) t with
  | [] => True
  | c :: _ => f c = false
  end.
Proof.
  induction t as [|c t IH]; simpl; [exact I|].
  destruct (f c) eqn:Hf; simpl; [exact IH|exact Hf].
Qed.

Lemma triple_and {A} (P : state -> Prop) (m : M A)
    (Q1 Q2 : A -> state -> Prop) (E : state -> Prop) :
  triple P m Q1 E -> triple P m Q2 E ->
  triple P m (fun a s => Q1 a s /\ Q2 a s) E.
Proof.
  intros H1 H2 s Hs. specialize (H1 s Hs). specialize (H2 s Hs).
  destruct (m s); auto.
Qed.

Section WholeBuffer.
Variable text : list ascii.
Variable fuel : nat.
Hypothesis Hfuel : length text < fuel.

(** Where plain text stops: at the end of the buffer or in front of a
    [<]. *)
Definition at_stop (s : state) : Prop :=
  ParserBase._is_end text s = true
  \/ ParserBase._char text s = Some "<"%char.

Lemma user_text_stops p :
  triple (ge text p) (HTMLParser.__try_parse_user_text text fuel)
    (fun _ s' => ge text p s' /\ at_stop s') (fun _ => False).
Proof.
  apply triple_and; [apply (total_try_parse_user_text text fuel Hfuel)|].
  intros s Hs.
  unfold HTMLParser.__try_parse_user_text, parser_result_updater.
  erewrite bind_ok
    by (rewrite parse_text_exact by assumption; reflexivity).
  cbn [ret].
  set (k := run (ParserBase._end_filter (str "<")) (drop (_pos s) text)).
  assert (Hstop : at_stop (advance k s)).
  { unfold at_stop. rewrite is_end_rest, char_rest, rest_advance.
    pose proof (run_stop (ParserBase._end_filter (str "<"))
                  (drop (_pos s) text)) as H. fold k in H.
    destruct (drop k (drop (_pos s) text)) as [|c t]; [now left|].
    right. simpl. f_equal.
    apply end_filter_lt in H.
    now apply bool_decide_eq_true in H. }
  destruct (_pos s <? _pos (advance k s)); exact Hstop.
Qed.

Lemma tag_blocks_turn_stops p :
  triple (ge text p) (HTMLParser.tag_blocks_turn text fuel)
    (fun _ s' => at_stop s') (fun _ => False).
Proof.
  unfold HTMLParser.tag_blocks_turn.
  eapply triple_bind; [apply (total_try_parse_comment text fuel Hfuel)|].
  intros ?.
  eapply triple_bind; [apply (total_parse_tag_block text fuel Hfuel)|].
  intros ?.
  eapply triple_bind;
    [apply (total_try_skip_whitespaces text fuel Hfuel)|].
  intros ?.
  eapply triple_bind; [apply user_text_stops|].
  intros ? s [_ Hs]. exact Hs.
Qed.

Lemma tag_blocks_turn_continues s fl s' :
  HTMLParser.tag_blocks_turn text fuel s = Ok fl s' -> fl = Continue tt.
Proof.
  unfold HTMLParser.tag_blocks_turn, bind, ret.
  repeat match goal with
         | |- context [match ?m ?x with _ => _ end] =>
             destruct (m x) as [? ?| ? |]; try discriminate
         end.
  now intros [= <- _].
Qed.

Lemma tag_blocks_reach_end :
  triple (fun s => inv text s /\ at_stop s)
    (HTMLParser.__try_parse_tag_blocks text fuel)
    (fun _ s' => inv text s' /\ ParserBase._is_end text s' = true)
    (fun _ => False).
Proof.
  intros s Hs. unfold HTMLParser.__try_parse_tag_blocks.
  apply (triple_while (length text)
           (fun _ s => inv text s /\ at_stop s)
           (fun _ s' => inv text s' /\ ParserBase._is_end text s' = true)
           (fun _ => False)); try assumption.
  - intros _ s0 [[Hl _] _]. exact Hl.
  - intros _ s0 [Hi [He|Hc]] Hcond; [now split|].
    rewrite Hc in Hcond. rewrite bool_decide_eq_true_2 in Hcond by reflexivity.
    rewrite andb_true_r in Hcond. apply negb_false_iff in Hcond.
    now split.
  - intros [] s0 [Hi _] Hcond.
    pose proof (tag_blocks_turn_progress text fuel Hfuel (_pos s0) s0
                  ltac:(destruct Hi; repeat split; auto)) as Hp.
    pose proof (tag_blocks_turn_stops (_pos s0) s0
                  ltac:(destruct Hi; repeat split; auto)) as Ht.
    pose proof (tag_blocks_turn_continues s0) as Hy.
    destruct (HTMLParser.tag_blocks_turn text fuel s0) as [fl s1| |];
      try contradiction.
    rewrite (Hy fl s1 eq_refl).
    destruct Hp as [Hi1 Hlt]. repeat split; auto; apply Hi1.
  - lia.
Qed.

(** The document rule ends with the cursor at the end of the text. *)
Lemma parse_reaches_end s :
  _pos s <= length text ->
  match HTMLParser._parse text fuel s with
  | Ok _ s' => _pos s' = length text
  | _ => False
  end.
Proof.
  intros Hs. unfold HTMLParser._parse.
  assert (H0 : ge text (_pos s) (mkState (_pos s) [])).
  { repeat split; simpl; [assumption|constructor|lia]. }
  assert (Ht : triple (ge text (_pos s))
            (ParserBase._try_skip_whitespaces text
               HTMLParser.WHITESPACES fuel ;;
             HTMLParser.__try_parse_doctype text fuel ;;
             ParserBase._try_skip_whitespaces text
               HTMLParser.WHITESPACES fuel ;;
             HTMLParser.__try_parse_user_text text fuel ;;
             HTMLParser.__try_parse_tag_blocks text fuel)
            (fun _ s' => inv text s' /\ ParserBase._is_end text s' = true)
            (fun _ => False)).
  { eapply triple_bind;
      [apply (total_try_skip_whitespaces text fuel Hfuel)|intros ?].
    eapply triple_bind;
      [apply (total_try_parse_doctype text fuel Hfuel)|intros ?].
    eapply triple_bind;
      [apply (total_try_skip_whitespaces text fuel Hfuel)|intros ?].
    eapply triple_bind; [apply user_text_stops|intros ?].
    eapply triple_conseq; [apply tag_blocks_reach_end| | |]; auto.
    intros s0 [[Hi _] Hst]. now split. }
  specialize (Ht _ H0).
  match goal with
  | |- match ?m with _ => _ end => destruct m as [[] s'| |]
  end; try contradiction.
  destruct Ht as [[Hl _] He]. unfold ParserBase._is_end in He.
  apply Nat.leb_le in He. lia.
Qed.

End WholeBuffer.

(** X1: a full parse of any text ends with the cursor at the end of the
    buffer: every character is consumed by some rule. *)
Theorem full_parse_reads_whole_buffer (html_text : list ascii) :
  exists s,
    HTMLParser.new html_text = Ok tt s /\ _pos s = length html_text.
Proof.
  unfold HTMLParser.new.
  pose proof (parse_reaches_end html_text (S (length html_text))
                (Nat.lt_succ_diag_r _) (mkState 0 []) (Nat.le_0_l _)) as H.
  destruct (HTMLParser._parse _ _ _) as [[] s| |]; try contradiction.
  now exists s.
Qed.

(** ** What the rules add to the span list *)

(** A rule that only appends to the span list, and only spans that
    satisfy [P]; this holds whether the rule returns or raises. *)
Definition appends (P : ParserElement -> Prop) {A} (m : M A) : Prop :=
  forall s,
    match m s with
    | Ok _ s' | Raise s' =>
        exists d, _result s' = _result s ++ d /\ Forall P d
    | OutOfFuel => True
    end.

Section Appends.
Variable P : ParserElement -> Prop.
Hypothesis P_error : forall a b, P (mkElement a b "error").
Hypothesis P_advance : forall a b t, a < b -> P (mkElement a b t).

Lemma appends_nothing (s : state) :
  exists d, _result s = _result s ++ d /\ Forall P d.
Proof. exists []. now rewrite app_nil_r. Qed.

Lemma appends_ret {A} (a : A) : appends P (ret a).
Proof. intros s. apply appends_nothing. Qed.

Lemma appends_raise {A} : appends P (@raise A).
Proof. intros s. apply appends_nothing. Qed.

Lemma appends_bind {A B} (m : M A) (k : A -> M B) :
  appends P m -> (forall a, appends P (k a)) -> appends P (bind m k).
Proof.
  intros Hm Hk s. unfold bind. specialize (Hm s).
  destruct (m s) as [a s1| s1 |]; auto.
  destruct Hm as (d1 & E1 & F1). specialize (Hk a s1).
  destruct (k a s1) as [b s2| s2 |]; auto;
    destruct Hk as (d2 & E2 & F2); exists (d1 ++ d2);
    (split; [rewrite E2, E1; now rewrite app_assoc|now apply Forall_app]).
Qed.

Lemma appends_if {A} (c : state -> bool) (m1 m2 : M A) :
  appends P m1 -> appends P m2 ->
  appends P (fun s => if c s then m1 s else m2 s).
Proof. intros H1 H2 s. destruct (c s); [apply H1|apply H2]. Qed.

Lemma appends_updater {A} t (f : M A) :
  appends P f -> appends P (parser_result_updater t f).
Proof.
  intros Hf s. unfold parser_result_updater. specialize (Hf s).
  destruct (f s) as [a s'| s' |]; auto.
  destruct (Nat.ltb_spec (_pos s) (_pos s')); [|exact Hf].
  destruct Hf as (d & E & F).
  exists (d ++ [mkElement (_pos s) (_pos s') t]). simpl.
  split; [rewrite E; now rewrite app_assoc|].
  apply Forall_app. split; [assumption|]. constructor; auto.
Qed.

Lemma appends_handler {A} (f : M A) :
  appends P f -> appends P (parser_error_handler f).
Proof.
  intros Hf s. unfold parser_error_handler. specialize (Hf s).
  destruct (f s) as [a s'| s' |]; auto.
  destruct Hf as (d & E & F).
  exists (d ++ [mkElement (_pos s) (_pos s') "error"]). simpl.
  split; [rewrite E; now rewrite app_assoc|].
  apply Forall_app. split; [assumption|]. constructor; auto.
Qed.

Lemma appends_restorer {A} (f : M A) :
  appends P f -> appends P (parser_restorer f).
Proof.
  intros Hf s. unfold parser_restorer. specialize (Hf s).
  destruct (f s) as [a s'| s' |]; auto.
  exists []. simpl. now rewrite app_nil_r.
Qed.

Lemma appends_while {L} (cond : L -> state -> bool)
    (body : L -> M (flow L)) n :
  (forall l, appends P (body l)) ->
  forall l, appends P (while_ n cond body l).
Proof.
  intros Hb. induction n as [|n IH]; intros l0 s; simpl; [exact I|].
  destruct (cond l0 s); [|apply appends_nothing].
  specialize (Hb l0 s).
  destruct (body l0 s) as [[l'|l'] s1| s1 |]; auto.
  destruct Hb as (d1 & E1 & F1). specialize (IH l' s1).
  destruct (while_ n cond body l' s1) as [b s2| s2 |]; auto;
    destruct IH as (d2 & E2 & F2); exists (d1 ++ d2);
    (split; [rewrite E2, E1; now rewrite app_assoc|now apply Forall_app]).
Qed.

Lemma appends_cursor {A} (m : M A) :
  (forall s, match m s with
             | Ok _ s' | Raise s' => _result s' = _result s
             | OutOfFuel => True
             end) ->
  appends P m.
Proof.
  intros H s. specialize (H s).
  destruct (m s) as [a s'| s' |]; auto; rewrite H; apply appends_nothing.
Qed.

Variable text : list ascii.
Variable fuel : nat.

Lemma appends_skip_match p b : appends P (ParserBase._skip_match text p b).
Proof.
  apply appends_cursor. intros s.
  unfold ParserBase._skip_match, ParserBase._skip_len.
  destruct (ParserBase._match text [p] b s); [|reflexivity].
  now destruct (_ <? _).
Qed.

Lemma appends_next : appends P (ParserBase._next text).
Proof.
  apply appends_cursor. intros s. unfold ParserBase._next.
  now destruct (ParserBase._char text s).
Qed.

Lemma appends_try_skip_whitespaces ws :
  appends P (ParserBase._try_skip_whitespaces text ws fuel).
Proof.
  apply appends_while. intros _.
  apply appends_bind; [apply appends_next|intros c; apply appends_ret].
Qed.

Lemma appends_skip_whitespaces ws :
  appends P (ParserBase._skip_whitespaces text ws fuel).
Proof.
  apply appends_if; [apply appends_raise|apply appends_try_skip_whitespaces].
Qed.

Lemma appends_parse_text f min_one :
  appends P (ParserBase._parse_text text fuel f min_one).
Proof.
  apply appends_bind.
  - destruct min_one; [|apply appends_ret].
    apply appends_if; [apply appends_raise|].
    apply appends_bind; [apply appends_next|intros c; apply appends_ret].
  - intros result. apply appends_while. intros acc.
    apply appends_bind; [apply appends_next|intros c; apply appends_ret].
Qed.

Create HintDb appends.
Local Hint Resolve appends_ret appends_raise appends_skip_match appends_next
  appends_try_skip_whitespaces appends_skip_whitespaces appends_parse_text
  appends_updater appends_handler appends_restorer : appends.

Local Ltac ap :=
  repeat first
    [ solve [auto with appends]
    | apply @appends_while; intros ?
    | apply @appends_bind; [|intros ?]
    | apply @appends_if ].

Lemma appends_skip_value : appends P (HTMLParser.__skip_value text fuel).
Proof. unfold HTMLParser.__skip_value. ap. Qed.

Lemma appends_parse_tag_name :
  appends P (HTMLParser.__parse_tag_name text fuel).
Proof. apply appends_updater, appends_parse_text. Qed.

Lemma appends_parse_tag_param_name :
  appends P (HTMLParser.__parse_tag_param_name text fuel).
Proof. apply appends_updater, appends_parse_text. Qed.

Lemma appends_parse_tag_param_value :
  appends P (HTMLParser.__parse_tag_param_value text fuel).
Proof. apply appends_updater, appends_skip_value. Qed.

Lemma appends_try_parse_doctype :
  appends P (HTMLParser.__try_parse_doctype text fuel).
Proof. apply appends_restorer, appends_updater. ap. Qed.

Local Hint Resolve appends_skip_value appends_parse_tag_name
  appends_parse_tag_param_name appends_parse_tag_param_value
  appends_try_parse_doctype : appends.

Lemma appends_parse_close_tag o :
  appends P (HTMLParser.__parse_close_tag text fuel o).
Proof.
  unfold HTMLParser.__parse_close_tag.
  apply appends_bind; [ap|intros ?].
  apply appends_bind; [ap|intros ?].
  apply appends_bind; [ap|intros close_tag_name].
  apply appends_bind; [|intros ?; ap].
  destruct o as [name|]; [|ap]. destruct (_ && _); ap.
Qed.

Local Hint Resolve appends_parse_close_tag : appends.

Lemma appends_try_parse_close_tag2 o :
  appends P (HTMLParser.__try_parse_close_tag2 text fuel o).
Proof. apply appends_restorer, appends_parse_close_tag. Qed.

Lemma appends_try_parse_close_tag o :
  appends P (HTMLParser.__try_parse_close_tag text fuel o).
Proof. apply appends_handler, appends_parse_close_tag. Qed.

Local Hint Resolve appends_try_parse_close_tag2 appends_try_parse_close_tag
  : appends.

Lemma appends_raw_content name :
  appends P (HTMLParser.raw_content text fuel name).
Proof.
  apply appends_while. intros ?. unfold HTMLParser.raw_content_turn.
  apply appends_bind; [ap|intros ?].
  apply appends_bind; [apply appends_cursor; now intros s|intros lpos].
  apply appends_bind; [ap|intros [|]].
  - apply appends_bind; [apply appends_cursor; now intros s|intros ?; ap].
  - ap.
Qed.

Lemma appends_parse_script : appends P (HTMLParser.__parse_script text fuel).
Proof. apply appends_updater, appends_raw_content. Qed.

Lemma appends_parse_style : appends P (HTMLParser.__parse_style text fuel).
Proof. apply appends_updater, appends_raw_content. Qed.

Lemma appends_try_parse_comment :
  appends P (HTMLParser.__try_parse_comment text fuel).
Proof. apply appends_restorer, appends_updater. ap. Qed.

Lemma appends_try_parse_user_text :
  appends P (HTMLParser.__try_parse_user_text text fuel).
Proof. apply appends_updater. ap. Qed.

Lemma appends_try_parse_tag_param :
  appends P (HTMLParser.__try_parse_tag_param text fuel).
Proof. unfold HTMLParser.__try_parse_tag_param. ap. Qed.

Local Hint Resolve appends_parse_script appends_parse_style
  appends_try_parse_comment appends_try_parse_user_text
  appends_try_parse_tag_param : appends.

Lemma appends_try_parse_tag_params :
  appends P (HTMLParser.__try_parse_tag_params text fuel).
Proof. apply appends_handler. ap. Qed.

Local Hint Resolve appends_try_parse_tag_params : appends.

Lemma appends_try_parse_open_and_close_tag :
  appends P (HTMLParser.__try_parse_open_and_close_tag text fuel).
Proof. apply appends_restorer. ap. Qed.

Lemma appends_try_parse_open_tag :
  appends P (HTMLParser.__try_parse_open_tag text fuel).
Proof. apply appends_handler. ap. Qed.

Local Hint Resolve appends_try_parse_open_and_close_tag
  appends_try_parse_open_tag : appends.

Lemma appends_parse_tag_block :
  appends P (HTMLParser.__parse_tag_block text fuel).
Proof.
  apply appends_handler, appends_if; [ap|].
  apply appends_bind; [ap|intros [|]]; [ap|].
  apply appends_bind; [ap|intros tag_name].
  destruct (bool_decide (tag_name ∈ _)); [|ap].
  apply appends_bind; [destruct (bool_decide _); ap|intros ?]. ap.
Qed.

Local Hint Resolve appends_parse_tag_block : appends.

Lemma appends_try_parse_tag_blocks :
  appends P (HTMLParser.__try_parse_tag_blocks text fuel).
Proof.
  apply appends_while. intros ?. unfold HTMLParser.tag_blocks_turn. ap.
Qed.

Lemma parse_spans_all s :
  match HTMLParser._parse text fuel s with
  | Ok _ s' | Raise s' => Forall P (_result s')
  | OutOfFuel => True
  end.
Proof.
  unfold HTMLParser._parse.
  assert (H : appends P
            (ParserBase._try_skip_whitespaces text
               HTMLParser.WHITESPACES fuel ;;
             HTMLParser.__try_parse_doctype text fuel ;;
             ParserBase._try_skip_whitespaces text
               HTMLParser.WHITESPACES fuel ;;
             HTMLParser.__try_parse_user_text text fuel ;;
             HTMLParser.__try_parse_tag_blocks text fuel)).
  { pose proof appends_try_parse_tag_blocks. ap. }
  specialize (H (mkState (_pos s) [])).
  match goal with
  | |- match ?m with _ => _ end => destruct m as [a s'| s' |]
  end; auto; destruct H as (d & -> & F); exact F.
Qed.

End Appends.

(** X2: in the result of a full parse of any text, every span whose
    category is not [error] is non-empty: only the tolerant wrapper can
    record a span of length zero. *)
Theorem only_error_spans_are_empty (html_text : list ascii) :
  exists spans,
    HTMLParser.result html_text = Some spans
    /\ Forall (fun e => type e <> "error"%string -> l e < r e) spans.
Proof.
  destruct (new_ok html_text) as (s & Hs & _).
  exists (_result s). unfold HTMLParser.result. rewrite Hs.
  split; [reflexivity|].
  pose proof (parse_spans_all
                (fun e => type e <> "error"%string -> l e < r e)
                ltac:(now intros a b H) ltac:(now intros a b t H _)
                html_text (S (length html_text)) (mkState 0 [])) as H.
  unfold HTMLParser.new in Hs. now rewrite Hs in H.
Qed.

(** ** Contracts of the scanner primitives *)

Lemma run_take_forall (f : ascii -> bool) (t : list ascii) :
  Forall (fun c => f c = true) (take (run f t) t).
Proof.
  induction t as [|c t IH]; simpl; [constructor|].
  destruct (f c) eqn:Hf; simpl; [|constructor].
  constructor; assumption.
Qed.

Lemma run_take_length (f : ascii -> bool) (t : list ascii) :
  length (take (run f t) t) = run f t.
Proof. rewrite length_take. pose proof (run_le f t). lia. Qed.

Lemma slice_rest (text : list ascii) p k :
  slice text p (p + k) = take k (drop p text).
Proof. unfold slice. now replace (p + k - p) with k by lia. Qed.

Lemma char_after_run (text : list ascii) (f : ascii -> bool) s :
  match ParserBase._char text (advance (run f (drop (_pos s) text)) s) with
  | Some c => f c = false
  | None => True
  end.
Proof.
  rewrite char_rest, rest_advance.
  pose proof (run_stop f (drop (_pos s) text)) as H.
  now destruct (drop _ (drop (_pos s) text)).
Qed.

(** X3: [_parse_text] returns exactly the characters it has read, which
    all pass the filter; it leaves the span list alone and stops at the
    end of the text or in front of the first character that fails the
    filter.  It raises only when [min_one] is set and there is nothing
    to read, and then the state is unchanged. *)
Theorem parse_text_contract (text : list ascii) (fuel : nat)
    (f : ascii -> bool) (min_one : bool) (s : state) :
  length text < fuel ->
  match ParserBase._parse_text text fuel f min_one s with
  | Ok res s' =>
      _result s' = _result s
      /\ _pos s' = _pos s + length res
      /\ res = slice text (_pos s) (_pos s')
      /\ Forall (fun c => f c = true) res
      /\ (min_one = true -> res <> [])
      /\ match ParserBase._char text s' with
         | Some c => f c = false
         | None => True
         end
  | Raise s' =>
      s' = s /\ min_one = true
      /\ match ParserBase._char text s with
         | Some c => f c = false
         | None => True
         end
  | OutOfFuel => False
  end.
Proof.
  intros Hfuel. rewrite parse_text_exact by assumption. cbv zeta.
  set (t := drop (_pos s) text).
  assert (Hok : forall P : Prop, P ->
            _result (advance (run f t) s) = _result s
            /\ _pos (advance (run f t) s)
               = _pos s + length (take (run f t) t)
            /\ take (run f t) t
               = slice text (_pos s) (_pos (advance (run f t) s))
            /\ Forall (fun c => f c = true) (take (run f t) t)
            /\ P
            /\ match ParserBase._char text (advance (run f t) s) with
               | Some c => f c = false
               | None => True
               end).
  { intros Q HQ. cbn [advance _pos _result]. rewrite run_take_length.
    split; [reflexivity|]. split; [reflexivity|].
    split; [now rewrite slice_rest|].
    split; [apply run_take_forall|]. split; [exact HQ|].
    apply (char_after_run text f s). }
  destruct min_one; cbn [andb]; [|apply Hok; discriminate].
  destruct (Nat.eqb_spec (run f t) 0) as [H0|H0].
  - split; [reflexivity|]. split; [reflexivity|].
    rewrite char_rest. fold t.
    destruct t as [|c t']; simpl in *; [exact I|].
    now destruct (f c).
  - apply Hok. intros _ Hnil. apply (f_equal (@length ascii)) in Hnil.
    rewrite run_take_length in Hnil. simpl in Hnil. contradiction.
Qed.

Lemma parse_text_contract_witness :
  length (str "ab<c") < 5
  /\ match ParserBase._parse_text (str "ab<c") 5
            (ParserBase._end_filter (str "<")) true (mkState 0 []) with
     | Ok res s' => res = str "ab" /\ _pos s' = 2
     | _ => False
     end.
Proof.
  split; [vm_compute; lia|].
  pose proof (parse_text_contract (str "ab<c") 5
                (ParserBase._end_filter (str "<")) true (mkState 0 [])
                ltac:(vm_compute; lia)) as H.
  destruct (ParserBase._parse_text _ _ _ _ _) as [res s'| s' |] eqn:E;
    vm_compute in E; try discriminate.
  injection E as <- <-. now split.
Defined.

(** X4: [_try_skip_whitespaces] never raises; it reads whitespace only,
    leaves the span list alone and stops where no whitespace can be
    skipped.  [_skip_whitespaces] raises exactly when the cursor is not
    on a whitespace character, leaving the state unchanged, and
    otherwise does what [_try_skip_whitespaces] does, reading at least
    one character. *)
Theorem skip_whitespaces_contract (text ws : list ascii) (fuel : nat)
    (s : state) :
  length text < fuel ->
  match ParserBase._try_skip_whitespaces text ws fuel s with
  | Ok _ s' =>
      _result s' = _result s
      /\ _pos s <= _pos s'
      /\ Forall (fun c => c ∈ ws) (slice text (_pos s) (_pos s'))
      /\ ParserBase._can_skip_whitespace text ws s' = false
      /\ match ParserBase._skip_whitespaces text ws fuel s with
         | Ok _ s'' =>
             s'' = s' /\ _pos s < _pos s'
             /\ ParserBase._can_skip_whitespace text ws s = true
         | Raise s'' =>
             s'' = s /\ ParserBase._can_skip_whitespace text ws s = false
         | OutOfFuel => False
         end
  | _ => False
  end.
Proof.
  intros Hfuel. unfold ParserBase._skip_whitespaces.
  rewrite try_skip_whitespaces_exact by assumption.
  set (f := fun c => char_in c ws). set (t := drop (_pos s) text).
  cbn [advance _pos _result].
  split; [reflexivity|]. split; [lia|]. split; [|split].
  - rewrite slice_rest. fold t.
    eapply Forall_impl; [apply (run_take_forall f t)|].
    intros c Hc. unfold f, char_in in Hc.
    now apply bool_decide_eq_true in Hc.
  - unfold ParserBase._can_skip_whitespace.
    pose proof (char_after_run text f s) as H. fold t in H.
    unfold advance in H.
    destruct (ParserBase._char text _) as [c|]; [|apply andb_false_r].
    unfold f in H. rewrite H. apply andb_false_r.
  - unfold ParserBase._can_skip_whitespace.
    rewrite is_end_rest, char_rest. fold t.
    destruct t as [|c t']; simpl; [now split|].
    fold (f c). destruct (f c) eqn:Hf; simpl.
    + split; [reflexivity|]. split; [lia|reflexivity].
    + now split.
Qed.

Lemma skip_whitespaces_contract_witness :
  length (str "  a") < 4
  /\ match ParserBase._try_skip_whitespaces (str "  a")
            HTMLParser.WHITESPACES 4 (mkState 0 []) with
     | Ok _ s' =>
         ParserBase._can_skip_whitespace (str "  a") HTMLParser.WHITESPACES s'
         = false
     | _ => False
     end.
Proof.
  split; [vm_compute; lia|].
  pose proof (skip_whitespaces_contract (str "  a") HTMLParser.WHITESPACES 4
                (mkState 0 []) ltac:(vm_compute; lia)) as H.
  destruct (ParserBase._try_skip_whitespaces _ _ _ _) as [[] s'| s' |];
    try contradiction.
  apply H.
Defined.

(** X5: for a prefix of ASCII characters, as every prefix the parser
    passes is, or when the register matters, and with the cursor inside
    the text, [_skip_match] either moves the cursor by exactly the
    length of the prefix over characters that equal the prefix (up to
    letter case unless the register matters), staying inside the text
    and leaving the span list alone, or it raises with the state
    unchanged because the prefix does not match: for such a prefix the
    bound check of [_skip_len] never fails after a match.  (Outside
    ASCII [str.lower()] can change the number of characters, so the
    statement is not made for other prefixes compared up to case.) *)
Theorem skip_match_contract (text prefix : list ascii) (b : bool)
    (s : state) :
  _pos s <= length text ->
  b = true \/ Forall (fun c => nat_of_ascii c < 128) prefix ->
  match ParserBase._skip_match text prefix b s with
  | Ok _ s' =>
      s' = advance (length prefix) s
      /\ _pos s' <= length text
      /\ (if b then slice text (_pos s) (_pos s') = prefix
          else lower (slice text (_pos s) (_pos s')) = lower prefix)
  | Raise s' =>
      s' = s /\ ParserBase._match text [prefix] b s = false
  | OutOfFuel => False
  end.
Proof.
  intros Hs _. rewrite skip_match_exact by assumption. rewrite match_one.
  destruct (ParserBase._match_single text prefix b s) eqn:Hm;
    [|now split].
  split; [reflexivity|]. split.
  - apply match_single_length in Hm. rewrite length_drop in Hm.
    simpl. lia.
  - cbn [advance _pos]. rewrite slice_rest.
    rewrite match_single_rest in Hm.
    destruct b; now apply bool_decide_eq_true in Hm.
Qed.

Lemma skip_match_contract_witness :
  _pos (mkState 0 []) <= length (str "<!DocType html>")
  /\ (false = true
      \/ Forall (fun c => nat_of_ascii c < 128) (str "<!doctype"))
  /\ match ParserBase._skip_match (str "<!DocType html>") (str "<!doctype")
            false (mkState 0 []) with
     | Ok _ s' => s' = advance 9 (mkState 0 [])
     | _ => False
     end.
Proof.
  assert (Hascii : Forall (fun c => nat_of_ascii c < 128) (str "<!doctype"))
    by (repeat constructor; vm_compute; lia).
  split; [vm_compute; lia|]. split; [now right|].
  pose proof (skip_match_contract (str "<!DocType html>") (str "<!doctype")
                false (mkState 0 []) ltac:(vm_compute; lia)
                (or_intror Hascii)) as H.
  destruct (ParserBase._skip_match _ _ _ _) as [[] s'| s' |] eqn:E;
    vm_compute in E; try discriminate.
  apply H.
Defined.

(** ** Tag blocks and comments *)

Lemma lower_char_lt c : lower_char c = "<"%char -> c = "<"%char.
Proof.
  destruct c as [[] [] [] [] [] [] [] []]; vm_compute; intros H;
    first [reflexivity|discriminate].
Qed.

Lemma lower_char_minus c : lower_char c = "-"%char -> c = "-"%char.
Proof.
  destruct c as [[] [] [] [] [] [] [] []]; vm_compute; intros H;
    first [reflexivity|discriminate].
Qed.

Lemma match_not_lt (text : list ascii) p s :
  ParserBase._char text s <> Some "<"%char ->
  ParserBase._match_single text ("<"%char :: p) false s = false.
Proof.
  intros Hc. rewrite match_single_rest. apply bool_decide_eq_false.
  intros H. apply Hc. rewrite char_rest.
  destruct (drop (_pos s) text) as [|c t]; [discriminate|].
  simpl in H. injection H as H _. apply lower_char_lt in H. now subst.
Qed.

(** X6: a tag block attempted where the cursor is not on a [<] (as
    happens right after a comment that is followed by text) reads
    nothing and records one error span of length zero at the cursor. *)
Theorem tag_block_off_angle_bracket (text : list ascii) (fuel : nat)
    (s : state) :
  ParserBase._char text s <> Some "<"%char ->
  HTMLParser.__parse_tag_block text fuel s
  = Ok (Some tt)
      (mkState (_pos s)
         (_result s ++ [mkElement (_pos s) (_pos s) "error"])).
Proof.
  intros Hc. destruct s as [p r].
  unfold HTMLParser.__parse_tag_block, parser_error_handler.
  rewrite match_one, (match_not_lt text (str "/")) by assumption.
  unfold bind at 1.
  unfold HTMLParser.__try_parse_open_and_close_tag, parser_restorer.
  unfold bind at 1. unfold ParserBase._skip_match at 1.
  rewrite match_one, (match_not_lt text []) by assumption.
  cbn [_pos _result].
  unfold bind at 1.
  unfold HTMLParser.__try_parse_open_tag, parser_error_handler.
  unfold bind at 1. unfold ParserBase._skip_match at 1.
  rewrite match_one, (match_not_lt text []) by assumption.
  reflexivity.
Qed.

Lemma tag_block_off_angle_bracket_witness :
  let text := str "<!-- a -->x" in
  let s := mkState 10 [mkElement 0 10 "comment"] in
  HTMLParser.__try_parse_comment text 12 (mkState 0 []) = Ok true s
  /\ ParserBase._char text s <> Some "<"%char
  /\ HTMLParser.__parse_tag_block text 12 s
     = Ok (Some tt)
         (mkState 10 [mkElement 0 10 "comment"; mkElement 10 10 "error"]).
Proof.
  intros text s. split; [vm_compute; reflexivity|].
  split; [vm_compute; discriminate|].
  apply (tag_block_off_angle_bracket text 12 s). vm_compute. discriminate.
Defined.

Section Comment.
Variable text : list ascii.
Variable fuel : nat.
Hypothesis Hfuel : length text < fuel.

Local Abbreviation is_ws := (fun c => char_in c HTMLParser.WHITESPACES).

Lemma moves_try_skip_whitespaces ws :
  moves text 0 (ParserBase._try_skip_whitespaces text ws fuel).
Proof.
  intros s Hs. rewrite try_skip_whitespaces_exact by assumption.
  eexists. split; [lia|]. split; [reflexivity|].
  pose proof (run_le (fun c => char_in c ws) (drop (_pos s) text)) as H.
  rewrite length_drop in H. lia.
Qed.

(** The loop of the comment rule that looks for the closing [-->]. *)
Lemma moves_comment_loop :
  moves text 0
    (while_ fuel
       (fun _ s => negb (ParserBase._match text [str "-->"] false s))
       (fun _ => ParserBase._next text ;; ret (Continue tt)) tt).
Proof.
  intros s Hs.
  apply (triple_while (length text)
           (fun _ s' => exists k, s' = advance k s
                                  /\ _pos s + k <= length text)
           (fun _ s' => exists k, 0 <= k /\ s' = advance k s
                                  /\ _pos s + k <= length text)
           (fun _ => True)).
  - intros _ s0 (k & -> & Hk). exact Hk.
  - intros _ s0 (k & -> & Hk) _. exists k. split; [lia|now split].
  - intros _ s0 (k & -> & Hk) _. unfold bind. rewrite next_rest.
    destruct (drop (_pos (advance k s)) text) as [|c t] eqn:Hr; [exact I|].
    cbn [ret]. split; [|simpl; lia].
    exists (k + 1). split; [unfold advance; simpl; f_equal; lia|].
    apply (f_equal (@length ascii)) in Hr. rewrite length_drop in Hr.
    simpl in Hr. lia.
  - exists 0. split; [|lia]. unfold advance. rewrite Nat.add_0_r.
    now destruct s.
  - lia.
Qed.

Lemma try_parse_comment_cases s :
  _pos s <= length text ->
  (exists s',
     HTMLParser.__try_parse_comment text fuel s = Ok true s'
     /\ _pos s + 7 <= _pos s' <= length text
     /\ _result s'
        = _result s ++ [mkElement (_pos s) (_pos s') "comment"])
  \/ HTMLParser.__try_parse_comment text fuel s = Ok false s.
Proof.
  intros Hs. unfold HTMLParser.__try_parse_comment.
  unfold parser_restorer, parser_result_updater.
  match goal with
  | |- context [match ?body s with _ => _ end] =>
      assert (Hm : moves text
                     (length (str "<!--")
                      + (0 + (0 + (0 + length (str "-->"))))) body)
  end.
  { apply (moves_bind text fuel Hfuel);
      [apply (moves_skip_match text fuel Hfuel)|intros ?].
    apply (moves_bind text fuel Hfuel);
      [apply moves_try_skip_whitespaces|intros ?].
    apply (moves_bind text fuel Hfuel);
      [apply moves_comment_loop|intros ?].
    apply (moves_bind text fuel Hfuel);
      [apply moves_try_skip_whitespaces|intros ?].
    apply (moves_skip_match text fuel Hfuel). }
  specialize (Hm s Hs). simpl length in Hm.
  match goal with
  | |- context [match ?body s with _ => _ end] =>
      destruct (body s) as [[] s1| s1 |]
  end; try contradiction.
  - destruct Hm as (k & Hk & -> & Hb). left. simpl in Hk. simpl.
    destruct (Nat.ltb_spec (_pos s) (_pos s + k)); [|lia].
    eexists. split; [reflexivity|]. simpl. split; [lia|reflexivity].
  - right. now destruct s.
Qed.

(** The search for [-->] stops at the first place where it stands. *)
Lemma comment_loop_finds d :
  forall n s,
    d < n ->
    ParserBase._match_single text (str "-->") false
      (mkState (_pos s + d) []) = true ->
    (forall i, i < d ->
       ParserBase._match_single text (str "-->") false
         (mkState (_pos s + i) []) = false) ->
    while_ n
      (fun _ s => negb (ParserBase._match text [str "-->"] false s))
      (fun _ => ParserBase._next text ;; ret (Continue tt)) tt s
    = Ok tt (advance d s).
Proof.
  induction d as [|d IH]; intros n s Hn Hat Hbefore;
    (destruct n as [|n]; [lia|]); cbn [while_]; rewrite match_one;
    change (ParserBase._match_single text (str "-->") false s)
      with (ParserBase._match_single text (str "-->") false
              (mkState (_pos s) [])).
  - rewrite Nat.add_0_r in Hat. rewrite Hat. cbn [negb].
    unfold advance. rewrite Nat.add_0_r. now destruct s.
  - pose proof (Hbefore 0 ltac:(lia)) as H0. rewrite Nat.add_0_r in H0.
    rewrite H0. cbn [negb]. unfold bind. rewrite next_rest.
    destruct (drop (_pos s) text) as [|c t] eqn:Hr.
    + apply match_single_length in Hat. cbn [_pos] in Hat.
      change (length (str "-->")) with 3 in Hat.
      rewrite length_drop in Hat.
      apply (f_equal (@length ascii)) in Hr. rewrite length_drop in Hr.
      simpl in Hr. lia.
    + cbn [ret]. rewrite IH.
      * unfold advance. cbn [_pos _result]. f_equal. f_equal. lia.
      * lia.
      * cbn [advance _pos].
        now replace (_pos s + 1 + d) with (_pos s + S d) by lia.
      * intros i Hi. cbn [advance _pos].
        replace (_pos s + 1 + i) with (_pos s + S i) by lia.
        apply Hbefore. lia.
Qed.

Lemma try_parse_comment_finds s d :
  _pos s <= length text ->
  ParserBase._match_single text (str "<!--") false s = true ->
  let q := _pos s + 4 + run is_ws (drop (_pos s + 4) text) in
  ParserBase._match_single text (str "-->") false (mkState (q + d) [])
  = true ->
  (forall i, i < d ->
     ParserBase._match_single text (str "-->") false (mkState (q + i) [])
     = false) ->
  HTMLParser.__try_parse_comment text fuel s
  = Ok true
      (mkState (q + d + 3)
         (_result s ++ [mkElement (_pos s) (q + d + 3) "comment"])).
Proof.
  intros Hs Hopen q Hat Hbefore.
  assert (Hlen : q + d + 3 <= length text).
  { apply match_single_length in Hat. rewrite length_drop in Hat.
    simpl in Hat. lia. }
  unfold HTMLParser.__try_parse_comment, parser_restorer,
    parser_result_updater.
  unfold bind at 1. rewrite skip_match_exact, Hopen by assumption.
  change (length (str "<!--")) with 4.
  unfold bind at 1. rewrite try_skip_whitespaces_exact by assumption.
  set (s1 := advance _ (advance 4 s)).
  assert (Hq : _pos s1 = q) by reflexivity.
  unfold bind at 1.
  rewrite (comment_loop_finds d) by (rewrite ?Hq; auto; lia).
  unfold bind at 1. rewrite try_skip_whitespaces_exact by assumption.
  assert (Hws : run is_ws (drop (_pos (advance d s1)) text) = 0).
  { cbn [advance _pos]. rewrite Hq.
    rewrite match_single_rest in Hat. cbn [_pos] in Hat.
    apply bool_decide_eq_true in Hat.
    destruct (drop (q + d) text) as [|c t]; [reflexivity|].
    simpl in Hat. injection Hat as Hc _.
    apply lower_char_minus in Hc. subst c. reflexivity. }
  rewrite Hws.
  rewrite skip_match_exact by (cbn [advance _pos]; rewrite Hq; lia).
  assert (Hm2 : ParserBase._match_single text (str "-->") false
                  (advance 0 (advance d s1)) = true).
  { unfold ParserBase._match_single in *. cbn [advance _pos] in *.
    rewrite Hq, Nat.add_0_r. exact Hat. }
  rewrite Hm2.
  cbn [advance _pos _result]. rewrite Hq.
  change (length (str "-->")) with 3.
  destruct (Nat.ltb_spec (_pos s) (q + d + 0 + 3)); [|subst q; lia].
  rewrite Nat.add_0_r. reflexivity.
Qed.

End Comment.

(** X7: the speculative comment rule either records exactly one
    [comment] span, over at least the seven characters of an empty
    comment, or returns [False] with cursor and span list as they were;
    whatever stands inside the comment gets no span of its own. *)
Theorem comment_is_one_span_or_nothing (text : list ascii) (fuel : nat)
    (s : state) :
  length text < fuel ->
  _pos s <= length text ->
  (exists s',
     HTMLParser.__try_parse_comment text fuel s = Ok true s'
     /\ _pos s + 7 <= _pos s' <= length text
     /\ _result s' = _result s ++ [mkElement (_pos s) (_pos s') "comment"])
  \/ HTMLParser.__try_parse_comment text fuel s = Ok false s.
Proof. intros Hfuel Hs. now apply try_parse_comment_cases. Qed.

Lemma comment_is_one_span_or_nothing_witness :
  let text := str "<!-- <div> -->" in
  length text < 15
  /\ _pos (mkState 0 []) <= length text
  /\ ((exists s',
         HTMLParser.__try_parse_comment text 15 (mkState 0 []) = Ok true s'
         /\ _pos (mkState 0 []) + 7 <= _pos s' <= length text
         /\ _result s'
            = _result (mkState 0 [])
              ++ [mkElement (_pos (mkState 0 [])) (_pos s') "comment"])
      \/ HTMLParser.__try_parse_comment text 15 (mkState 0 [])
         = Ok false (mkState 0 [])).
Proof.
  intros text. split; [vm_compute; lia|]. split; [vm_compute; lia|].
  apply (comment_is_one_span_or_nothing text 15 (mkState 0 []));
    vm_compute; lia.
Defined.

(** X8: a comment is recognised up to the first [-->] that stands at or
    after the end of the whitespace following [<!--]: if the text at the
    cursor starts with [<!--] and [d] is the distance from the end of
    that whitespace to the first [-->], the comment rule succeeds and
    records the one span from the cursor to the end of that [-->]. *)
Theorem comment_ends_at_first_terminator (text : list ascii) (fuel : nat)
    (s : state) (d : nat) :
  length text < fuel ->
  _pos s <= length text ->
  ParserBase._match_single text (str "<!--") false s = true ->
  let q := _pos s + 4
           + run (fun c => char_in c HTMLParser.WHITESPACES)
               (drop (_pos s + 4) text) in
  ParserBase._match_single text (str "-->") false (mkState (q + d) [])
  = true ->
  (forall i, i < d ->
     ParserBase._match_single text (str "-->") false (mkState (q + i) [])
     = false) ->
  HTMLParser.__try_parse_comment text fuel s
  = Ok true
      (mkState (q + d + 3)
         (_result s ++ [mkElement (_pos s) (q + d + 3) "comment"])).
Proof. intros Hfuel. now apply try_parse_comment_finds. Qed.

Lemma comment_ends_at_first_terminator_witness :
  let text := str "<!-- a --> b -->" in
  HTMLParser.__try_parse_comment text 17 (mkState 0 [])
  = Ok true (mkState 10 [mkElement 0 10 "comment"]).
Proof.
  intros text.
  apply (comment_ends_at_first_terminator text 17 (mkState 0 []) 2).
  - vm_compute. lia.
  - vm_compute. lia.
  - vm_compute. reflexivity.
  - vm_compute. reflexivity.
  - intros i Hi. destruct i as [|[|i]]; [vm_compute; reflexivity..|lia].
Defined.

(** ** The position converter against a direct line and column count *)

(** Line and column after reading the characters of [t] from line
    [line], column [col]: a newline starts the next line at column 0. *)
Fixpoint scan_line_col (t : list ascii) (line col : Z) : Z * Z :=
  match t with
  | [] => (line, col)
  | c :: t' =>
      if bool_decide (c = HTMLParser.newline)
      then scan_line_col t' (line + 1)%Z 0%Z
      else scan_line_col t' line (col + 1)%Z
  end.

(** The offset that [convert] maps to [line] and [col]. *)
Definition offset_of (n_sizes : list Z) (line col : Z) : Z :=
  (total_length (take (Z.to_nat (line - 1)) n_sizes) + col)%Z.

Lemma first_line_length_gt cur (t : list ascii) :
  match line_lengths_from cur t with
  | [] => True
  | x :: _ => (cur < x)%Z
  end.
Proof.
  revert cur. induction t as [|c t IH]; intros cur; simpl; [exact I|].
  destruct (bool_decide (c = HTMLParser.newline)); [lia|].
  specialize (IH (cur + 1)%Z).
  destruct (line_lengths_from (cur + 1) t); [exact I|lia].
Qed.

Lemma convert_loop_scan (t : list ascii) :
  forall cur line i,
    i <= length t ->
    PositionConverter.convert_loop (line_lengths_from cur t) line
      (cur + Z.of_nat i)%Z
    = scan_line_col (take i t) line cur.
Proof.
  induction t as [|c t IH]; intros cur line i Hi.
  - simpl in Hi. replace i with 0 by lia. simpl. f_equal. lia.
  - destruct i as [|i].
    + pose proof (first_line_length_gt cur (c :: t)) as H.
      change (Z.of_nat 0) with 0%Z. rewrite Z.add_0_r.
      cbn [take scan_line_col firstn].
      destruct (line_lengths_from cur (c :: t)) as [|x sizes];
        cbn [PositionConverter.convert_loop]; [reflexivity|].
      now destruct (Z.leb_spec x cur); [lia|].
    + simpl in Hi.
      cbn [take firstn scan_line_col line_lengths_from].
      destruct (bool_decide (c = HTMLParser.newline)).
      * cbn [PositionConverter.convert_loop].
        destruct (Z.leb_spec (cur + 1) (cur + Z.of_nat (S i))); [|lia].
        rewrite <- (IH 0%Z (line + 1)%Z i) by lia. f_equal. lia.
      * rewrite <- (IH (cur + 1)%Z line i) by lia. f_equal. lia.
Qed.

(** X9: for every offset inside the text (or at its end), the pair that
    [convert] prints is the line, counted from 1, and the column,
    counted from 0, that a character-by-character count of the newlines
    before the offset gives. *)
Theorem convert_counts_lines (text : list ascii) (index : nat) :
  index <= length text ->
  exists n_sizes,
    PositionConverter.new text = Some n_sizes
    /\ PositionConverter.convert_loop n_sizes 1 (Z.of_nat index)
       = scan_line_col (take index text) 1 0
    /\ PositionConverter.convert n_sizes (Z.of_nat index)
       = (let '(line, col) := scan_line_col (take index text) 1 0 in
          PositionConverter.format_int line ++ "."
          ++ PositionConverter.format_int col)%string.
Proof.
  intros Hi. exists (line_lengths text).
  assert (Hloop : PositionConverter.convert_loop (line_lengths text) 1
                    (Z.of_nat index)
                  = scan_line_col (take index text) 1 0).
  { rewrite <- (convert_loop_scan text 0%Z 1%Z index Hi). reflexivity. }
  split; [|split; [exact Hloop|]].
  - unfold PositionConverter.new.
    change (-1)%Z with (Z.of_nat 0 - 1)%Z.
    rewrite init_loop_spec by lia. reflexivity.
  - unfold PositionConverter.convert. now rewrite Hloop.
Qed.

Lemma convert_counts_lines_witness :
  let text := str "ab" ++ [HTMLParser.newline] ++ str "cd" in
  4 <= length text
  /\ exists n_sizes,
       PositionConverter.new text = Some n_sizes
       /\ PositionConverter.convert_loop n_sizes 1 (Z.of_nat 4)
          = scan_line_col (take 4 text) 1 0
       /\ PositionConverter.convert n_sizes (Z.of_nat 4)
          = (let '(line, col) := scan_line_col (take 4 text) 1 0 in
             PositionConverter.format_int line ++ "."
             ++ PositionConverter.format_int col)%string.
Proof.
  intros text. split; [vm_compute; lia|].
  apply (convert_counts_lines text 4). vm_compute. lia.
Defined.

(** X10: the offset can be recovered from the line and column that
    [convert] computes, whatever the table and the offset (negative and
    out-of-range offsets included): add the lengths of the lines before
    the line to the column.  So two different offsets never get the same
    line and column. *)
Theorem convert_round_trip (n_sizes : list Z) (index : Z) :
  offset_of n_sizes
    (PositionConverter.convert_loop n_sizes 1 index).1
    (PositionConverter.convert_loop n_sizes 1 index).2
  = index
  /\ forall index',
       PositionConverter.convert_loop n_sizes 1 index'
       = PositionConverter.convert_loop n_sizes 1 index ->
       index' = index.
Proof.
  assert (H : forall i,
            offset_of n_sizes
              (PositionConverter.convert_loop n_sizes 1 i).1
              (PositionConverter.convert_loop n_sizes 1 i).2 = i).
  { intros i. destruct (convert_loop_spec n_sizes 1%Z i) as (k & _ & -> & _).
    unfold offset_of. simpl.
    replace (Z.to_nat (1 + Z.of_nat k - 1)) with k by lia. lia. }
  split; [apply H|].
  intros index' Heq. rewrite <- (H index'), Heq. apply H.
Qed.

(** ** What applying the highlight diff gives *)

(** X11: for every category, taking the removed ranges out of the old
    ranges and putting the added ranges in gives exactly the new ranges;
    the diff removes only ranges that are applied and not wanted, and
    adds only ranges that are wanted and not applied. *)
Theorem highlight_diff_converges
    (tags tags_new : gmap string (gset HTMLEditor.range)) (k : string) :
  let old := default ∅ (tags !! k) in
  let new := default ∅ (tags_new !! k) in
  let removed := default ∅ ((HTMLEditor.diff tags tags_new).1 !! k) in
  let added := default ∅ ((HTMLEditor.diff tags tags_new).2 !! k) in
  (old ∖ removed) ∪ added = new
  /\ removed ⊆ old /\ removed ## new
  /\ added ⊆ new /\ added ## old.
Proof.
  intros old new removed added. subst old new removed added.
  destruct (diff_lookup tags tags_new k) as [-> ->].
  unfold to_remove_at, to_add_at.
  destruct (tags !! k) as [old|], (tags_new !! k) as [new|]; simpl;
    (split; [|split; [|split; [|split]]]);
    first
      [ apply set_eq; intros x;
        rewrite ?elem_of_union, ?elem_of_difference, ?elem_of_empty;
        try (destruct (decide (x ∈ old)), (decide (x ∈ new))); tauto
      | apply elem_of_subseteq; intros x;
        rewrite ?elem_of_difference, ?elem_of_empty; tauto
      | apply elem_of_disjoint; intros x;
        rewrite ?elem_of_difference, ?elem_of_empty; tauto ].
Qed.

(** ** Raw content without a recognised close tag *)

Section RawContentEnd.
Variable text : list ascii.
Variable fuel : nat.
Hypothesis Hfuel : length text < fuel.

Local Abbreviation not_lt := (ParserBase._end_filter (str "<")).
Local Abbreviation is_lt := (fun c => bool_decide (c = "<"%char)).

Lemma close_tag_model_no_open o s :
  ParserBase._match_single text (str "</") false (mkState (_pos s) [])
  = false ->
  close_tag_model text o s = Raise s.
Proof.
  intros H. unfold close_tag_model.
  change (ParserBase._match_single text (str "</") false s)
    with (ParserBase._match_single text (str "</") false
            (mkState (_pos s) [])).
  now rewrite H.
Qed.

Lemma raw_content_runs_to_end name n :
  forall s,
    length text - _pos s < n ->
    _pos s <= length text ->
    (forall i, _pos s <= i ->
       ParserBase._match_single text (str "</") false (mkState i [])
       = false) ->
    while_ n (fun _ s => negb (ParserBase._is_end text s))
      (fun _ => HTMLParser.raw_content_turn text fuel name) tt s
    = Ok tt (mkState (length text) (_result s)).
Proof.
  induction n as [|n IH]; intros s Hn Hs Hno; [lia|].
  cbn [while_]. destruct (ParserBase._is_end text s) eqn:He; cbn [negb].
  - unfold ParserBase._is_end in He. apply Nat.leb_le in He.
    replace (length text) with (_pos s) by lia. now destruct s.
  - rewrite (raw_content_turn_exact text fuel Hfuel) by assumption.
    cbv zeta.
    set (s1 := advance (run not_lt (drop (_pos s) text)) s).
    rewrite close_tag_model_no_open by (apply Hno; simpl; lia).
    assert (Hne : drop (_pos s) text <> []).
    { rewrite is_end_rest in He. now destruct (drop (_pos s) text). }
    pose proof (run_then_run text fuel Hfuel not_lt is_lt _ Hne end_filter_lt)
      as Hrun.
    pose proof (run_le not_lt (drop (_pos s) text)) as Hk1.
    pose proof (run_le is_lt (drop (_pos s1) text)) as Hk2.
    rewrite length_drop in Hk1, Hk2.
    assert (Hd : drop (_pos s1) text
                 = drop (run not_lt (drop (_pos s) text))
                     (drop (_pos s) text))
      by (subst s1; apply rest_advance).
    rewrite <- Hd in Hrun.
    assert (Hp1 : _pos s1 = _pos s + run not_lt (drop (_pos s) text))
      by reflexivity.
    rewrite IH.
    + reflexivity.
    + cbn [advance _pos]. lia.
    + cbn [advance _pos]. lia.
    + intros i Hi. apply Hno. cbn [advance _pos] in Hi. lia.
Qed.

Lemma unterminated_raw_rule (name : string) s :
  _pos s <= length text ->
  (forall i, _pos s <= i ->
     ParserBase._match_single text (str "</") false (mkState i []) = false) ->
  (parser_result_updater name (HTMLParser.raw_content text fuel name) ;;
   HTMLParser.__try_parse_close_tag text fuel (Some (str name))) s
  = Ok None
      (mkState (length text)
         (_result s
          ++ (if _pos s <? length text
              then [mkElement (_pos s) (length text) name] else [])
          ++ [mkElement (length text) (length text) "error"])).
Proof.
  intros Hs Hno. unfold bind, parser_result_updater.
  unfold HTMLParser.raw_content.
  rewrite raw_content_runs_to_end by (auto; lia).
  cbn [_pos _result].
  assert (Hclose : forall r,
            HTMLParser.__try_parse_close_tag text fuel (Some (str name))
              (mkState (length text) r)
            = Ok None
                (mkState (length text)
                   (r ++ [mkElement (length text) (length text) "error"]))).
  { intros r. unfold HTMLParser.__try_parse_close_tag, parser_error_handler.
    rewrite (parse_close_tag_exact text fuel Hfuel) by (simpl; lia).
    rewrite close_tag_model_no_open; [reflexivity|].
    apply Hno. simpl. lia. }
  destruct (_pos s <? length text); rewrite Hclose; cbn [_result];
    [now rewrite <- app_assoc|reflexivity].
Qed.

(** One turn of the raw-content loop in front of a run of two or more
    [<] reads the whole run. *)
Lemma raw_content_turn_double_lt name s t :
  _pos s <= length text ->
  drop (_pos s + run not_lt (drop (_pos s) text)) text
  = "<"%char :: "<"%char :: t ->
  HTMLParser.raw_content_turn text fuel name s
  = Ok (Continue tt)
      (advance (run not_lt (drop (_pos s) text) + (2 + run is_lt t)) s).
Proof.
  intros Hs Hr.
  rewrite (raw_content_turn_exact text fuel Hfuel) by assumption. cbv zeta.
  set (k := run not_lt (drop (_pos s) text)) in *.
  assert (Hm : close_tag_model text (Some (str name)) (advance k s)
               = Raise (advance k s)).
  { apply close_tag_model_no_open. rewrite match_single_rest.
    cbn [advance _pos]. rewrite Hr. reflexivity. }
  rewrite Hm. cbn [advance _pos]. rewrite Hr.
  cbn [run]. rewrite !bool_decide_eq_true_2 by reflexivity.
  unfold advance. cbn [_pos _result]. do 2 f_equal. lia.
Qed.

End RawContentEnd.

(** X12: when no [</] stands anywhere from the cursor on, the script or
    style rule reads to the end of the text, so its span (if the body
    is not empty) runs from the cursor to the end, and the close tag
    that [__parse_tag_block] asks for next is recorded as an error span
    of length zero at the end of the text. *)
Theorem unterminated_raw_content_runs_to_end (text : list ascii)
    (fuel : nat) (name : string) (s : state) :
  length text < fuel ->
  In name ["script"; "style"]%string ->
  _pos s <= length text ->
  (forall i, _pos s <= i ->
     ParserBase._match_single text (str "</") false (mkState i []) = false) ->
  ((if bool_decide (Some (str name) = Some (str "script"))
    then HTMLParser.__parse_script text fuel
    else HTMLParser.__parse_style text fuel) ;;
   HTMLParser.__try_parse_close_tag text fuel (Some (str name))) s
  = Ok None
      (mkState (length text)
         (_result s
          ++ (if _pos s <? length text
              then [mkElement (_pos s) (length text) name] else [])
          ++ [mkElement (length text) (length text) "error"])).
Proof.
  intros Hfuel Hname Hs Hno.
  rewrite <- (unterminated_raw_rule text fuel Hfuel name s Hs Hno).
  destruct Hname as [<-|[<-|[]]]; reflexivity.
Qed.

Lemma unterminated_raw_content_runs_to_end_witness :
  let text := str "<style>p { }" in
  (HTMLParser.__parse_style text 13 ;;
   HTMLParser.__try_parse_close_tag text 13 (Some (str "style")))
    (mkState 7 [])
  = Ok None (mkState 12 [mkElement 7 12 "style"; mkElement 12 12 "error"]).
Proof.
  intros text.
  apply (unterminated_raw_content_runs_to_end text 13 "style" (mkState 7 [])).
  - vm_compute. lia.
  - simpl. tauto.
  - vm_compute. lia.
  - intros i Hi. simpl in Hi.
    rewrite match_single_rest. apply bool_decide_eq_false. cbn [_pos].
    do 7 (destruct i as [|i]; [lia|]).
    do 6 (destruct i as [|i]; [vm_compute; discriminate|]).
    rewrite drop_ge by (vm_compute; lia). discriminate.
Defined.

(** X13: in a script or style body, a run of two or more [<] is read as
    content in one turn of the raw-content loop, all of it: the turn
    ends behind the last [<] of the run, at the end of the text or in
    front of a character that is not [<], with the span list left as it
    was.  A close tag whose [<] directly follows another [<] is
    therefore never looked at. *)
Theorem raw_content_swallows_angle_bracket_run (text : list ascii)
    (fuel : nat) (name : string) (s : state) (t : list ascii) :
  length text < fuel ->
  _pos s <= length text ->
  let k := run (ParserBase._end_filter (str "<")) (drop (_pos s) text) in
  drop (_pos s + k) text = "<"%char :: "<"%char :: t ->
  let j := 2 + run (fun c => bool_decide (c = "<"%char)) t in
  HTMLParser.raw_content_turn text fuel name s
  = Ok (Continue tt) (mkState (_pos s + k + j) (_result s))
  /\ match drop (_pos s + k + j) text with
     | [] => True
     | c :: _ => c <> "<"%char
     end.
Proof.
  intros Hfuel Hs k Hr j. split.
  - rewrite (raw_content_turn_double_lt text fuel Hfuel name s t Hs Hr).
    unfold advance. do 2 f_equal. subst k j. lia.
  - subst j.
    replace (_pos s + k + (2 + run (fun c => bool_decide (c = "<"%char)) t))
      with (_pos s + k + 2 + run (fun c => bool_decide (c = "<"%char)) t)
      by lia.
    assert (Ht : drop (_pos s + k + 2) text = t)
      by (rewrite <- drop_drop, Hr; reflexivity).
    rewrite <- drop_drop, Ht.
    pose proof (run_stop (fun c => bool_decide (c = "<"%char)) t) as H.
    destruct (drop _ t) as [|c t']; [exact I|].
    now apply bool_decide_eq_false in H.
Qed.

Lemma raw_content_swallows_angle_bracket_run_witness :
  let text := str "<script>a<<<</script>" in
  HTMLParser.raw_content_turn text 22 "script" (mkState 8 [])
  = Ok (Continue tt) (mkState 13 [])
  /\ HTMLParser.new text
     = Ok tt (mkState 21 [mkElement 1 7 "tag_name"; mkElement 8 21 "script";
                          mkElement 21 21 "error"]).
Proof.
  intros text. split; [|vm_compute; reflexivity].
  apply (raw_content_swallows_angle_bracket_run text 22 "script"
           (mkState 8 []) (str "<</script>")).
  - vm_compute. lia.
  - vm_compute. lia.
  - vm_compute. reflexivity.
Defined.

(** ** Attributes and tags that are well formed *)

Lemma run_app_stop (f : ascii -> bool) (body sfx : list ascii) :
  Forall (fun c => f c = true) body ->
  match sfx with [] => True | c :: _ => f c = false end ->
  run f (body ++ sfx) = length body.
Proof.
  intros Hb Hs. induction Hb as [|c body Hc _ IH]; simpl.
  - destruct sfx as [|c sfx]; [reflexivity|]. simpl. now rewrite Hs.
  - now rewrite Hc, IH.
Qed.

Lemma drop_after (text a b : list ascii) p :
  drop p text = a ++ b -> drop (p + length a) text = b.
Proof.
  intros H. rewrite <- drop_drop, H. apply drop_app_length.
Qed.

Lemma rest_bound (text : list ascii) p c t :
  drop p text = c :: t -> p < length text.
Proof.
  intros H. apply (f_equal (@length ascii)) in H.
  rewrite length_drop in H. simpl in H. lia.
Qed.

Section Steps.
Variable text : list ascii.
Variable fuel : nat.
Hypothesis Hfuel : length text < fuel.

Local Abbreviation is_ws := (fun c => char_in c HTMLParser.WHITESPACES).
Local Abbreviation is_name := (ParserBase._end_filter HTMLParser.name_end).

Lemma step_parse_text f min_one p r body sfx :
  drop p text = body ++ sfx ->
  Forall (fun c => f c = true) body ->
  match sfx with [] => True | c :: _ => f c = false end ->
  (min_one = true -> body <> []) ->
  ParserBase._parse_text text fuel f min_one (mkState p r)
  = Ok body (mkState (p + length body) r).
Proof.
  intros Hr Hb Hs Hne. rewrite parse_text_exact by assumption.
  cbv zeta. cbn [_pos]. rewrite Hr, (run_app_stop f body sfx Hb Hs).
  rewrite take_app_length.
  destruct min_one; cbn [andb]; [|reflexivity].
  destruct body as [|c body]; [now contradiction Hne|reflexivity].
Qed.

Lemma step_skip_whitespaces p r wsr sfx :
  drop p text = wsr ++ sfx ->
  Forall (fun c => is_ws c = true) wsr ->
  match sfx with [] => True | c :: _ => is_ws c = false end ->
  ParserBase._try_skip_whitespaces text HTMLParser.WHITESPACES fuel
    (mkState p r)
  = Ok tt (mkState (p + length wsr) r).
Proof.
  intros Hr Hb Hs. rewrite try_skip_whitespaces_exact by assumption.
  cbn [_pos]. now rewrite Hr, (run_app_stop is_ws wsr sfx Hb Hs).
Qed.

Lemma step_no_whitespace p r c sfx :
  drop p text = c :: sfx -> is_ws c = false ->
  ParserBase._try_skip_whitespaces text HTMLParser.WHITESPACES fuel
    (mkState p r)
  = Ok tt (mkState p r).
Proof.
  intros Hr Hc.
  rewrite (step_skip_whitespaces p r [] (c :: sfx)); auto.
  cbn [length]. now rewrite Nat.add_0_r.
Qed.

Lemma step_match lit p r sfx :
  drop p text = lit ++ sfx ->
  ParserBase._match_single text lit false (mkState p r) = true.
Proof.
  intros Hr. rewrite match_single_rest. cbn [_pos].
  rewrite Hr, take_app_length. now apply bool_decide_eq_true.
Qed.

Lemma step_skip_match lit p r sfx :
  lit <> [] ->
  drop p text = lit ++ sfx ->
  ParserBase._skip_match text lit false (mkState p r)
  = Ok tt (mkState (p + length lit) r).
Proof.
  intros Hne Hr.
  assert (Hp : p <= length text).
  { destruct lit as [|c lit]; [now contradiction Hne|].
    apply rest_bound in Hr. lia. }
  rewrite skip_match_exact by exact Hp.
  now rewrite (step_match lit p r sfx Hr).
Qed.

Lemma ltb_advance p n : n <> 0 -> (p <? p + n) = true.
Proof. intros H. apply Nat.ltb_lt. lia. Qed.

Lemma is_name_true c : c ∉ HTMLParser.name_end -> is_name c = true.
Proof.
  intros H. unfold ParserBase._end_filter, char_in.
  now rewrite bool_decide_eq_false_2.
Qed.

(** A name at the cursor, ended by a character that cannot be part of a
    name, is read whole and recorded under the given category. *)
Lemma step_name t p r name c sfx :
  drop p text = name ++ c :: sfx ->
  name <> [] ->
  Forall (fun c => c ∉ HTMLParser.name_end) name ->
  c ∈ HTMLParser.name_end ->
  parser_result_updater t (HTMLParser.__skip_name text fuel) (mkState p r)
  = Ok name
      (mkState (p + length name)
         (r ++ [mkElement p (p + length name) t])).
Proof.
  intros Hr Hne Hname Hc. unfold parser_result_updater.
  unfold HTMLParser.__skip_name.
  rewrite (step_parse_text is_name true p r name (c :: sfx)); auto.
  - cbn [_pos _result]. rewrite ltb_advance; [reflexivity|].
    destruct name; [now contradiction Hne|discriminate].
  - eapply Forall_impl; [exact Hname|]. intros x. apply is_name_true.
  - unfold ParserBase._end_filter, char_in.
    now rewrite bool_decide_eq_true_2.
Qed.

Lemma try_parse_tag_param_quoted p r name value post :
  drop p text
  = name ++ str "=" ++ [HTMLParser.dquote] ++ value
    ++ [HTMLParser.dquote] ++ post ->
  name <> [] ->
  Forall (fun c => c ∉ HTMLParser.name_end) name ->
  Forall (fun c => c <> HTMLParser.dquote) value ->
  HTMLParser.__try_parse_tag_param text fuel (mkState p r)
  = Ok tt
      (mkState (p + length name + 1 + (length value + 2) + run is_ws post)
         (r ++ [mkElement p (p + length name) "tag_param_name";
                mkElement (p + length name + 1)
                  (p + length name + 1 + (length value + 2))
                  "tag_param_value"])).
Proof.
  intros Hr Hne Hname Hvalue.
  set (p1 := p + length name).
  assert (Hr1 : drop p1 text
                = str "=" ++ [HTMLParser.dquote] ++ value
                  ++ [HTMLParser.dquote] ++ post)
    by (apply (drop_after text name); exact Hr).
  assert (Hr2 : drop (p1 + 1) text
                = [HTMLParser.dquote] ++ value ++ [HTMLParser.dquote] ++ post)
    by (apply (drop_after text (str "=")); exact Hr1).
  assert (Hr3 : drop (p1 + 1 + 1) text
                = value ++ [HTMLParser.dquote] ++ post)
    by (apply (drop_after text [HTMLParser.dquote]); exact Hr2).
  assert (Hr4 : drop (p1 + 1 + 1 + length value) text
                = [HTMLParser.dquote] ++ post)
    by (apply (drop_after text value); exact Hr3).
  assert (Hr5 : drop (p1 + 1 + 1 + length value + 1) text = post)
    by (apply (drop_after text [HTMLParser.dquote]); exact Hr4).
  unfold HTMLParser.__try_parse_tag_param.
  unfold bind at 1. unfold HTMLParser.__parse_tag_param_name.
  rewrite (step_name "tag_param_name" p r name "="%char
             ([HTMLParser.dquote] ++ value ++ [HTMLParser.dquote] ++ post));
    auto; [|vm_compute; set_solver].
  fold p1. set (r1 := r ++ [mkElement p p1 "tag_param_name"]).
  unfold bind at 1.
  rewrite (step_no_whitespace p1 r1 "="%char _ Hr1) by reflexivity.
  rewrite match_one, (step_match (str "=") p1 r1 _ Hr1).
  unfold bind at 1.
  rewrite (step_skip_match (str "=") p1 r1 _ ltac:(discriminate) Hr1).
  change (length (str "=")) with 1.
  unfold bind at 1.
  rewrite (step_no_whitespace (p1 + 1) r1 HTMLParser.dquote _ Hr2)
    by reflexivity.
  unfold bind at 1.
  assert (Hval :
    HTMLParser.__parse_tag_param_value text fuel (mkState (p1 + 1) r1)
    = Ok ([HTMLParser.dquote] ++ value ++ [HTMLParser.dquote])
        (mkState (p1 + 1 + 1 + length value + 1)
           (r1 ++ [mkElement (p1 + 1) (p1 + 1 + 1 + length value + 1)
                     "tag_param_value"]))).
  { unfold HTMLParser.__parse_tag_param_value, parser_result_updater.
    unfold HTMLParser.__skip_value.
    rewrite match_one, (step_match [HTMLParser.dquote] (p1 + 1) r1 _ Hr2).
    unfold bind at 1.
    rewrite (step_skip_match [HTMLParser.dquote] (p1 + 1) r1 _
               ltac:(discriminate) Hr2).
    change (length [HTMLParser.dquote]) with 1.
    unfold bind at 1.
    rewrite (step_parse_text (ParserBase._end_filter [HTMLParser.dquote])
               false (p1 + 1 + 1) r1 value
               ([HTMLParser.dquote] ++ post) Hr3);
      [|eapply Forall_impl; [exact Hvalue|]; intros x Hx;
        unfold ParserBase._end_filter, char_in;
        rewrite bool_decide_eq_false_2; [reflexivity|];
        rewrite list_elem_of_singleton; exact Hx
       |reflexivity|discriminate].
    unfold bind at 1.
    rewrite (step_skip_match [HTMLParser.dquote] _ r1 _
               ltac:(discriminate) Hr4).
    change (length [HTMLParser.dquote]) with 1.
    cbn [ret _pos _result].
    rewrite (proj2 (Nat.ltb_lt _ _)) by lia. reflexivity. }
  rewrite Hval.
  rewrite try_skip_whitespaces_exact by assumption. cbn [_pos advance].
  rewrite Hr5. cbn [_result]. subst r1 p1.
  rewrite <- app_assoc. cbn [app]. unfold advance. cbn [_pos _result].
  replace (p + length name + 1 + 1 + length value + 1)
    with (p + length name + 1 + (length value + 2)) by lia.
  reflexivity.
Qed.

Lemma lower_char_slash c : lower_char c = "/"%char -> c = "/"%char.
Proof.
  destruct c as [[] [] [] [] [] [] [] []]; vm_compute; intros H;
    first [reflexivity|discriminate].
Qed.

Lemma while_exit {L} n (cond : L -> state -> bool) (body : L -> M (flow L))
    l s :
  0 < n -> cond l s = false -> while_ n cond body l s = Ok l s.
Proof. intros Hn Hc. destruct n; [lia|]. simpl. now rewrite Hc. Qed.

Lemma name_char_not_ws c : c ∉ HTMLParser.name_end -> is_ws c = false.
Proof.
  intros H. unfold char_in. apply bool_decide_eq_false. intros Hw.
  apply H. unfold HTMLParser.name_end.
  rewrite !elem_of_app. auto.
Qed.

(** An attribute list in front of [>] or [/>] is empty. *)
Lemma step_no_params p r c sfx :
  drop p text = c :: sfx -> is_ws c = false ->
  ParserBase._match text [str "/>"; str ">"] false (mkState p r) = true ->
  HTMLParser.__try_parse_tag_params text fuel (mkState p r)
  = Ok (Some tt) (mkState p r).
Proof.
  intros Hr Hc Hm.
  unfold HTMLParser.__try_parse_tag_params, parser_error_handler.
  unfold bind at 1. rewrite (step_no_whitespace p r c sfx Hr Hc).
  rewrite while_exit; [reflexivity|lia|].
  rewrite Hm. apply andb_false_r.
Qed.

(** What [<], a name and the (empty) attribute list leave behind, as
    the open tag and the self-closing tag both start. *)
Lemma step_tag_head {B} p r name c sfx (k : list ascii -> M B) :
  drop p text = str "<" ++ name ++ c :: sfx ->
  name <> [] ->
  Forall (fun c => c ∉ HTMLParser.name_end) name ->
  c ∈ HTMLParser.name_end -> is_ws c = false ->
  ParserBase._match text [str "/>"; str ">"] false
    (mkState (p + 1 + length name)
       (r ++ [mkElement (p + 1) (p + 1 + length name) "tag_name"]))
  = true ->
  (ParserBase._skip_match text (str "<") false ;;
   ParserBase._try_skip_whitespaces text HTMLParser.WHITESPACES fuel ;;
   name <- HTMLParser.__parse_tag_name text fuel ;;
   ParserBase._try_skip_whitespaces text HTMLParser.WHITESPACES fuel ;;
   HTMLParser.__try_parse_tag_params text fuel ;;
   k name) (mkState p r)
  = k name
      (mkState (p + 1 + length name)
         (r ++ [mkElement (p + 1) (p + 1 + length name) "tag_name"])).
Proof.
  intros Hr Hne Hname Hc Hws Hm.
  assert (Hr1 : drop (p + 1) text = name ++ c :: sfx)
    by (apply (drop_after text (str "<")); exact Hr).
  assert (Hr2 : drop (p + 1 + length name) text = c :: sfx)
    by (apply (drop_after text name); exact Hr1).
  unfold bind at 1.
  rewrite (step_skip_match (str "<") p r _ ltac:(discriminate) Hr).
  change (length (str "<")) with 1.
  destruct name as [|n0 name'] eqn:En; [now contradiction Hne|].
  unfold bind at 1.
  rewrite (step_no_whitespace (p + 1) r n0 _ Hr1)
    by (apply name_char_not_ws; now inversion Hname).
  unfold bind at 1. unfold HTMLParser.__parse_tag_name.
  rewrite (step_name "tag_name" (p + 1) r (n0 :: name') c sfx Hr1
             ltac:(discriminate) Hname Hc).
  unfold bind at 1.
  rewrite (step_no_whitespace _ _ c sfx Hr2 Hws).
  unfold bind at 1.
  rewrite (step_no_params _ _ c sfx Hr2 Hws Hm).
  reflexivity.
Qed.

Lemma slash_name_end : "/"%char ∈ HTMLParser.name_end.
Proof. apply (bool_decide_unpack _). vm_compute. exact I. Qed.

Lemma gt_name_end : ">"%char ∈ HTMLParser.name_end.
Proof. apply (bool_decide_unpack _). vm_compute. exact I. Qed.

Lemma skip_match_fails lit s :
  ParserBase._match_single text lit false s = false ->
  ParserBase._skip_match text lit false s = Raise s.
Proof.
  intros H. unfold ParserBase._skip_match. now rewrite match_one, H.
Qed.

Lemma no_close_tag_at_name p r c sfx :
  drop p text = "<"%char :: c :: sfx -> c ∉ HTMLParser.name_end ->
  ParserBase._match_single text (str "</") false (mkState p r) = false.
Proof.
  intros Hr Hc. rewrite match_single_rest. cbn [_pos]. rewrite Hr.
  apply bool_decide_eq_false. intros H. simpl in H.
  injection H as H. apply lower_char_slash in H. subst c.
  apply Hc, slash_name_end.
Qed.

Lemma match_end_of_tag p r lit sfx :
  lit = str "/>" \/ lit = str ">" ->
  drop p text = lit ++ sfx ->
  ParserBase._match text [str "/>"; str ">"] false (mkState p r) = true.
Proof.
  intros Hl Hr. unfold ParserBase._match. cbn [existsb].
  destruct Hl as [->| ->]; rewrite (step_match _ p r sfx Hr);
    [reflexivity|apply orb_true_r].
Qed.

Lemma parse_tag_block_open p r name post :
  drop p text = str "<" ++ name ++ str ">" ++ post ->
  name <> [] ->
  Forall (fun c => c ∉ HTMLParser.name_end) name ->
  name <> str "script" -> name <> str "style" ->
  HTMLParser.__parse_tag_block text fuel (mkState p r)
  = Ok (Some tt)
      (mkState (p + 1 + length name + 1)
         (r ++ [mkElement (p + 1) (p + 1 + length name) "tag_name"])).
Proof.
  intros Hr Hne Hname Hscript Hstyle.
  assert (Hr2 : drop (p + 1 + length name) text = str ">" ++ post).
  { apply (drop_after text name). apply (drop_after text (str "<")).
    exact Hr. }
  pose proof (match_end_of_tag (p + 1 + length name)
                (r ++ [mkElement (p + 1) (p + 1 + length name) "tag_name"])
                (str ">") post ltac:(now right) Hr2) as Hm.
  unfold HTMLParser.__parse_tag_block, parser_error_handler.
  rewrite match_one.
  destruct name as [|n0 name'] eqn:En; [now contradiction Hne|].
  rewrite (no_close_tag_at_name p r n0 _ Hr) by (now inversion Hname).
  rewrite <- En in *. clear En.
  unfold bind at 1.
  unfold HTMLParser.__try_parse_open_and_close_tag, parser_restorer.
  rewrite (step_tag_head p r name ">"%char post
             (fun _ => ParserBase._skip_match text (str "/>") false)
             Hr Hne Hname gt_name_end eq_refl Hm).
  rewrite skip_match_fails.
  2:{ rewrite match_single_rest. cbn [_pos]. rewrite Hr2.
      apply bool_decide_eq_false. intros H. simpl in H. discriminate. }
  cbn [_pos _result]. unfold bind at 1.
  unfold HTMLParser.__try_parse_open_tag, parser_error_handler.
  rewrite (step_tag_head p r name ">"%char post
             (fun name => ParserBase._skip_match text (str ">") false ;;
                          ret name)
             Hr Hne Hname gt_name_end eq_refl Hm).
  unfold bind at 1.
  rewrite (step_skip_match (str ">") _ _ post ltac:(discriminate) Hr2).
  cbn [ret]. unfold bind at 1.
  rewrite bool_decide_eq_false_2; [reflexivity|].
  rewrite !elem_of_cons. intros [[= H]|[[= H]|H]];
    [now apply Hscript|now apply Hstyle|].
  now apply elem_of_nil in H.
Qed.

Lemma parse_tag_block_self_closing p r name post :
  drop p text = str "<" ++ name ++ str "/>" ++ post ->
  name <> [] ->
  Forall (fun c => c ∉ HTMLParser.name_end) name ->
  HTMLParser.__parse_tag_block text fuel (mkState p r)
  = Ok (Some tt)
      (mkState (p + 1 + length name + 2)
         (r ++ [mkElement (p + 1) (p + 1 + length name) "tag_name"])).
Proof.
  intros Hr Hne Hname.
  assert (Hr2 : drop (p + 1 + length name) text = str "/>" ++ post).
  { apply (drop_after text name). apply (drop_after text (str "<")).
    exact Hr. }
  pose proof (match_end_of_tag (p + 1 + length name)
                (r ++ [mkElement (p + 1) (p + 1 + length name) "tag_name"])
                (str "/>") post ltac:(now left) Hr2) as Hm.
  unfold HTMLParser.__parse_tag_block, parser_error_handler.
  rewrite match_one.
  destruct name as [|n0 name'] eqn:En; [now contradiction Hne|].
  rewrite (no_close_tag_at_name p r n0 _ Hr) by (now inversion Hname).
  rewrite <- En in *. clear En.
  unfold bind at 1.
  unfold HTMLParser.__try_parse_open_and_close_tag, parser_restorer.
  rewrite (step_tag_head p r name "/"%char (str ">" ++ post)
             (fun _ => ParserBase._skip_match text (str "/>") false)
             Hr Hne Hname slash_name_end eq_refl Hm).
  rewrite (step_skip_match (str "/>") _ _ post ltac:(discriminate) Hr2).
  reflexivity.
Qed.

Lemma parse_tag_block_close p r name post :
  drop p text = str "</" ++ name ++ str ">" ++ post ->
  name <> [] ->
  Forall (fun c => c ∉ HTMLParser.name_end) name ->
  HTMLParser.__parse_tag_block text fuel (mkState p r)
  = Ok (Some tt)
      (mkState (p + 2 + length name + 1)
         (r ++ [mkElement (p + 2) (p + 2 + length name) "tag_name"])).
Proof.
  intros Hr Hne Hname.
  assert (Hr1 : drop (p + 2) text = name ++ str ">" ++ post)
    by (apply (drop_after text (str "</")); exact Hr).
  assert (Hr2 : drop (p + 2 + length name) text = str ">" ++ post)
    by (apply (drop_after text name); exact Hr1).
  unfold HTMLParser.__parse_tag_block, parser_error_handler.
  rewrite match_one, (step_match (str "</") p r _ Hr).
  unfold bind at 1.
  unfold HTMLParser.__try_parse_close_tag, parser_error_handler.
  unfold HTMLParser.__parse_close_tag.
  unfold bind at 1.
  rewrite (step_skip_match (str "</") p r _ ltac:(discriminate) Hr).
  change (length (str "</")) with 2.
  destruct name as [|n0 name'] eqn:En; [now contradiction Hne|].
  unfold bind at 1.
  rewrite (step_no_whitespace (p + 2) r n0 _ Hr1)
    by (apply name_char_not_ws; now inversion Hname).
  unfold bind at 1. unfold HTMLParser.__parse_tag_name.
  rewrite (step_name "tag_name" (p + 2) r (n0 :: name') ">"%char post Hr1
             ltac:(discriminate) Hname gt_name_end).
  unfold bind at 1. cbn [ret]. unfold bind at 1.
  rewrite (step_no_whitespace _ _ ">"%char post Hr2 eq_refl).
  rewrite (step_skip_match (str ">") _ _ post ltac:(discriminate) Hr2).
  reflexivity.
Qed.

Lemma step_match_any_case lit lit' p r sfx :
  drop p text = lit ++ sfx ->
  lower lit = lower lit' ->
  ParserBase._match_single text lit' false (mkState p r) = true.
Proof.
  intros Hr Hl. rewrite match_single_rest. cbn [_pos].
  assert (Hlen : length lit' = length lit).
  { apply (f_equal (@length ascii)) in Hl. unfold lower in Hl.
    now rewrite !length_map in Hl. }
  rewrite Hlen, Hr, take_app_length. now apply bool_decide_eq_true.
Qed.

Lemma try_parse_doctype_well_formed p r kw wsr body post :
  drop p text = kw ++ wsr ++ body ++ str ">" ++ post ->
  lower kw = str "<!doctype" ->
  wsr <> [] -> Forall (fun c => c ∈ HTMLParser.WHITESPACES) wsr ->
  body <> [] -> Forall (fun c => c <> ">"%char) body ->
  (forall c, head body = Some c -> c ∉ HTMLParser.WHITESPACES) ->
  HTMLParser.__try_parse_doctype text fuel (mkState p r)
  = Ok true
      (mkState (p + 9 + length wsr + length body + 1)
         (r ++ [mkElement p (p + 9 + length wsr + length body + 1)
                  "doctype"])).
Proof.
  intros Hr Hkw Hwne Hws Hbne Hbody Hhead.
  assert (Hklen : length kw = 9).
  { apply (f_equal (@length ascii)) in Hkw. unfold lower in Hkw.
    now rewrite length_map in Hkw. }
  assert (Hr1 : drop (p + 9) text = wsr ++ body ++ str ">" ++ post)
    by (rewrite <- Hklen; apply (drop_after text kw); exact Hr).
  assert (Hr2 : drop (p + 9 + length wsr) text = body ++ str ">" ++ post)
    by (apply (drop_after text wsr); exact Hr1).
  assert (Hr3 : drop (p + 9 + length wsr + length body) text
                = str ">" ++ post)
    by (apply (drop_after text body); exact Hr2).
  assert (Hp : p <= length text).
  { destruct kw; [discriminate|]. apply rest_bound in Hr. lia. }
  unfold HTMLParser.__try_parse_doctype, parser_restorer,
    parser_result_updater.
  unfold bind at 1. rewrite skip_match_exact by exact Hp.
  rewrite (step_match_any_case kw (str "<!doctype") p r _ Hr)
    by (now rewrite Hkw).
  change (length (str "<!doctype")) with 9.
  change (advance 9 (mkState p r)) with (mkState (p + 9) r).
  unfold bind at 1. unfold ParserBase._skip_whitespaces.
  destruct wsr as [|w wsr'] eqn:Ew; [now contradiction Hwne|].
  assert (Hcan : ParserBase._can_skip_whitespace text HTMLParser.WHITESPACES
                   (mkState (p + 9) r) = true).
  { unfold ParserBase._can_skip_whitespace.
    rewrite is_end_rest, char_rest. cbn [_pos]. rewrite Hr1. simpl.
    unfold char_in. apply bool_decide_eq_true. now inversion Hws. }
  rewrite Hcan. cbn [negb].
  rewrite (step_skip_whitespaces (p + 9) r (w :: wsr')
             (body ++ str ">" ++ post) Hr1).
  2:{ eapply Forall_impl; [exact Hws|]. intros c Hc. unfold char_in.
      now apply bool_decide_eq_true. }
  2:{ destruct body as [|b body']; [now contradiction Hbne|]. simpl.
      unfold char_in. apply bool_decide_eq_false. now apply Hhead. }
  unfold bind at 1.
  rewrite (step_parse_text (ParserBase._end_filter (str ">")) true _ r body
             (str ">" ++ post) Hr2).
  2:{ eapply Forall_impl; [exact Hbody|]. intros c Hc.
      unfold ParserBase._end_filter, char_in.
      rewrite bool_decide_eq_false_2; [reflexivity|].
      intros Hin. change (str ">") with [">"%char] in Hin.
      now apply list_elem_of_singleton in Hin. }
  2:{ reflexivity. }
  2:{ intros _. exact Hbne. }
  rewrite (step_skip_match (str ">") _ r post ltac:(discriminate) Hr3).
  change (length (str ">")) with 1. cbn [_pos _result].
  rewrite (proj2 (Nat.ltb_lt _ _)) by lia. reflexivity.
Qed.

End Steps.

(** X14: an open tag [<name>] at the cursor, for a name other than
    [script] and [style], is read through its [>] and leaves exactly one
    [tag_name] span, over the name: the span recorded by the failed
    attempt at a self-closing tag is rolled back, not kept twice. *)
Theorem open_tag_records_its_name (pre name post : list ascii)
    (fuel : nat) (r : list ParserElement) :
  let text := pre ++ str "<" ++ name ++ str ">" ++ post in
  let p := length pre in
  length text < fuel ->
  name <> [] ->
  Forall (fun c => c ∉ HTMLParser.name_end) name ->
  name <> str "script" -> name <> str "style" ->
  HTMLParser.__parse_tag_block text fuel (mkState p r)
  = Ok (Some tt)
      (mkState (p + 1 + length name + 1)
         (r ++ [mkElement (p + 1) (p + 1 + length name) "tag_name"])).
Proof.
  intros text p Hfuel Hne Hname Hscript Hstyle.
  apply (parse_tag_block_open text fuel Hfuel p r name post); auto.
  apply drop_app_length.
Qed.

Lemma open_tag_records_its_name_witness :
  HTMLParser.__parse_tag_block (str "a<div>b") 8 (mkState 1 [])
  = Ok (Some tt) (mkState 6 [mkElement 2 5 "tag_name"]).
Proof.
  apply (open_tag_records_its_name (str "a") (str "div") (str "b") 8 []).
  - vm_compute. lia.
  - discriminate.
  - repeat constructor; apply (bool_decide_unpack _); vm_compute; exact I.
  - discriminate.
  - discriminate.
Defined.

(** X15: a self-closing tag [<name/>] at the cursor is read by the
    speculative rule, through its [/>], and leaves exactly one
    [tag_name] span. *)
Theorem self_closing_tag_records_its_name (pre name post : list ascii)
    (fuel : nat) (r : list ParserElement) :
  let text := pre ++ str "<" ++ name ++ str "/>" ++ post in
  let p := length pre in
  length text < fuel ->
  name <> [] ->
  Forall (fun c => c ∉ HTMLParser.name_end) name ->
  HTMLParser.__parse_tag_block text fuel (mkState p r)
  = Ok (Some tt)
      (mkState (p + 1 + length name + 2)
         (r ++ [mkElement (p + 1) (p + 1 + length name) "tag_name"])).
Proof.
  intros text p Hfuel Hne Hname.
  apply (parse_tag_block_self_closing text fuel Hfuel p r name post); auto.
  apply drop_app_length.
Qed.

Lemma self_closing_tag_records_its_name_witness :
  HTMLParser.__parse_tag_block (str "<br/>") 6 (mkState 0 [])
  = Ok (Some tt) (mkState 5 [mkElement 1 3 "tag_name"]).
Proof.
  apply (self_closing_tag_records_its_name [] (str "br") [] 6 []).
  - vm_compute. lia.
  - discriminate.
  - repeat constructor; apply (bool_decide_unpack _); vm_compute; exact I.
Defined.

(** X16: a close tag [</name>] at the cursor is read through its [>] and
    leaves exactly one [tag_name] span; no open tag is asked for, so a
    close tag on its own is not an error. *)
Theorem close_tag_records_its_name (pre name post : list ascii)
    (fuel : nat) (r : list ParserElement) :
  let text := pre ++ str "</" ++ name ++ str ">" ++ post in
  let p := length pre in
  length text < fuel ->
  name <> [] ->
  Forall (fun c => c ∉ HTMLParser.name_end) name ->
  HTMLParser.__parse_tag_block text fuel (mkState p r)
  = Ok (Some tt)
      (mkState (p + 2 + length name + 1)
         (r ++ [mkElement (p + 2) (p + 2 + length name) "tag_name"])).
Proof.
  intros text p Hfuel Hne Hname.
  apply (parse_tag_block_close text fuel Hfuel p r name post); auto.
  apply drop_app_length.
Qed.

Lemma close_tag_records_its_name_witness :
  HTMLParser.__parse_tag_block (str "</p>") 5 (mkState 0 [])
  = Ok (Some tt) (mkState 4 [mkElement 2 3 "tag_name"]).
Proof.
  apply (close_tag_records_its_name [] (str "p") [] 5 []).
  - vm_compute. lia.
  - discriminate.
  - repeat constructor; apply (bool_decide_unpack _); vm_compute; exact I.
Defined.

(** X17: an attribute with a quoted value, [name="value"], leaves a
    [tag_param_name] span over the name and a [tag_param_value] span
    that covers the value together with both quotes; the whitespace
    after it is read too. *)
Theorem quoted_attribute_spans (pre name value post : list ascii)
    (fuel : nat) (r : list ParserElement) :
  let text := pre ++ name ++ str "=" ++ [HTMLParser.dquote] ++ value
              ++ [HTMLParser.dquote] ++ post in
  let p := length pre in
  length text < fuel ->
  name <> [] ->
  Forall (fun c => c ∉ HTMLParser.name_end) name ->
  Forall (fun c => c <> HTMLParser.dquote) value ->
  HTMLParser.__try_parse_tag_param text fuel (mkState p r)
  = Ok tt
      (mkState
         (p + length name + 1 + (length value + 2)
          + run (fun c => char_in c HTMLParser.WHITESPACES) post)
         (r ++ [mkElement p (p + length name) "tag_param_name";
                mkElement (p + length name + 1)
                  (p + length name + 1 + (length value + 2))
                  "tag_param_value"])).
Proof.
  intros text p Hfuel Hne Hname Hvalue.
  apply (try_parse_tag_param_quoted text fuel Hfuel p r name value post);
    auto.
  apply drop_app_length.
Qed.

Lemma quoted_attribute_spans_witness :
  HTMLParser.__try_parse_tag_param
    (str "<a id=" ++ [HTMLParser.dquote] ++ str "x y" ++ [HTMLParser.dquote]
     ++ str " >") 14 (mkState 3 [])
  = Ok tt (mkState 12 [mkElement 3 5 "tag_param_name";
                       mkElement 6 11 "tag_param_value"]).
Proof.
  apply (quoted_attribute_spans (str "<a ") (str "id") (str "x y") (str " >")
           14 []).
  - vm_compute. lia.
  - discriminate.
  - repeat constructor; apply (bool_decide_unpack _); vm_compute; exact I.
  - repeat constructor; discriminate.
Defined.

(** ** The body of a doctype *)

Lemma forallb_run (f : ascii -> bool) (t : list ascii) :
  forallb f t = (run f t =? length t).
Proof.
  induction t as [|c t IH]; [reflexivity|]. simpl.
  destruct (f c); simpl; [exact IH|reflexivity].
Qed.

Section DoctypeBody.
Variable text : list ascii.
Variable fuel : nat.
Hypothesis Hfuel : length text < fuel.

Local Abbreviation is_ws := (fun c => char_in c HTMLParser.WHITESPACES).

(** A doctype keyword and whitespace directly followed by the [>]: the
    body is missing and the rule gives up. *)
Lemma try_parse_doctype_no_body p r kw wsr post :
  drop p text = kw ++ wsr ++ str ">" ++ post ->
  lower kw = str "<!doctype" ->
  wsr <> [] -> Forall (fun c => c ∈ HTMLParser.WHITESPACES) wsr ->
  HTMLParser.__try_parse_doctype text fuel (mkState p r)
  = Ok false (mkState p r).
Proof.
  intros Hr Hkw Hwne Hws.
  assert (Hklen : length kw = 9).
  { apply (f_equal (@length ascii)) in Hkw. unfold lower in Hkw.
    now rewrite length_map in Hkw. }
  assert (Hr1 : drop (p + 9) text = wsr ++ str ">" ++ post)
    by (rewrite <- Hklen; apply (drop_after text kw); exact Hr).
  assert (Hr2 : drop (p + 9 + length wsr) text = str ">" ++ post)
    by (apply (drop_after text wsr); exact Hr1).
  assert (Hp : p <= length text).
  { destruct kw; [discriminate|]. apply rest_bound in Hr. lia. }
  unfold HTMLParser.__try_parse_doctype, parser_restorer,
    parser_result_updater.
  unfold bind at 1. rewrite skip_match_exact by exact Hp.
  rewrite (step_match_any_case text kw (str "<!doctype") p r _ Hr)
    by (now rewrite Hkw).
  change (length (str "<!doctype")) with 9.
  change (advance 9 (mkState p r)) with (mkState (p + 9) r).
  unfold bind at 1. unfold ParserBase._skip_whitespaces.
  destruct wsr as [|w wsr'] eqn:Ew; [now contradiction Hwne|].
  assert (Hcan : ParserBase._can_skip_whitespace text HTMLParser.WHITESPACES
                   (mkState (p + 9) r) = true).
  { unfold ParserBase._can_skip_whitespace.
    rewrite is_end_rest, char_rest. cbn [_pos]. rewrite Hr1. simpl.
    unfold char_in. apply bool_decide_eq_true. now inversion Hws. }
  rewrite Hcan. cbn [negb].
  rewrite (step_skip_whitespaces text fuel Hfuel (p + 9) r (w :: wsr')
             (str ">" ++ post) Hr1).
  2:{ eapply Forall_impl; [exact Hws|]. intros c Hc. unfold char_in.
      now apply bool_decide_eq_true. }
  2:{ reflexivity. }
  unfold bind at 1.
  rewrite parse_text_exact by assumption. cbv zeta. cbn [_pos].
  rewrite Hr2. reflexivity.
Qed.

Lemma try_parse_doctype_body p r kw wsr body post :
  drop p text = kw ++ wsr ++ body ++ str ">" ++ post ->
  lower kw = str "<!doctype" ->
  wsr <> [] -> Forall (fun c => c ∈ HTMLParser.WHITESPACES) wsr ->
  Forall (fun c => c <> ">"%char) body ->
  HTMLParser.__try_parse_doctype text fuel (mkState p r)
  = if forallb is_ws body
    then Ok false (mkState p r)
    else Ok true
           (mkState (p + 9 + length wsr + length body + 1)
              (r ++ [mkElement p (p + 9 + length wsr + length body + 1)
                       "doctype"])).
Proof.
  intros Hr Hkw Hwne Hws Hbody.
  set (j := run is_ws body).
  pose proof (run_le is_ws body) as Hj. fold j in Hj.
  assert (Hwsr' : Forall (fun c => c ∈ HTMLParser.WHITESPACES)
                    (wsr ++ take j body)).
  { apply Forall_app. split; [exact Hws|].
    eapply Forall_impl; [apply (run_take_forall is_ws body)|].
    intros c Hc. unfold char_in in Hc. now apply bool_decide_eq_true in Hc. }
  assert (Hne' : wsr ++ take j body <> [])
    by (destruct wsr; [now contradiction Hwne|discriminate]).
  assert (Hr' : drop p text
                = kw ++ (wsr ++ take j body) ++ drop j body ++ str ">" ++ post).
  { rewrite Hr. rewrite <- (take_drop j body) at 1.
    now rewrite <- !app_assoc. }
  rewrite forallb_run. fold j.
  destruct (Nat.eqb_spec j (length body)) as [Hall|Hpart].
  - rewrite Hall, drop_all in Hr'.
    apply (try_parse_doctype_no_body p r kw (wsr ++ take (length body) body)
             post Hr' Hkw); rewrite <- Hall; assumption.
  - assert (Hlen : length (wsr ++ take j body) + length (drop j body)
                   = length wsr + length body).
    { rewrite length_app, length_take, length_drop. lia. }
    rewrite (try_parse_doctype_well_formed text fuel Hfuel p r kw
               (wsr ++ take j body) (drop j body) post Hr' Hkw Hne' Hwsr').
    + do 2 f_equal; [lia|]. do 3 f_equal. lia.
    + intros H. apply (f_equal (@length ascii)) in H.
      rewrite length_drop in H. simpl in H. lia.
    + now apply Forall_drop.
    + intros c Hc.
      pose proof (run_stop is_ws body) as Hstop. fold j in Hstop.
      destruct (drop j body) as [|c' t']; [discriminate|].
      injection Hc as <-. unfold char_in in Hstop.
      now apply bool_decide_eq_false in Hstop.
Qed.

End DoctypeBody.

(** X18: at a doctype keyword in any letter case that is followed by
    whitespace and then, up to the next [>], by a body without [>], the
    doctype rule succeeds exactly when the body holds a character that
    is not whitespace, and then records exactly one [doctype] span from
    the cursor through the [>]; when the body is empty or whitespace
    only, the rule returns [False] with cursor and span list as they
    were. *)
Theorem doctype_is_recognised_in_any_case
    (pre kw wsr body post : list ascii) (fuel : nat)
    (r : list ParserElement) :
  let text := pre ++ kw ++ wsr ++ body ++ str ">" ++ post in
  let p := length pre in
  length text < fuel ->
  lower kw = str "<!doctype" ->
  wsr <> [] -> Forall (fun c => c ∈ HTMLParser.WHITESPACES) wsr ->
  Forall (fun c => c <> ">"%char) body ->
  HTMLParser.__try_parse_doctype text fuel (mkState p r)
  = if forallb (fun c => char_in c HTMLParser.WHITESPACES) body
    then Ok false (mkState p r)
    else Ok true
           (mkState (p + 9 + length wsr + length body + 1)
              (r ++ [mkElement p (p + 9 + length wsr + length body + 1)
                       "doctype"])).
Proof.
  intros text p Hfuel Hkw Hwne Hws Hbody.
  apply (try_parse_doctype_body text fuel Hfuel p r kw wsr body post); auto.
  apply drop_app_length.
Qed.

Lemma doctype_is_recognised_in_any_case_witness :
  HTMLParser.__try_parse_doctype (str "<!DOCTYPE  html><p>") 20 (mkState 0 [])
  = Ok true (mkState 16 [mkElement 0 16 "doctype"])
  /\ HTMLParser.__try_parse_doctype (str "<!doctype   >") 14 (mkState 0 [])
     = Ok false (mkState 0 []).
Proof.
  split.
  - apply (doctype_is_recognised_in_any_case [] (str "<!DOCTYPE") (str " ")
             (str " html") (str "<p>") 20 []).
    + vm_compute. lia.
    + vm_compute. reflexivity.
    + discriminate.
    + repeat constructor; apply (bool_decide_unpack _); vm_compute; exact I.
    + repeat constructor; discriminate.
  - apply (doctype_is_recognised_in_any_case [] (str "<!doctype") (str " ")
             (str "  ") [] 14 []).
    + vm_compute. lia.
    + vm_compute. reflexivity.
    + discriminate.
    + repeat constructor; apply (bool_decide_unpack _); vm_compute; exact I.
    + repeat constructor; discriminate.
Defined.

(** ** The parser and the position converter together *)

(** X19: the ends of every span of a full parse lie inside the text, so
    the position converter built from the same text maps each of them to
    the line and column that a character-by-character count gives. *)
Theorem span_ends_convert_to_line_and_column (text : list ascii) :
  exists spans n_sizes,
    HTMLParser.result text = Some spans
    /\ PositionConverter.new text = Some n_sizes
    /\ Forall
         (fun e =>
            PositionConverter.convert_loop n_sizes 1 (Z.of_nat (l e))
            = scan_line_col (take (l e) text) 1 0
            /\ PositionConverter.convert_loop n_sizes 1 (Z.of_nat (r e))
               = scan_line_col (take (r e) text) 1 0)
         spans.
Proof.
  destruct (new_ok text) as (s & Hs & _ & Hf).
  exists (_result s), (line_lengths text).
  split; [unfold HTMLParser.result; now rewrite Hs|]. split.
  - unfold PositionConverter.new.
    change (-1)%Z with (Z.of_nat 0 - 1)%Z.
    rewrite init_loop_spec by lia. reflexivity.
  - eapply Forall_impl; [exact Hf|].
    intros e (_ & Hlr & Hr & _). split.
    + rewrite <- (convert_loop_scan text 0%Z 1%Z (l e)) by lia. reflexivity.
    + rewrite <- (convert_loop_scan text 0%Z 1%Z (r e)) by lia. reflexivity.
Qed.

(** ** Text without markup *)

Lemma run_all (f : ascii -> bool) (t : list ascii) :
  Forall (fun c => f c = true) t -> run f t = length t.
Proof.
  intros H. rewrite <- (app_nil_r t) at 1. now apply run_app_stop.
Qed.

Lemma run_after_run (f : ascii -> bool) (t : list ascii) :
  run f (drop (run f t) t) = 0.
Proof.
  pose proof (run_stop f t) as H.
  destruct (drop (run f t) t) as [|c t']; [reflexivity|].
  simpl. now rewrite H.
Qed.

Lemma parse_plain_text (text : list ascii) (fuel : nat) :
  length text < fuel ->
  Forall (fun c => c <> "<"%char) text ->
  let k := run (fun c => char_in c HTMLParser.WHITESPACES) text in
  HTMLParser._parse text fuel (mkState 0 [])
  = Ok tt
      (mkState (length text)
         (if k <? length text then [mkElement k (length text) "text"]
          else [])).
Proof.
  intros Hfuel Hplain k.
  assert (Hchar : forall s, ParserBase._char text s <> Some "<"%char).
  { intros s H. unfold ParserBase._char in H. apply nth_error_In in H.
    apply list_elem_of_In in H.
    rewrite Forall_forall in Hplain. now apply (Hplain _ H). }
  assert (Hk : k <= length text) by apply run_le.
  unfold HTMLParser._parse. cbn [_pos].
  unfold bind at 1. rewrite try_skip_whitespaces_exact by assumption.
  change (advance _ (mkState 0 [])) with (mkState k []).
  unfold bind at 1.
  unfold HTMLParser.__try_parse_doctype, parser_restorer,
    parser_result_updater.
  unfold bind at 1.
  rewrite (skip_match_fails text)
    by (apply (match_not_lt text (str "!doctype")), Hchar).
  cbn [_pos _result].
  unfold bind at 1. rewrite try_skip_whitespaces_exact by assumption.
  cbn [_pos].
  assert (H0 : run (fun c => char_in c HTMLParser.WHITESPACES) (drop k text)
               = 0) by apply run_after_run.
  rewrite H0.
  change (advance 0 (mkState k [])) with (mkState (k + 0) []).
  rewrite Nat.add_0_r.
  unfold bind at 1.
  unfold HTMLParser.__try_parse_user_text, parser_result_updater.
  unfold bind at 1. rewrite parse_text_exact by assumption.
  cbv zeta. cbn [andb ret _pos].
  rewrite run_all.
  2:{ apply Forall_drop. eapply Forall_impl; [exact Hplain|].
      intros c Hc. unfold ParserBase._end_filter, char_in.
      rewrite bool_decide_eq_false_2; [reflexivity|].
      intros Hin. change (str "<") with ["<"%char] in Hin.
      now apply list_elem_of_singleton in Hin. }
  rewrite length_drop. unfold advance. cbn [_pos _result].
  replace (k + (length text - k)) with (length text) by lia.
  unfold HTMLParser.__try_parse_tag_blocks.
  destruct (k <? length text); cbn [app];
    (rewrite (while_exit text fuel Hfuel);
    [reflexivity|lia|unfold ParserBase._is_end; cbn [_pos];
     rewrite Nat.leb_refl; reflexivity]).
Qed.

(** X20: a text without any [<] is one [text] span from the end of its
    leading whitespace to its end; an empty text or one of whitespace
    only gives no span at all. *)
Theorem plain_text_is_one_span (html_text : list ascii) :
  Forall (fun c => c <> "<"%char) html_text ->
  let k := run (fun c => char_in c HTMLParser.WHITESPACES) html_text in
  HTMLParser.result html_text
  = Some (if k <? length html_text
          then [mkElement k (length html_text) "text"] else []).
Proof.
  intros Hplain k. unfold HTMLParser.result, HTMLParser.new.
  now rewrite (parse_plain_text html_text (S (length html_text))
                 (Nat.lt_succ_diag_r _) Hplain).
Qed.

Lemma plain_text_is_one_span_witness :
  HTMLParser.result (str "  hello") = Some [mkElement 2 7 "text"]
  /\ HTMLParser.result [] = Some [].
Proof.
  split.
  - apply (plain_text_is_one_span (str "  hello")).
    repeat constructor; discriminate.
  - apply (plain_text_is_one_span []). constructor.
Defined.

(** ** Tags that are not well formed *)

Lemma lower_char_gt c : lower_char c = ">"%char -> c = ">"%char.
Proof.
  destruct c as [[] [] [] [] [] [] [] []]; vm_compute; intros H;
    first [reflexivity|discriminate].
Qed.

Section Malformed.
Variable text : list ascii.
Variable fuel : nat.
Hypothesis Hfuel : length text < fuel.

Local Abbreviation is_ws := (fun c => char_in c HTMLParser.WHITESPACES).
Local Abbreviation is_name := (ParserBase._end_filter HTMLParser.name_end).

(** A name at the cursor that runs to the end of the text or to a
    character that cannot be part of a name. *)
Lemma step_name_any t p r name sfx :
  drop p text = name ++ sfx ->
  name <> [] ->
  Forall (fun c => c ∉ HTMLParser.name_end) name ->
  match sfx with [] => True | c :: _ => c ∈ HTMLParser.name_end end ->
  parser_result_updater t (HTMLParser.__skip_name text fuel) (mkState p r)
  = Ok name
      (mkState (p + length name)
         (r ++ [mkElement p (p + length name) t])).
Proof.
  intros Hr Hne Hname Hc.
  unfold parser_result_updater, HTMLParser.__skip_name.
  rewrite (step_parse_text text fuel Hfuel is_name true p r name sfx); auto.
  - cbn [_pos _result]. rewrite (proj2 (Nat.ltb_lt _ _)); [reflexivity|].
    destruct name; [now contradiction Hne|simpl; lia].
  - eapply Forall_impl; [exact Hname|]. intros x. apply is_name_true.
  - destruct sfx as [|c sfx]; [exact I|].
    unfold ParserBase._end_filter, char_in.
    now rewrite bool_decide_eq_true_2.
Qed.

(** Where no name starts, the name rule raises and leaves the state as
    it was. *)
Lemma step_no_name t p r :
  match drop p text with
  | [] => True
  | c :: _ => c ∈ HTMLParser.name_end
  end ->
  parser_result_updater t (HTMLParser.__skip_name text fuel) (mkState p r)
  = Raise (mkState p r).
Proof.
  intros Hc. unfold parser_result_updater, HTMLParser.__skip_name.
  rewrite parse_text_exact by assumption. cbv zeta. cbn [_pos].
  destruct (drop p text) as [|c sfx]; [reflexivity|].
  simpl. unfold ParserBase._end_filter, char_in.
  rewrite bool_decide_eq_true_2 by assumption. reflexivity.
Qed.

Lemma step_tag_head_no_name {B} p r wsr post (k : list ascii -> M B) :
  drop p text = str "<" ++ wsr ++ post ->
  Forall (fun c => c ∈ HTMLParser.WHITESPACES) wsr ->
  match post with
  | [] => True
  | c :: _ => c ∈ HTMLParser.name_end /\ c ∉ HTMLParser.WHITESPACES
  end ->
  (ParserBase._skip_match text (str "<") false ;;
   ParserBase._try_skip_whitespaces text HTMLParser.WHITESPACES fuel ;;
   name <- HTMLParser.__parse_tag_name text fuel ;;
   k name) (mkState p r)
  = Raise (mkState (p + 1 + length wsr) r).
Proof.
  intros Hr Hws Hpost.
  assert (Hr1 : drop (p + 1) text = wsr ++ post)
    by (apply (drop_after text (str "<")); exact Hr).
  assert (Hr2 : drop (p + 1 + length wsr) text = post)
    by (apply (drop_after text wsr); exact Hr1).
  unfold bind at 1.
  rewrite (step_skip_match text fuel Hfuel (str "<") p r _
             ltac:(discriminate) Hr).
  change (length (str "<")) with 1.
  unfold bind at 1.
  rewrite (step_skip_whitespaces text fuel Hfuel (p + 1) r wsr post Hr1).
  2:{ eapply Forall_impl; [exact Hws|]. intros c Hc. unfold char_in.
      now apply bool_decide_eq_true. }
  2:{ destruct post as [|c post']; [exact I|]. unfold char_in.
      apply bool_decide_eq_false. apply Hpost. }
  unfold bind at 1. unfold HTMLParser.__parse_tag_name.
  rewrite step_no_name; [reflexivity|].
  rewrite Hr2. destruct post; [exact I|apply Hpost].
Qed.

Lemma parse_tag_block_no_name p r wsr post :
  drop p text = str "<" ++ wsr ++ post ->
  Forall (fun c => c ∈ HTMLParser.WHITESPACES) wsr ->
  match post with
  | [] => True
  | c :: _ => c ∈ HTMLParser.name_end /\ c ∉ HTMLParser.WHITESPACES
  end ->
  head (wsr ++ post) <> Some "/"%char ->
  HTMLParser.__parse_tag_block text fuel (mkState p r)
  = Ok (Some tt)
      (mkState (p + 1 + length wsr)
         (r ++ [mkElement p (p + 1 + length wsr) "error"])).
Proof.
  intros Hr Hws Hpost Hslash.
  unfold HTMLParser.__parse_tag_block, parser_error_handler.
  rewrite match_one.
  assert (Hm : ParserBase._match_single text (str "</") false (mkState p r)
               = false).
  { rewrite match_single_rest. cbn [_pos]. rewrite Hr.
    apply bool_decide_eq_false. intros H.
    destruct (wsr ++ post) as [|c t]; [discriminate|].
    simpl in H. injection H as H. apply lower_char_slash in H.
    now subst c. }
  rewrite Hm. unfold bind at 1.
  unfold HTMLParser.__try_parse_open_and_close_tag, parser_restorer.
  rewrite (step_tag_head_no_name p r wsr post
             (fun _ =>
                ParserBase._try_skip_whitespaces text HTMLParser.WHITESPACES
                  fuel ;;
                HTMLParser.__try_parse_tag_params text fuel ;;
                ParserBase._skip_match text (str "/>") false)
             Hr Hws Hpost).
  cbn [_pos _result]. unfold bind at 1.
  unfold HTMLParser.__try_parse_open_tag, parser_error_handler.
  rewrite (step_tag_head_no_name p r wsr post
             (fun name =>
                ParserBase._try_skip_whitespaces text HTMLParser.WHITESPACES
                  fuel ;;
                HTMLParser.__try_parse_tag_params text fuel ;;
                ParserBase._skip_match text (str ">") false ;;
                ret name)
             Hr Hws Hpost).
  cbn [_pos _result].
  rewrite bool_decide_eq_false_2; [reflexivity|].
  rewrite !elem_of_cons. intros [[= H]|[[= H]|H]].
  now apply elem_of_nil in H.
Qed.


Lemma lower_char_dquote c :
  lower_char c = HTMLParser.dquote -> c = HTMLParser.dquote.
Proof.
  destruct c as [[] [] [] [] [] [] [] []]; vm_compute; intros H;
    first [reflexivity|discriminate].
Qed.

Lemma is_end_at_end p r :
  drop p text = [] -> ParserBase._is_end text (mkState p r) = true.
Proof.
  intros H. apply (f_equal (@length ascii)) in H.
  rewrite length_drop in H. simpl in H.
  unfold ParserBase._is_end. cbn [_pos]. apply Nat.leb_le. lia.
Qed.

Lemma no_match_at_end lit p r :
  lit <> [] -> drop p text = [] ->
  ParserBase._match_single text lit false (mkState p r) = false.
Proof.
  intros Hne H. rewrite match_single_rest. cbn [_pos]. rewrite H.
  apply bool_decide_eq_false. rewrite take_nil.
  destruct lit; [now contradiction Hne|discriminate].
Qed.

(** At the end of the text the attribute list is empty. *)
Lemma step_params_at_end p r :
  drop p text = [] ->
  HTMLParser.__try_parse_tag_params text fuel (mkState p r)
  = Ok (Some tt) (mkState p r).
Proof.
  intros Hr.
  unfold HTMLParser.__try_parse_tag_params, parser_error_handler.
  unfold bind at 1.
  rewrite (step_skip_whitespaces text fuel Hfuel p r [] []);
    [|now rewrite Hr|constructor|exact I].
  cbn [length]. rewrite Nat.add_0_r.
  rewrite (while_exit text fuel Hfuel); [reflexivity|lia|].
  now rewrite (is_end_at_end p r Hr).
Qed.

(** What [<], a name and the whitespace after it leave behind, whatever
    the attribute list after them does. *)
Lemma step_tag_head_any {B} p r name wsr sfx (k : list ascii -> M B) o s' :
  drop p text = str "<" ++ name ++ wsr ++ sfx ->
  name <> [] ->
  Forall (fun c => c ∉ HTMLParser.name_end) name ->
  Forall (fun c => c ∈ HTMLParser.WHITESPACES) wsr ->
  match wsr ++ sfx with [] => True | c :: _ => c ∈ HTMLParser.name_end end ->
  match sfx with [] => True | c :: _ => c ∉ HTMLParser.WHITESPACES end ->
  HTMLParser.__try_parse_tag_params text fuel
    (mkState (p + 1 + length name + length wsr)
       (r ++ [mkElement (p + 1) (p + 1 + length name) "tag_name"]))
  = Ok o s' ->
  (ParserBase._skip_match text (str "<") false ;;
   ParserBase._try_skip_whitespaces text HTMLParser.WHITESPACES fuel ;;
   name <- HTMLParser.__parse_tag_name text fuel ;;
   ParserBase._try_skip_whitespaces text HTMLParser.WHITESPACES fuel ;;
   HTMLParser.__try_parse_tag_params text fuel ;;
   k name) (mkState p r)
  = k name s'.
Proof.
  intros Hr Hne Hname Hws Hend Hsfx Hparams.
  assert (Hr1 : drop (p + 1) text = name ++ wsr ++ sfx)
    by (apply (drop_after text (str "<")); exact Hr).
  assert (Hr2 : drop (p + 1 + length name) text = wsr ++ sfx)
    by (apply (drop_after text name); exact Hr1).
  unfold bind at 1.
  rewrite (step_skip_match text fuel Hfuel (str "<") p r _
             ltac:(discriminate) Hr).
  change (length (str "<")) with 1.
  destruct name as [|n0 name'] eqn:En; [now contradiction Hne|].
  unfold bind at 1.
  rewrite (step_no_whitespace text fuel Hfuel (p + 1) r n0 _ Hr1)
    by (apply name_char_not_ws; now inversion Hname).
  unfold bind at 1. unfold HTMLParser.__parse_tag_name.
  rewrite (step_name_any "tag_name" (p + 1) r (n0 :: name') (wsr ++ sfx) Hr1
             ltac:(discriminate) Hname Hend).
  unfold bind at 1.
  rewrite (step_skip_whitespaces text fuel Hfuel _ _ wsr sfx Hr2).
  2:{ eapply Forall_impl; [exact Hws|]. intros c Hc. unfold char_in.
      now apply bool_decide_eq_true. }
  2:{ destruct sfx as [|c sfx']; [exact I|]. unfold char_in.
      now apply bool_decide_eq_false. }
  unfold bind at 1. now rewrite Hparams.
Qed.

Lemma parse_tag_block_unterminated p r name wsr :
  drop p text = str "<" ++ name ++ wsr ->
  name <> [] ->
  Forall (fun c => c ∉ HTMLParser.name_end) name ->
  Forall (fun c => c ∈ HTMLParser.WHITESPACES) wsr ->
  HTMLParser.__parse_tag_block text fuel (mkState p r)
  = Ok (Some tt)
      (mkState (p + 1 + length name + length wsr)
         (r ++ [mkElement (p + 1) (p + 1 + length name) "tag_name";
                mkElement p (p + 1 + length name + length wsr) "error"])).
Proof.
  intros Hr Hne Hname Hws.
  assert (Hr' : drop p text = str "<" ++ name ++ wsr ++ [])
    by (now rewrite app_nil_r).
  assert (Hr3 : drop (p + 1 + length name + length wsr) text = []).
  { apply (drop_after text wsr). rewrite app_nil_r.
    apply (drop_after text name). apply (drop_after text (str "<")).
    exact Hr. }
  assert (Hend : match wsr ++ [] with
                 | [] => True
                 | c :: _ => c ∈ HTMLParser.name_end
                 end).
  { rewrite app_nil_r. destruct Hws as [|c wsr' Hc _]; [exact I|].
    unfold HTMLParser.name_end. rewrite !elem_of_app. auto. }
  set (r1 := r ++ [mkElement (p + 1) (p + 1 + length name) "tag_name"]).
  pose proof (step_params_at_end (p + 1 + length name + length wsr) r1 Hr3)
    as Hparams.
  assert (Hm : ParserBase._match_single text (str "</") false (mkState p r)
               = false).
  { destruct Hname as [|n0 name' Hn0 _]; [now contradiction Hne|].
    apply (no_close_tag_at_name text p r n0 (name' ++ wsr) Hr Hn0). }
  unfold HTMLParser.__parse_tag_block, parser_error_handler.
  rewrite match_one, Hm.
  unfold bind at 1.
  unfold HTMLParser.__try_parse_open_and_close_tag, parser_restorer.
  rewrite (step_tag_head_any p r name wsr []
             (fun _ => ParserBase._skip_match text (str "/>") false)
             (Some tt) _ Hr' Hne Hname Hws Hend I Hparams).
  rewrite (skip_match_fails text)
    by (apply (no_match_at_end (str "/>") _ _ ltac:(discriminate) Hr3)).
  cbn [_pos _result]. unfold bind at 1.
  unfold HTMLParser.__try_parse_open_tag, parser_error_handler.
  rewrite (step_tag_head_any p r name wsr []
             (fun name => ParserBase._skip_match text (str ">") false ;;
                          ret name)
             (Some tt) _ Hr' Hne Hname Hws Hend I Hparams).
  unfold bind at 1.
  rewrite (skip_match_fails text)
    by (apply (no_match_at_end (str ">") _ _ ltac:(discriminate) Hr3)).
  cbn [_pos _result].
  rewrite bool_decide_eq_false_2.
  2:{ rewrite !elem_of_cons. intros [[= H]|[[= H]|H]].
      now apply elem_of_nil in H. }
  subst r1. rewrite <- app_assoc. reflexivity.
Qed.


Lemma while_raise_first {L} n (cond : L -> state -> bool)
    (body : L -> M (flow L)) l s s' :
  0 < n -> cond l s = true -> body l s = Raise s' ->
  while_ n cond body l s = Raise s'.
Proof. intros Hn Hc Hb. destruct n; [lia|]. simpl. now rewrite Hc, Hb. Qed.

(** An attribute whose [=] is not followed by a value: the name is
    recorded, then the value rule raises behind the [=]. *)
Lemma try_parse_tag_param_missing_value q r pname sfx :
  drop q text = pname ++ str "=" ++ sfx ->
  pname <> [] ->
  Forall (fun c => c ∉ HTMLParser.name_end) pname ->
  match sfx with
  | [] => True
  | c :: _ => c ∈ HTMLParser.name_end /\ c <> HTMLParser.dquote
              /\ c ∉ HTMLParser.WHITESPACES
  end ->
  HTMLParser.__try_parse_tag_param text fuel (mkState q r)
  = Raise
      (mkState (q + length pname + 1)
         (r ++ [mkElement q (q + length pname) "tag_param_name"])).
Proof.
  intros Hr Hne Hname Hsfx.
  set (q1 := q + length pname).
  assert (Hr1 : drop q1 text = str "=" ++ sfx)
    by (apply (drop_after text pname); exact Hr).
  assert (Hr2 : drop (q1 + 1) text = sfx)
    by (apply (drop_after text (str "=")); exact Hr1).
  unfold HTMLParser.__try_parse_tag_param.
  unfold bind at 1. unfold HTMLParser.__parse_tag_param_name.
  rewrite (step_name text fuel Hfuel "tag_param_name" q r pname "="%char sfx);
    auto; [|vm_compute; set_solver].
  fold q1. set (r1 := r ++ [mkElement q q1 "tag_param_name"]).
  unfold bind at 1.
  rewrite (step_no_whitespace text fuel Hfuel q1 r1 "="%char _ Hr1)
    by reflexivity.
  rewrite match_one, (step_match text (str "=") q1 r1 _ Hr1).
  unfold bind at 1.
  rewrite (step_skip_match text fuel Hfuel (str "=") q1 r1 _
             ltac:(discriminate) Hr1).
  change (length (str "=")) with 1.
  unfold bind at 1.
  rewrite (step_skip_whitespaces text fuel Hfuel (q1 + 1) r1 [] sfx);
    [|exact Hr2|constructor
     |destruct sfx; [exact I|]; unfold char_in; apply bool_decide_eq_false;
      apply Hsfx].
  cbn [length]. rewrite Nat.add_0_r.
  unfold bind at 1.
  assert (Hval :
    HTMLParser.__parse_tag_param_value text fuel (mkState (q1 + 1) r1)
    = Raise (mkState (q1 + 1) r1)).
  { unfold HTMLParser.__parse_tag_param_value, parser_result_updater.
    unfold HTMLParser.__skip_value. rewrite match_one.
    assert (Hq : ParserBase._match_single text [HTMLParser.dquote] false
                   (mkState (q1 + 1) r1) = false).
    { rewrite match_single_rest. cbn [_pos]. rewrite Hr2.
      apply bool_decide_eq_false.
      destruct sfx as [|c sfx']; [discriminate|]. intros H.
      apply (f_equal head) in H. simpl in H. injection H as H.
      apply lower_char_dquote in H. now apply Hsfx. }
    rewrite Hq, parse_text_exact by assumption. cbv zeta. cbn [_pos].
    rewrite Hr2. destruct sfx as [|c sfx']; [reflexivity|].
    simpl. unfold ParserBase._end_filter, char_in.
    rewrite bool_decide_eq_true_2 by apply Hsfx. reflexivity. }
  now rewrite Hval.
Qed.

Lemma no_end_of_tag_at_name q r c sfx :
  drop q text = c :: sfx -> c ∉ HTMLParser.name_end ->
  ParserBase._match text [str "/>"; str ">"] false (mkState q r) = false.
Proof.
  intros Hr Hc. unfold ParserBase._match. cbn [existsb].
  rewrite !match_single_rest. cbn [_pos]. rewrite Hr.
  rewrite !bool_decide_eq_false_2; [reflexivity| |].
  - intros H. apply (f_equal head) in H. simpl in H. injection H as H.
    apply lower_char_gt in H. subst c. apply Hc, gt_name_end.
  - intros H. apply (f_equal head) in H. simpl in H. injection H as H.
    apply lower_char_slash in H. subst c. apply Hc, slash_name_end.
Qed.

Lemma try_parse_tag_params_missing_value q r pname sfx :
  drop q text = pname ++ str "=" ++ sfx ->
  pname <> [] ->
  Forall (fun c => c ∉ HTMLParser.name_end) pname ->
  match sfx with
  | [] => True
  | c :: _ => c ∈ HTMLParser.name_end /\ c <> HTMLParser.dquote
              /\ c ∉ HTMLParser.WHITESPACES
  end ->
  HTMLParser.__try_parse_tag_params text fuel (mkState q r)
  = Ok None
      (mkState (q + length pname + 1)
         (r ++ [mkElement q (q + length pname) "tag_param_name";
                mkElement q (q + length pname + 1) "error"])).
Proof.
  intros Hr Hne Hname Hsfx.
  pose proof (try_parse_tag_param_missing_value q r pname sfx Hr Hne Hname
                Hsfx) as Hparam.
  destruct pname as [|n0 pname'] eqn:En; [now contradiction Hne|].
  assert (Hn0 : n0 ∉ HTMLParser.name_end) by (now inversion Hname).
  rewrite <- En in *.
  assert (Hr0 : drop q text = n0 :: (pname' ++ str "=" ++ sfx))
    by (now rewrite Hr, En).
  unfold HTMLParser.__try_parse_tag_params, parser_error_handler.
  unfold bind at 1.
  rewrite (step_no_whitespace text fuel Hfuel q r n0 _ Hr0)
    by (now apply name_char_not_ws).
  erewrite while_raise_first; [| lia | |unfold bind at 1; now rewrite Hparam].
  - cbn [_pos _result]. now rewrite <- app_assoc.
  - rewrite (no_end_of_tag_at_name q r n0 _ Hr0 Hn0).
    unfold ParserBase._is_end. cbn [_pos negb andb].
    rewrite andb_true_r. apply negb_true_iff, Nat.leb_gt.
    apply (rest_bound text q n0 _ Hr0).
Qed.

Lemma parse_tag_block_missing_value p r name pname post :
  drop p text = str "<" ++ name ++ str " " ++ pname ++ str "=>" ++ post ->
  name <> [] ->
  Forall (fun c => c ∉ HTMLParser.name_end) name ->
  pname <> [] ->
  Forall (fun c => c ∉ HTMLParser.name_end) pname ->
  name <> str "script" -> name <> str "style" ->
  let q := p + 1 + length name + 1 in
  HTMLParser.__parse_tag_block text fuel (mkState p r)
  = Ok (Some tt)
      (mkState (q + length pname + 1 + 1)
         (r ++ [mkElement (p + 1) (p + 1 + length name) "tag_name";
                mkElement q (q + length pname) "tag_param_name";
                mkElement q (q + length pname + 1) "error"])).
Proof.
  intros Hr Hne Hname Hpne Hpname Hscript Hstyle q.
  assert (Hrq : drop q text = pname ++ str "=" ++ str ">" ++ post).
  { apply (drop_after text (str " ")). apply (drop_after text name).
    apply (drop_after text (str "<")). exact Hr. }
  assert (Hr3 : drop (q + length pname + 1) text = str ">" ++ post).
  { apply (drop_after text (str "=")). apply (drop_after text pname).
    exact Hrq. }
  set (r1 := r ++ [mkElement (p + 1) (p + 1 + length name) "tag_name"]).
  pose proof (try_parse_tag_params_missing_value q r1 pname
                (str ">" ++ post) Hrq Hpne Hpname) as Hparams.
  specialize (Hparams ltac:(split; [apply gt_name_end|];
                            split; [discriminate|];
                            apply (bool_decide_unpack _); vm_compute;
                            exact I)).
  assert (Hm : ParserBase._match_single text (str "</") false (mkState p r)
               = false).
  { destruct Hname as [|n0 name' Hn0 _]; [now contradiction Hne|].
    apply (no_close_tag_at_name text p r n0 _ Hr Hn0). }
  assert (Hend : match str " " ++ pname ++ str "=>" ++ post with
                 | [] => True
                 | c :: _ => c ∈ HTMLParser.name_end
                 end).
  { apply (bool_decide_unpack _). vm_compute. exact I. }
  assert (Hsfx : match pname ++ str "=>" ++ post with
                 | [] => True
                 | c :: _ => c ∉ HTMLParser.WHITESPACES
                 end).
  { destruct Hpname as [|n0 pname' Hn0 _]; [now contradiction Hpne|].
    simpl. intros Hw. apply Hn0. unfold HTMLParser.name_end.
    rewrite !elem_of_app. auto. }
  unfold HTMLParser.__parse_tag_block, parser_error_handler.
  rewrite match_one, Hm.
  unfold bind at 1.
  unfold HTMLParser.__try_parse_open_and_close_tag, parser_restorer.
  rewrite (step_tag_head_any p r name (str " ") (pname ++ str "=>" ++ post)
             (fun _ => ParserBase._skip_match text (str "/>") false)
             None _ Hr Hne Hname ltac:(repeat constructor) Hend Hsfx Hparams).
  rewrite (skip_match_fails text).
  2:{ rewrite match_single_rest. cbn [_pos]. rewrite Hr3.
      apply bool_decide_eq_false. discriminate. }
  cbn [_pos _result]. unfold bind at 1.
  unfold HTMLParser.__try_parse_open_tag, parser_error_handler.
  rewrite (step_tag_head_any p r name (str " ") (pname ++ str "=>" ++ post)
             (fun name => ParserBase._skip_match text (str ">") false ;;
                          ret name)
             None _ Hr Hne Hname ltac:(repeat constructor) Hend Hsfx Hparams).
  unfold bind at 1.
  rewrite (step_skip_match text fuel Hfuel (str ">") _ _ post
             ltac:(discriminate) Hr3).
  cbn [ret].
  rewrite bool_decide_eq_false_2.
  2:{ rewrite !elem_of_cons. intros [[= H]|[[= H]|H]];
        [now apply Hscript|now apply Hstyle|].
      now apply elem_of_nil in H. }
  subst r1. rewrite <- app_assoc. reflexivity.
Qed.

(** The lookahead for the close tag of a script or style element
    compares the names as they stand. *)
Lemma try_parse_close_tag2_compares p r open name post :
  drop p text = str "</" ++ name ++ str ">" ++ post ->
  name <> [] ->
  Forall (fun c => c ∉ HTMLParser.name_end) name ->
  open <> [] ->
  HTMLParser.__try_parse_close_tag2 text fuel (Some open) (mkState p r)
  = if bool_decide (open = name)
    then Ok true
           (mkState (p + 2 + length name + 1)
              (r ++ [mkElement (p + 2) (p + 2 + length name) "tag_name"]))
    else Ok false (mkState p r).
Proof.
  intros Hr Hne Hname Hopen.
  assert (Hr1 : drop (p + 2) text = name ++ str ">" ++ post)
    by (apply (drop_after text (str "</")); exact Hr).
  assert (Hr2 : drop (p + 2 + length name) text = str ">" ++ post)
    by (apply (drop_after text name); exact Hr1).
  unfold HTMLParser.__try_parse_close_tag2, parser_restorer.
  unfold HTMLParser.__parse_close_tag.
  unfold bind at 1.
  rewrite (step_skip_match text fuel Hfuel (str "</") p r _
             ltac:(discriminate) Hr).
  change (length (str "</")) with 2.
  unfold bind at 1.
  rewrite (step_skip_whitespaces text fuel Hfuel (p + 2) r []
             (name ++ str ">" ++ post) Hr1 ltac:(constructor)).
  2:{ destruct Hname as [|n0 name' Hn0 _]; [now contradiction Hne|].
      now apply name_char_not_ws. }
  cbn [length]. rewrite Nat.add_0_r.
  unfold bind at 1. unfold HTMLParser.__parse_tag_name.
  rewrite (step_name text fuel Hfuel "tag_name" (p + 2) r name ">"%char post
             Hr1 Hne Hname gt_name_end).
  unfold bind at 1.
  rewrite (bool_decide_eq_false_2 (open = [])) by assumption.
  cbn [negb andb].
  destruct (bool_decide (open = name)); cbn [negb]; [|reflexivity].
  cbn [ret]. unfold bind at 1.
  rewrite (step_no_whitespace text fuel Hfuel _ _ ">"%char post Hr2 eq_refl).
  rewrite (step_skip_match text fuel Hfuel (str ">") _ _ post
             ltac:(discriminate) Hr2).
  reflexivity.
Qed.

Lemma total_if {A} (c : state -> bool) (m1 m2 : M A) :
  total text m1 -> total text m2 ->
  total text (fun s => if c s then m1 s else m2 s).
Proof.
  intros H1 H2 p s Hs. destruct (c s); [apply H1|apply H2]; assumption.
Qed.

(** A tolerant wrapper around a rule that never raises has nothing to
    catch. *)
Lemma handler_of_total {A} (f : M A) s :
  total text f -> inv text s ->
  exists a s',
    parser_error_handler f s = Ok (Some a) s'
    /\ inv text s' /\ _pos s <= _pos s'.
Proof.
  intros Ht Hi. unfold parser_error_handler.
  specialize (Ht (_pos s) s (ge_self text fuel Hfuel s Hi)).
  destruct (f s) as [a s'| s' |]; try contradiction.
  exists a, s'. destruct Ht as [Hi' Hp]. auto.
Qed.

Lemma parse_tag_block_returns s :
  inv text s ->
  exists s',
    HTMLParser.__parse_tag_block text fuel s = Ok (Some tt) s'
    /\ inv text s' /\ _pos s <= _pos s'.
Proof.
  intros Hi. unfold HTMLParser.__parse_tag_block.
  match goal with
  | |- context [parser_error_handler ?f s] =>
      destruct (handler_of_total f s) as ([] & s' & H); [|exact Hi|now exists s']
  end.
  apply total_if.
  - apply total_bind; [now apply total_try_parse_close_tag|intros ?].
    apply total_ret.
  - apply total_bind;
      [now apply total_try_parse_open_and_close_tag|intros [|]];
      [apply total_ret|].
    apply total_bind; [now apply total_try_parse_open_tag|intros tag_name].
    now apply total_raw_element.
Qed.

End Malformed.

(** X21: a [<] at the cursor that is followed, after optional
    whitespace, by the end of the text or by a character that cannot
    start a name (and that is not the [/] of a close tag) is recorded as
    one error span over the [<] and that whitespace; the cursor stops
    behind them. *)
Theorem angle_bracket_without_name_is_error (pre wsr post : list ascii)
    (fuel : nat) (r : list ParserElement) :
  let text := pre ++ str "<" ++ wsr ++ post in
  let p := length pre in
  length text < fuel ->
  Forall (fun c => c ∈ HTMLParser.WHITESPACES) wsr ->
  match post with
  | [] => True
  | c :: _ => c ∈ HTMLParser.name_end /\ c ∉ HTMLParser.WHITESPACES
  end ->
  head (wsr ++ post) <> Some "/"%char ->
  HTMLParser.__parse_tag_block text fuel (mkState p r)
  = Ok (Some tt)
      (mkState (p + 1 + length wsr)
         (r ++ [mkElement p (p + 1 + length wsr) "error"])).
Proof.
  intros text p Hfuel Hws Hpost Hslash.
  apply (parse_tag_block_no_name text fuel Hfuel p r wsr post); auto.
  apply drop_app_length.
Qed.

Lemma angle_bracket_without_name_is_error_witness :
  HTMLParser.__parse_tag_block (str "a< =b") 6 (mkState 1 [])
  = Ok (Some tt) (mkState 3 [mkElement 1 3 "error"]).
Proof.
  apply (angle_bracket_without_name_is_error (str "a") (str " ") (str "=b")
           6 []).
  - vm_compute. lia.
  - repeat constructor; apply (bool_decide_unpack _); vm_compute; exact I.
  - split; apply (bool_decide_unpack _); vm_compute; exact I.
  - discriminate.
Defined.

(** X22: an open tag whose name (and the whitespace after it) runs to
    the end of the text keeps its [tag_name] span and gets an error span
    over the whole of it, from the [<] to the end of the text: the
    tolerant wrapper does not take back what the rule has recorded. *)
Theorem unterminated_open_tag_is_error (pre name wsr : list ascii)
    (fuel : nat) (r : list ParserElement) :
  let text := pre ++ str "<" ++ name ++ wsr in
  let p := length pre in
  length text < fuel ->
  name <> [] ->
  Forall (fun c => c ∉ HTMLParser.name_end) name ->
  Forall (fun c => c ∈ HTMLParser.WHITESPACES) wsr ->
  HTMLParser.__parse_tag_block text fuel (mkState p r)
  = Ok (Some tt)
      (mkState (p + 1 + length name + length wsr)
         (r ++ [mkElement (p + 1) (p + 1 + length name) "tag_name";
                mkElement p (p + 1 + length name + length wsr) "error"])).
Proof.
  intros text p Hfuel Hne Hname Hws.
  apply (parse_tag_block_unterminated text fuel Hfuel p r name wsr); auto.
  apply drop_app_length.
Qed.

Lemma unterminated_open_tag_is_error_witness :
  HTMLParser.__parse_tag_block (str "<div ") 6 (mkState 0 [])
  = Ok (Some tt)
      (mkState 5 [mkElement 1 4 "tag_name"; mkElement 0 5 "error"]).
Proof.
  apply (unterminated_open_tag_is_error [] (str "div") (str " ") 6 []).
  - vm_compute. lia.
  - discriminate.
  - repeat constructor; apply (bool_decide_unpack _); vm_compute; exact I.
  - repeat constructor; apply (bool_decide_unpack _); vm_compute; exact I.
Defined.

(** X23: in an open tag [<name attr=>], where the [=] of the attribute
    is directly followed by the [>], the attribute list is given up
    behind the [=]: the attribute keeps its [tag_param_name] span, an
    error span runs from the attribute to behind the [=], and the tag is
    still read through its [>]. *)
Theorem attribute_without_value_is_error (pre name pname post : list ascii)
    (fuel : nat) (r : list ParserElement) :
  let text := pre ++ str "<" ++ name ++ str " " ++ pname ++ str "=>" ++ post in
  let p := length pre in
  let q := p + 1 + length name + 1 in
  length text < fuel ->
  name <> [] ->
  Forall (fun c => c ∉ HTMLParser.name_end) name ->
  pname <> [] ->
  Forall (fun c => c ∉ HTMLParser.name_end) pname ->
  name <> str "script" -> name <> str "style" ->
  HTMLParser.__parse_tag_block text fuel (mkState p r)
  = Ok (Some tt)
      (mkState (q + length pname + 1 + 1)
         (r ++ [mkElement (p + 1) (p + 1 + length name) "tag_name";
                mkElement q (q + length pname) "tag_param_name";
                mkElement q (q + length pname + 1) "error"])).
Proof.
  intros text p q Hfuel Hne Hname Hpne Hpname Hscript Hstyle.
  apply (parse_tag_block_missing_value text fuel Hfuel p r name pname post);
    auto.
  apply drop_app_length.
Qed.

Lemma attribute_without_value_is_error_witness :
  HTMLParser.__parse_tag_block (str "<a b=>c") 8 (mkState 0 [])
  = Ok (Some tt)
      (mkState 6 [mkElement 1 2 "tag_name"; mkElement 3 4 "tag_param_name";
                  mkElement 3 5 "error"]).
Proof.
  apply (attribute_without_value_is_error [] (str "a") (str "b") (str "c")
           8 []).
  - vm_compute. lia.
  - discriminate.
  - repeat constructor; apply (bool_decide_unpack _); vm_compute; exact I.
  - discriminate.
  - repeat constructor; apply (bool_decide_unpack _); vm_compute; exact I.
  - discriminate.
  - discriminate.
Defined.

(** X24: the lookahead of a script or style body accepts a close tag
    [</name>] exactly when [name] equals the name of the open tag
    character by character, and otherwise puts cursor and span list
    back; unlike the keyword of the doctype, the name is not compared
    up to letter case. *)
Theorem close_tag_lookahead_compares_names_exactly
    (pre open name post : list ascii) (fuel : nat)
    (r : list ParserElement) :
  let text := pre ++ str "</" ++ name ++ str ">" ++ post in
  let p := length pre in
  length text < fuel ->
  name <> [] ->
  Forall (fun c => c ∉ HTMLParser.name_end) name ->
  open <> [] ->
  HTMLParser.__try_parse_close_tag2 text fuel (Some open) (mkState p r)
  = if bool_decide (open = name)
    then Ok true
           (mkState (p + 2 + length name + 1)
              (r ++ [mkElement (p + 2) (p + 2 + length name) "tag_name"]))
    else Ok false (mkState p r).
Proof.
  intros text p Hfuel Hne Hname Hopen.
  apply (try_parse_close_tag2_compares text fuel Hfuel p r open name post);
    auto.
  apply drop_app_length.
Qed.

Lemma close_tag_lookahead_compares_names_exactly_witness :
  HTMLParser.__try_parse_close_tag2 (str "x</SCRIPT>") 11
    (Some (str "script")) (mkState 1 [])
  = Ok false (mkState 1 []).
Proof.
  apply (close_tag_lookahead_compares_names_exactly (str "x") (str "script")
           (str "SCRIPT") [] 11 []).
  - vm_compute. lia.
  - discriminate.
  - repeat constructor; apply (bool_decide_unpack _); vm_compute; exact I.
  - discriminate.
Defined.

(** X25: the tolerant wrapper around [__parse_tag_block] itself never
    has anything to catch: from any state with the cursor inside the
    text and well-formed spans, the wrapped rule returns normally, so
    the block returns its value and not [None], and every error span of
    a tag block comes from one of the tolerant rules it calls. *)
Theorem tag_block_handler_never_fires (text : list ascii) (fuel : nat)
    (s : state) :
  length text < fuel ->
  inv text s ->
  exists s',
    HTMLParser.__parse_tag_block text fuel s = Ok (Some tt) s'
    /\ inv text s' /\ _pos s <= _pos s'.
Proof. intros Hfuel Hi. now apply (parse_tag_block_returns text fuel). Qed.

Lemma tag_block_handler_never_fires_witness :
  exists s',
    HTMLParser.__parse_tag_block (str "<a") 3 (mkState 0 []) = Ok (Some tt) s'
    /\ inv (str "<a") s' /\ 0 <= _pos s'.
Proof.
  apply (tag_block_handler_never_fires (str "<a") 3 (mkState 0 [])).
  - vm_compute. lia.
  - split; [simpl; lia|constructor].
Defined.

(** ** Script and style elements whose close tag the lookahead finds *)

(** A script or style body in which every [<] is followed, inside the
    body, by a character other than [/]: the body holds no [</] and does
    not end in [<]. *)
Fixpoint lt_guarded (t : list ascii) : bool :=
  match t with
  | [] => true
  | c :: t' =>
      (if bool_decide (c = "<"%char)
       then match t' with
            | [] => false
            | d :: _ => negb (bool_decide (d = "/"%char))
            end
       else true)
      && lt_guarded t'
  end.

(** [lt_guarded] in words: no [</] occurs in the body and the body does
    not end in [<]. *)
Lemma lt_guarded_spec (t : list ascii) :
  lt_guarded t = true
  <-> (forall a b, t <> a ++ "<"%char :: "/"%char :: b)
      /\ (forall a, t <> a ++ ["<"%char]).
Proof.
  induction t as [|c t IH].
  - split; [|reflexivity]. intros _.
    split; [intros [|x a] b|intros [|x a]]; discriminate.
  - simpl. rewrite andb_true_iff, IH. split.
    + intros [Hc [H1 H2]]. split.
      * intros [|x a] b H; injection H as -> H.
        -- subst t. vm_compute in Hc. discriminate.
        -- now apply (H1 a b).
      * intros [|x a] H; injection H as -> H.
        -- subst t. vm_compute in Hc. discriminate.
        -- now apply (H2 a).
    + intros [H1 H2]. split.
      * destruct (decide (c = "<"%char)) as [->|Hne];
          [|now rewrite bool_decide_eq_false_2].
        rewrite bool_decide_eq_true_2 by reflexivity.
        destruct t as [|d t]; [now contradiction (H2 [])|].
        apply negb_true_iff, bool_decide_eq_false. intros ->.
        now apply (H1 [] t).
      * split.
        -- intros a b ->. now apply (H1 (c :: a) b).
        -- intros a ->. now apply (H2 (c :: a)).
Qed.

Lemma lt_guarded_app (a b : list ascii) :
  lt_guarded (a ++ b) = true -> lt_guarded b = true.
Proof.
  induction a as [|c a IH]; simpl; [auto|].
  intros H. apply andb_true_iff in H. apply IH, H.
Qed.

Lemma run_app_head (f : ascii -> bool) (a : list ascii) c b :
  f c = false -> run f (a ++ c :: b) = run f a.
Proof.
  intros Hc. induction a as [|x a IH]; simpl; [now rewrite Hc|].
  destruct (f x); [now rewrite IH|reflexivity].
Qed.

Lemma run_app_lt (f : ascii -> bool) (a b : list ascii) :
  run f a < length a -> run f (a ++ b) = run f a.
Proof.
  induction a as [|x a IH]; simpl; [lia|].
  destruct (f x); [|reflexivity]. intros H. rewrite IH; [reflexivity|lia].
Qed.

Lemma run_split (f : ascii -> bool) (t : list ascii) :
  run f t < length t ->
  exists c t2, t = take (run f t) t ++ c :: t2 /\ f c = false.
Proof.
  induction t as [|x t IH]; simpl; [lia|].
  destruct (f x) eqn:E; simpl.
  - intros H. destruct IH as (c & t2 & Ht & Hc); [lia|].
    exists c, t2. split; [f_equal; exact Ht|exact Hc].
  - intros _. exists x, t. split; [reflexivity|exact E].
Qed.

Lemma lt_run_guarded (t : list ascii) :
  lt_guarded t = true -> t <> [] ->
  run (fun c => bool_decide (c = "<"%char)) t < length t.
Proof.
  induction t as [|c t IH]; [congruence|]. intros Hg _. simpl in *.
  apply andb_true_iff in Hg. destruct Hg as [Hc Hg].
  destruct (bool_decide (c = "<"%char)); [|lia].
  destruct t as [|d t]; [discriminate|].
  specialize (IH Hg ltac:(discriminate)). simpl in *. lia.
Qed.

Lemma while_unfold {L} n (cond : L -> state -> bool)
    (body : L -> M (flow L)) l s :
  0 < n -> cond l s = true ->
  while_ n cond body l s
  = match body l s with
    | Ok (Continue l') s' => while_ (pred n) cond body l' s'
    | Ok (Break l') s' => Ok l' s'
    | Raise s' => Raise s'
    | OutOfFuel => OutOfFuel
    end.
Proof. intros Hn Hc. destruct n; [lia|]. simpl. now rewrite Hc. Qed.

Lemma lower_char_bang c : lower_char c = "!"%char -> c = "!"%char.
Proof.
  destruct c as [[] [] [] [] [] [] [] []]; vm_compute; intros H;
    first [reflexivity|discriminate].
Qed.

Section RawElement.
Variable text : list ascii.
Variable fuel : nat.
Hypothesis Hfuel : length text < fuel.

Local Abbreviation is_ws := (fun c => char_in c HTMLParser.WHITESPACES).
Local Abbreviation not_lt := (ParserBase._end_filter (str "<")).
Local Abbreviation is_lt := (fun c => bool_decide (c = "<"%char)).

(** A close tag with the expected name, read from its [</]. *)
Lemma close_tag_model_reads c r nm post :
  drop c text = str "</" ++ nm ++ str ">" ++ post ->
  nm <> [] ->
  Forall (fun x => x ∉ HTMLParser.name_end) nm ->
  close_tag_model text (Some nm) (mkState c r)
  = Ok tt
      (mkState (c + 2 + length nm + 1)
         (r ++ [mkElement (c + 2) (c + 2 + length nm) "tag_name"])).
Proof.
  intros Hr Hne Hname.
  assert (Hc : c <= length text).
  { apply (f_equal (@length ascii)) in Hr. rewrite length_drop in Hr.
    simpl in Hr. lia. }
  rewrite <- (parse_close_tag_exact text fuel Hfuel) by exact Hc.
  pose proof (try_parse_close_tag2_compares text fuel Hfuel c r nm nm post
                Hr Hne Hname Hne) as H.
  rewrite bool_decide_eq_true_2 in H by reflexivity.
  unfold HTMLParser.__try_parse_close_tag2, parser_restorer in H.
  destruct (HTMLParser.__parse_close_tag text fuel (Some nm) (mkState c r))
    as [[] s'| s' |]; [|discriminate..].
  now injection H as ->.
Qed.

(** The raw-content loop, started anywhere in a guarded body, ends at
    the [<] of the close tag; the lookahead that found the close tag
    has left its [tag_name] span. *)
Lemma raw_loop_finds_close (name : string) post n :
  str name <> [] ->
  Forall (fun x => x ∉ HTMLParser.name_end) (str name) ->
  forall body q r,
    length body < n ->
    lt_guarded body = true ->
    drop q text = body ++ str "</" ++ str name ++ str ">" ++ post ->
    while_ n (fun _ s => negb (ParserBase._is_end text s))
      (fun _ => HTMLParser.raw_content_turn text fuel name) tt (mkState q r)
    = Ok tt
        (mkState (q + length body)
           (r ++ [mkElement (q + length body + 2)
                    (q + length body + 2 + length (str name)) "tag_name"])).
Proof.
  intros Hne Hname.
  induction n as [|n IH]; intros body q r Hn Hg Hr; [lia|].
  assert (Hr' : drop q text
                = body ++ "<"%char :: "/"%char :: str name ++ str ">" ++ post)
    by exact Hr.
  assert (Hq : q <= length text).
  { apply (f_equal (@length ascii)) in Hr. rewrite length_drop in Hr.
    rewrite length_app in Hr. simpl in Hr. lia. }
  assert (He : ParserBase._is_end text (mkState q r) = false).
  { rewrite is_end_rest. cbn [_pos]. rewrite Hr'. now destruct body. }
  cbn [while_]. rewrite He. cbn [negb].
  rewrite (raw_content_turn_exact text fuel Hfuel) by exact Hq.
  cbv zeta. cbn [_pos]. rewrite Hr'.
  rewrite (run_app_head not_lt body "<"%char) by reflexivity.
  unfold advance at 1 2 3. cbn [_pos _result].
  pose proof (run_le not_lt body) as Hk.
  destruct (Nat.eq_dec (run not_lt body) (length body)) as [Hall|Hpart].
  - rewrite Hall.
    rewrite (close_tag_model_reads (q + length body) r (str name) post);
      [reflexivity| |assumption|assumption].
    apply (drop_after text body). exact Hr.
  - destruct (run_split not_lt body ltac:(lia)) as (c & t2 & Hb & Hc).
    apply end_filter_lt, bool_decide_eq_true in Hc. subst c.
    set (k := run not_lt body) in *.
    assert (Hlk : length (take k body) = k)
      by (rewrite length_take; lia).
    assert (Hg2 : lt_guarded ("<"%char :: t2) = true)
      by (apply (lt_guarded_app (take k body)); now rewrite <- Hb).
    simpl in Hg2. apply andb_true_iff in Hg2. destruct Hg2 as [Hd Hg2].
    destruct t2 as [|d t3]; [discriminate|].
    apply negb_true_iff, bool_decide_eq_false in Hd.
    assert (Hrk : drop (q + k) text
                  = "<"%char :: (d :: t3) ++ str "</" ++ str name
                    ++ str ">" ++ post).
    { rewrite <- Hlk. apply (drop_after text (take k body)).
      rewrite Hr. rewrite Hb at 1. rewrite <- app_assoc. reflexivity. }
    rewrite close_tag_model_no_open.
    2:{ rewrite match_single_rest. cbn [_pos]. rewrite Hrk.
        apply bool_decide_eq_false. intros H. simpl in H.
        injection H as H. apply lower_char_slash in H. now apply Hd. }
    unfold advance. cbn [_pos _result]. rewrite Hrk. cbn [run].
    rewrite bool_decide_eq_true_2 by reflexivity.
    pose proof (lt_run_guarded (d :: t3) Hg2 ltac:(discriminate)) as Hj.
    rewrite (run_app_lt is_lt (d :: t3)) by exact Hj.
    set (j := run is_lt (d :: t3)) in *.
    unfold advance. cbn [_pos _result].
    assert (Hlj : length (take j (d :: t3)) = j)
      by (rewrite length_take; lia).
    assert (Hlen : length body = k + S (j + length (drop j (d :: t3)))).
    { assert (H2 : length (d :: t3) = j + length (drop j (d :: t3))).
      { rewrite <- (take_drop j (d :: t3)) at 1.
        now rewrite length_app, Hlj. }
      rewrite Hb at 1. rewrite length_app, Hlk.
      change (length ("<"%char :: d :: t3)) with (S (length (d :: t3))).
      now rewrite H2. }
    rewrite (IH (drop j (d :: t3)) (q + k + S j) r).
    + do 2 f_equal; [lia|]. do 2 f_equal. f_equal; lia.
    + lia.
    + apply (lt_guarded_app (take j (d :: t3))). now rewrite take_drop.
    + replace (q + k + S j) with (q + k + 1 + j) by lia.
      rewrite <- Hlj at 1. apply (drop_after text (take j (d :: t3))).
      rewrite app_assoc, take_drop.
      apply (drop_after text ["<"%char]). exact Hrk.
Qed.


Lemma raw_names_ok (name : string) :
  In name ["script"; "style"]%string ->
  str name <> []
  /\ Forall (fun x => x ∉ HTMLParser.name_end) (str name)
  /\ bool_decide (Some (str name) ∈ [Some (str "script"); Some (str "style")])
     = true
  /\ (if bool_decide (Some (str name) = Some (str "script"))
      then HTMLParser.__parse_script text fuel
      else HTMLParser.__parse_style text fuel)
     = parser_result_updater name (HTMLParser.raw_content text fuel name).
Proof.
  intros [<-|[<-|[]]]; (split; [discriminate|]);
    (split;
     [repeat constructor; apply (bool_decide_unpack _); vm_compute; exact I|]);
    split; reflexivity.
Qed.

(** The script or style rule over a guarded body, and the close tag read
    after it. *)
Lemma raw_rule_finds_close (name : string) body post b0 r :
  In name ["script"; "style"]%string ->
  lt_guarded body = true ->
  drop b0 text = body ++ str "</" ++ str name ++ str ">" ++ post ->
  let c := b0 + length body in
  let close := mkElement (c + 2) (c + 2 + length (str name)) "tag_name" in
  parser_result_updater name (HTMLParser.raw_content text fuel name)
    (mkState b0 r)
  = Ok tt
      (mkState c
         (r ++ [close] ++ (if b0 <? c then [mkElement b0 c name] else [])))
  /\ forall r',
       HTMLParser.__try_parse_close_tag text fuel (Some (str name))
         (mkState c r')
       = Ok (Some tt)
           (mkState (c + 2 + length (str name) + 1) (r' ++ [close])).
Proof.
  intros Hname Hg Hr c close.
  destruct (raw_names_ok name Hname) as (Hne & Hvalid & _ & _).
  assert (Hlen : length body < fuel).
  { apply (f_equal (@length ascii)) in Hr. rewrite length_drop in Hr.
    rewrite length_app in Hr. lia. }
  assert (Hrc : drop c text = str "</" ++ str name ++ str ">" ++ post)
    by (apply (drop_after text body); exact Hr).
  split.
  - unfold parser_result_updater, HTMLParser.raw_content.
    rewrite (raw_loop_finds_close name post fuel Hne Hvalid body b0 r Hlen
               Hg Hr).
    cbn [_pos _result]. fold c. fold close.
    destruct (b0 <? c); [now rewrite <- app_assoc|now rewrite app_nil_r].
  - intros r'. unfold HTMLParser.__try_parse_close_tag, parser_error_handler.
    rewrite (parse_close_tag_exact text fuel Hfuel).
    2:{ apply (f_equal (@length ascii)) in Hrc. rewrite length_drop in Hrc.
        simpl in Hrc. cbn [_pos]. lia. }
    now rewrite (close_tag_model_reads c r' (str name) post Hrc Hne Hvalid).
Qed.

(** A tag block at a script or style element with a guarded body. *)
Lemma parse_tag_block_raw_element (name : string) p r body post :
  In name ["script"; "style"]%string ->
  lt_guarded body = true ->
  drop p text
  = str "<" ++ str name ++ str ">" ++ body
    ++ str "</" ++ str name ++ str ">" ++ post ->
  let b0 := p + 1 + length (str name) + 1 in
  let c := b0 + length body in
  let close := mkElement (c + 2) (c + 2 + length (str name)) "tag_name" in
  HTMLParser.__parse_tag_block text fuel (mkState p r)
  = Ok (Some tt)
      (mkState (c + 2 + length (str name) + 1)
         (r ++ [mkElement (p + 1) (p + 1 + length (str name)) "tag_name";
                close]
            ++ (if b0 <? c then [mkElement b0 c name] else [])
            ++ [close])).
Proof.
  intros Hname Hg Hr b0 c close.
  destruct (raw_names_ok name Hname) as (Hne & Hvalid & Hin & Hrule).
  set (nm := str name) in *.
  set (tail := body ++ str "</" ++ nm ++ str ">" ++ post) in *.
  assert (Hr2 : drop (p + 1 + length nm) text = str ">" ++ tail).
  { apply (drop_after text nm). apply (drop_after text (str "<")).
    exact Hr. }
  assert (Hr3 : drop b0 text = tail)
    by (apply (drop_after text (str ">")); exact Hr2).
  set (r1 := r ++ [mkElement (p + 1) (p + 1 + length nm) "tag_name"]).
  pose proof (match_end_of_tag text (p + 1 + length nm) r1 (str ">") tail
                ltac:(now right) Hr2) as Hm.
  assert (Hno : ParserBase._match_single text (str "</") false (mkState p r)
                = false).
  { destruct Hvalid as [|n0 nm' Hn0 _]; [now contradiction Hne|].
    apply (no_close_tag_at_name text p r n0 _ Hr Hn0). }
  destruct (raw_rule_finds_close name body post b0 r1 Hname Hg Hr3)
    as [Hraw Hclose].
  unfold HTMLParser.__parse_tag_block, parser_error_handler.
  rewrite match_one, Hno.
  unfold bind at 1.
  unfold HTMLParser.__try_parse_open_and_close_tag, parser_restorer.
  rewrite (step_tag_head text fuel Hfuel p r nm ">"%char tail
             (fun _ => ParserBase._skip_match text (str "/>") false)
             Hr Hne Hvalid gt_name_end eq_refl Hm).
  rewrite (skip_match_fails text).
  2:{ rewrite match_single_rest. cbn [_pos]. rewrite Hr2.
      apply bool_decide_eq_false. intros H. simpl in H. discriminate. }
  cbn [_pos _result]. unfold bind at 1.
  unfold HTMLParser.__try_parse_open_tag, parser_error_handler.
  rewrite (step_tag_head text fuel Hfuel p r nm ">"%char tail
             (fun name => ParserBase._skip_match text (str ">") false ;;
                          ret name)
             Hr Hne Hvalid gt_name_end eq_refl Hm).
  unfold bind at 1.
  rewrite (step_skip_match text fuel Hfuel (str ">") _ _ tail
             ltac:(discriminate) Hr2).
  cbn [ret]. change (length (str ">")) with 1. fold b0. fold r1.
  rewrite Hin, Hrule.
  unfold bind at 1. rewrite Hraw.
  unfold bind at 1. rewrite Hclose.
  cbn [ret]. subst r1 close. rewrite <- !app_assoc. reflexivity.
Qed.

Lemma no_bang_match lit' a n0 b q r :
  drop q text = a ++ "<"%char :: n0 :: b ->
  Forall (fun x => x <> "<"%char) a ->
  n0 <> "!"%char ->
  ParserBase._match_single text ("<"%char :: "!"%char :: lit') false
    (mkState q r)
  = false.
Proof.
  intros Hr Ha Hn. rewrite match_single_rest. cbn [_pos]. rewrite Hr.
  apply bool_decide_eq_false. intros H.
  destruct Ha as [|x a Hx _]; simpl in H.
  - injection H as H _. apply lower_char_bang in H. now apply Hn.
  - injection H as H _. apply lower_char_lt in H. now apply Hx.
Qed.

(** A document that starts, after text without [<], with a script or
    style element. *)
Lemma parse_raw_element_first (name : string) lead body post s :
  In name ["script"; "style"]%string ->
  Forall (fun x => x <> "<"%char) lead ->
  lt_guarded body = true ->
  text = lead ++ str "<" ++ str name ++ str ">" ++ body
         ++ str "</" ++ str name ++ str ">" ++ post ->
  HTMLParser._parse text fuel (mkState 0 []) = Ok tt s ->
  let k := run is_ws lead in
  let p := length lead in
  let b0 := p + 1 + length (str name) + 1 in
  let c := b0 + length body in
  let close := mkElement (c + 2) (c + 2 + length (str name)) "tag_name" in
  exists rest,
    _result s
    = (if k <? p then [mkElement k p "text"] else [])
      ++ [mkElement (p + 1) (p + 1 + length (str name)) "tag_name"; close]
      ++ (if b0 <? c then [mkElement b0 c name] else [])
      ++ [close] ++ rest.
Proof.
  intros Hname Hlead Hg Ht Hs k p b0 c close.
  destruct (raw_names_ok name Hname) as (Hne & Hvalid & _ & _).
  set (nm := str name) in *.
  set (elem := nm ++ str ">" ++ body ++ str "</" ++ nm ++ str ">" ++ post)
    in *.
  assert (Hn0 : exists n0 elem', elem = n0 :: elem' /\ n0 <> "!"%char).
  { subst elem. destruct Hvalid as [|n0 nm' Hn0 _]; [now contradiction Hne|].
    exists n0, (nm' ++ str ">" ++ body ++ str "</" ++ (n0 :: nm')
                ++ str ">" ++ post).
    split; [reflexivity|]. intros ->. apply Hn0.
    apply (bool_decide_unpack _). vm_compute. exact I. }
  destruct Hn0 as (n0 & elem' & He & Hn0).
  assert (Hk : k <= p) by apply run_le.
  assert (Hdk : drop k text = drop k lead ++ "<"%char :: n0 :: elem').
  { rewrite Ht, drop_app_le by exact Hk. now rewrite <- He. }
  assert (Hdp : drop p text = str "<" ++ elem)
    by (rewrite Ht; apply drop_app_length).
  assert (Hlk : Forall (fun x => x <> "<"%char) (drop k lead))
    by now apply Forall_drop.
  unfold HTMLParser._parse in Hs. cbn [_pos] in Hs.
  unfold bind at 1 in Hs. rewrite try_skip_whitespaces_exact in Hs
    by assumption.
  cbn [_pos] in Hs.
  assert (Hk0 : run is_ws (drop 0 text) = k).
  { rewrite drop_0, Ht. apply (run_app_head is_ws lead "<"%char).
    reflexivity. }
  rewrite Hk0 in Hs.
  change (advance k (mkState 0 [])) with (mkState k []) in Hs.
  unfold bind at 1 in Hs.
  unfold HTMLParser.__try_parse_doctype, parser_restorer,
    parser_result_updater in Hs.
  unfold bind at 1 in Hs.
  rewrite (skip_match_fails text) in Hs
    by (apply (no_bang_match (str "doctype") (drop k lead) n0 elem' k []
                 Hdk Hlk Hn0)).
  cbn [_pos _result] in Hs.
  unfold bind at 1 in Hs. rewrite try_skip_whitespaces_exact in Hs
    by assumption.
  cbn [_pos] in Hs.
  assert (H0 : run is_ws (drop k text) = 0).
  { rewrite Hdk, (run_app_head is_ws (drop k lead) "<"%char) by reflexivity.
    apply run_after_run. }
  rewrite H0 in Hs.
  change (advance 0 (mkState k [])) with (mkState (k + 0) []) in Hs.
  rewrite Nat.add_0_r in Hs.
  set (r0 := if k <? p then [mkElement k p "text"] else []).
  assert (Hut : HTMLParser.__try_parse_user_text text fuel (mkState k [])
                = Ok tt (mkState p r0)).
  { unfold HTMLParser.__try_parse_user_text, parser_result_updater.
    unfold bind at 1. rewrite parse_text_exact by assumption.
    cbv zeta. cbn [andb ret _pos]. rewrite Hdk.
    rewrite (run_app_head (ParserBase._end_filter (str "<")) (drop k lead)
               "<"%char) by reflexivity.
    rewrite run_all.
    2:{ eapply Forall_impl; [exact Hlk|]. intros x Hx.
        unfold ParserBase._end_filter, char_in.
        rewrite bool_decide_eq_false_2; [reflexivity|].
        intros Hin. change (str "<") with ["<"%char] in Hin.
        now apply list_elem_of_singleton in Hin. }
    rewrite length_drop. unfold advance. cbn [_pos _result].
    replace (k + (length lead - k)) with p by (subst p; lia).
    subst r0. now destruct (k <? p). }
  unfold bind at 1 in Hs. rewrite Hut in Hs.
  unfold HTMLParser.__try_parse_tag_blocks in Hs.
  rewrite while_unfold in Hs.
  2:{ lia. }
  2:{ unfold ParserBase._is_end, ParserBase._char. cbn [_pos].
      rewrite <- hd_error_skipn. change (skipn p text) with (drop p text).
      rewrite Hdp. simpl. rewrite andb_true_r. apply negb_true_iff, Nat.leb_gt.
      apply (f_equal (@length ascii)) in Hdp. rewrite length_drop in Hdp.
      simpl in Hdp. lia. }
  unfold HTMLParser.tag_blocks_turn in Hs.
  unfold bind at 1 in Hs.
  unfold HTMLParser.__try_parse_comment, parser_restorer,
    parser_result_updater in Hs.
  unfold bind at 1 in Hs.
  rewrite (skip_match_fails text) in Hs.
  2:{ apply (no_bang_match (str "--") [] n0 elem' p r0); [|constructor|exact Hn0].
      rewrite Hdp, He. reflexivity. }
  cbn [_pos _result] in Hs.
  unfold bind at 1 in Hs.
  rewrite (parse_tag_block_raw_element name p r0 body post Hname Hg Hdp)
    in Hs.
  fold nm b0 c close in Hs.
  set (r1 := r0 ++ [mkElement (p + 1) (p + 1 + length nm) "tag_name"; close]
             ++ (if b0 <? c then [mkElement b0 c name] else []) ++ [close])
    in *.
  set (P := fun _ : ParserElement => True).
  assert (Hrest :
    appends P
      (ParserBase._try_skip_whitespaces text HTMLParser.WHITESPACES fuel ;;
       HTMLParser.__try_parse_user_text text fuel ;;
       ret (Continue tt))).
  { apply appends_bind; [apply appends_try_skip_whitespaces|intros ?].
    apply appends_bind;
      [apply appends_try_parse_user_text; intros; exact I|intros ?].
    apply appends_ret. }
  assert (Hturn : forall l : unit,
            appends P (HTMLParser.tag_blocks_turn text fuel)).
  { intros _. unfold HTMLParser.tag_blocks_turn.
    apply appends_bind;
      [apply appends_try_parse_comment; intros; exact I|intros ?].
    apply appends_bind;
      [apply appends_parse_tag_block; intros; exact I|intros ?].
    exact Hrest. }
  match type of Hs with
  | match ?m ?st with Ok _ _ => _ | Raise _ => _ | OutOfFuel => _ end = _ =>
      pose proof (Hrest st) as Ha; destruct (m st) as [[[]|[]] s1| s1 |];
        try discriminate
  end.
  - destruct Ha as (d1 & E1 & _). cbn [_result] in E1.
    match type of Hs with
    | ?w = _ =>
        match w with
        | while_ ?n ?cond ?bd tt s1 =>
            pose proof (appends_while P cond bd n Hturn tt s1) as Hw
        end
    end.
    rewrite Hs in Hw. destruct Hw as (d2 & E2 & _).
    exists (d1 ++ d2). rewrite E2, E1. subst r1.
    rewrite <- !app_assoc. reflexivity.
  - destruct Ha as (d1 & E1 & _). cbn [_result] in E1.
    injection Hs as <-. exists d1. rewrite E1. subst r1.
    rewrite <- !app_assoc. reflexivity.
Qed.

End RawElement.



